(** * p5.js WebGL renderer: matrix stack, shader cache, lights, camera, pixels

    A shallow embedding of the renderer sources
    ([p5.RendererGL], [material.js], [light.js], [camera.js], [pixels.js])
    and the properties of the specification that were checked against it.

    Conventions.
    - JavaScript numbers are IEEE-754 doubles: [float] of [PrimFloat].
    - A JavaScript object that is mutated through several references
      ([p5.Matrix]) lives in a store and is named by its address.
    - The WebGL context is the list of calls issued on it, newest first;
      what a call sequence leaves enabled is read back from that list.
    - A method takes its receiver as the argument [this] and returns the
      updated receiver. *)

From Stdlib Require Import ZArith List Ascii String PrimFloat.
From stdpp Require Import gmap strings list.

Local Open Scope string_scope.

(** ** JavaScript values *)

Set Warnings "-register-all,-inexact-float".

Module JS.

Inductive Value : Type :=
| Undefined
| Null
| Boolean (b : bool)
| Number (n : float)
| Str (s : string)
| Array (elts : list Value)
| Float32Array (elts : list float)
| Object (props : list (string * Value)).

Inductive Error : Type :=
| TypeError (msg : string)
| GenericError (msg : string).

(** The completion of a call on a receiver of type [S]: it returns
    normally, or it throws and leaves the receiver as it was when the
    exception left the function. *)
Inductive Completion (S : Type) : Type :=
| Normal (s : S)
| Throw (e : Error) (s : S).
Arguments Normal {S} s.
Arguments Throw {S} e s.

Definition throws {S} (c : Completion S) : bool :=
  match c with Normal _ => false | Throw _ _ => true end.

(** [typeof v === 'number'] *)
Definition is_number (v : Value) : bool :=
  match v with Number _ => true | _ => false end.

(** [v === true] *)
Definition is_true (v : Value) : bool :=
  match v with Boolean true => true | _ => false end.

(** [v] is [undefined] or [null]. *)
Definition nullish (v : Value) : bool :=
  match v with Undefined | Null => true | _ => false end.

(** [args[i]] for an integer index that may be negative or past the
    end: outside the array the read gives [undefined]. *)
Definition index (args : list Value) (i : Z) : Value :=
  if (i <? 0)%Z then Undefined else nth (Z.to_nat i) args Undefined.

(** [data[i]] on a value used as an array. *)
Definition elem (data : Value) (i : nat) : Value :=
  match data with
  | Array elts => nth i elts Undefined
  | Float32Array elts =>
      match nth_error elts i with Some x => Number x | None => Undefined end
  | _ => Undefined
  end.

Fixpoint assoc (k : string) (props : list (string * Value)) : Value :=
  match props with
  | [] => Undefined
  | (k', v) :: rest => if String.eqb k k' then v else assoc k rest
  end.

(** [v.k] for one of the plain field names [x], [y], [z]: reading a field
    of [undefined] or [null] throws a TypeError; a primitive or an array
    has no such field and the read gives [undefined]. *)
Definition get (v : Value) (k : string) : Error + Value :=
  match v with
  | Undefined => inl (TypeError ("Cannot read property '" ++ k ++ "' of undefined"))
  | Null => inl (TypeError ("Cannot read property '" ++ k ++ "' of null"))
  | Object props => inr (assoc k props)
  | _ => inr Undefined
  end.

(** [x || d] on an optional number: [undefined], [0], [-0] and [NaN] are
    falsy. *)
Definition or_default (x : option float) (d : float) : float :=
  match x with
  | Some v => if (PrimFloat.eqb v 0 || PrimFloat.is_nan v)%bool then d else v
  | None => d
  end.

(** The double reached by [n] increments ([++]) from [0]. *)
Fixpoint count (n : nat) : float :=
  match n with
  | O => 0%float
  | S k => (count k + 1)%float
  end.

End JS.

(** [Math.PI] *)
Definition Math_PI : float := 0x1.921fb54442d18p+1%float.

(** ** Collaborators outside the renderer sources

    The renderer calls into [p5.Matrix], the colour resolver, the table of
    shader sources and the WebGL implementation of the host. None of them is
    part of the sources; each is an interface here, and every theorem holds
    for all its implementations. *)

(** [p5.Matrix]: the matrix value held by a matrix object and the
    operations the renderer calls on it. *)
Class p5_Matrix : Type := {
  Matrix : Type;
  (** [p5.Matrix.identity()], [new p5.Matrix()] *)
  mat_identity : Matrix;
  (** [new p5.Matrix('mat3')] *)
  mat3_identity : Matrix;
  (** [m.translate([x, y, z])] *)
  mat_translate : Matrix -> float * float * float -> Matrix;
  (** [m.scale([x, y, z])] *)
  mat_scale : Matrix -> float * float * float -> Matrix;
  (** [m.rotate(rad, axis)] *)
  mat_rotate : Matrix -> float -> float * float * float -> Matrix;
  (** [m.perspective(fovy, aspect, near, far)] *)
  mat_perspective : Matrix -> float -> float -> float -> float -> Matrix;
  (** [m.ortho(left, right, bottom, top, near, far)] *)
  mat_ortho : Matrix -> float -> float -> float -> float -> float -> float -> Matrix
}.

(** A resolved [p5.Color]: [_array] holds the normalised components. *)
Record Color : Type := { _array : list float }.

(** What the sketch and the browser provide: the colour resolver
    [this._pInst.color], the shader source table of [require('./shader')],
    the density of the display and [Math.tan]. *)
Class Host : Type := {
  color : list JS.Value -> Color;
  shader : string -> option string;
  _pixelDensity : float;
  Math_tan : float -> float
}.

Module gl.

Inductive ShaderType : Type := VERTEX_SHADER | FRAGMENT_SHADER.

Inductive Capability : Type := DEPTH_TEST | BLEND.

Inductive BlendEnum : Type := FUNC_ADD | SRC_ALPHA | ONE_MINUS_SRC_ALPHA.

(** The uniform types [_setUniform] dispatches on; any other type code of
    the implementation is [OTHER]. *)
Inductive Type_ : Type :=
| BOOL | INT | FLOAT | FLOAT_MAT3 | FLOAT_MAT4
| FLOAT_VEC2 | FLOAT_VEC3 | FLOAT_VEC4 | SAMPLER_2D
| OTHER (code : Z).

(** [WebGLActiveInfo] *)
Record ActiveInfo : Type := {
  info_name : string;
  info_size : Z;
  info_type : Type_
}.

(** [WebGLUniformLocation]: the handle [getUniformLocation(program, name)]
    gives; it stands for the program and the name it was asked for. *)
Record UniformLocation : Type := {
  loc_program : nat;
  loc_name : string
}.

(** A call issued on the context. A shader object is named by its stage
    and the source loaded into it, a program object by its number. *)
Inductive Call : Type :=
| enable (cap : Capability)
| disable (cap : Capability)
| depthFunc_LEQUAL
| viewport (x y w h : float)
| depthMask (flag : bool)
| blendEquation (mode : BlendEnum)
| blendFunc (sfactor dfactor : BlendEnum)
| createShader (t : ShaderType)
| shaderSource (t : ShaderType) (src : option string)
| compileShader (t : ShaderType) (src : option string)
| createProgram
| attachShader (prog : nat) (t : ShaderType)
| linkProgram (prog : nat)
| createEmptyTexture
| useProgram (prog : option nat)
| uniform1i (loc : UniformLocation) (v : JS.Value)
| uniform1f (loc : UniformLocation) (v : JS.Value)
| uniform1fv (loc : UniformLocation) (v : JS.Value)
| uniform2f (loc : UniformLocation) (v0 v1 : JS.Value)
| uniform2fv (loc : UniformLocation) (v : JS.Value)
| uniform3f (loc : UniformLocation) (v0 v1 v2 : JS.Value)
| uniform3fv (loc : UniformLocation) (v : JS.Value)
| uniform4f (loc : UniformLocation) (v0 v1 v2 v3 : JS.Value)
| uniform4fv (loc : UniformLocation) (v : JS.Value)
| uniformMatrix3fv (loc : UniformLocation) (transpose : bool) (v : JS.Value)
| uniformMatrix4fv (loc : UniformLocation) (transpose : bool) (v : JS.Value)
| activeTexture (unit : nat)
| bindTexture_2D (texture : JS.Value).

(** The context: the calls issued so far, newest first. *)
Abbreviation Ctx := (list Call).

Definition Capability_eqb (a b : Capability) : bool :=
  match a, b with
  | DEPTH_TEST, DEPTH_TEST | BLEND, BLEND => true
  | _, _ => false
  end.

Definition ShaderType_eqb (a b : ShaderType) : bool :=
  match a, b with
  | VERTEX_SHADER, VERTEX_SHADER | FRAGMENT_SHADER, FRAGMENT_SHADER => true
  | _, _ => false
  end.

(** [gl.isEnabled(cap)]: the latest [enable]/[disable] of the capability
    decides; a new context has both capabilities off. *)
Fixpoint isEnabled (cap : Capability) (ctx : Ctx) : bool :=
  match ctx with
  | [] => false
  | enable c :: rest => if Capability_eqb c cap then true else isEnabled cap rest
  | disable c :: rest => if Capability_eqb c cap then false else isEnabled cap rest
  | _ :: rest => isEnabled cap rest
  end.

(** [gl.getParameter(gl.DEPTH_WRITEMASK)]: depth writes are on in a new
    context. *)
Fixpoint DEPTH_WRITEMASK (ctx : Ctx) : bool :=
  match ctx with
  | [] => true
  | depthMask flag :: _ => flag
  | _ :: rest => DEPTH_WRITEMASK rest
  end.

(** How many times a stage was compiled, programs were created, programs
    were linked. *)
Fixpoint compilations (t : ShaderType) (ctx : Ctx) : nat :=
  match ctx with
  | [] => 0
  | compileShader t' _ :: rest =>
      (if ShaderType_eqb t' t then 1 else 0) + compilations t rest
  | _ :: rest => compilations t rest
  end.

Fixpoint programs (ctx : Ctx) : nat :=
  match ctx with
  | [] => 0
  | createProgram :: rest => S (programs rest)
  | _ :: rest => programs rest
  end.

Fixpoint links (ctx : Ctx) : nat :=
  match ctx with
  | [] => 0
  | linkProgram _ :: rest => S (links rest)
  | _ :: rest => links rest
  end.

(** The location a uniform call writes. *)
Definition location_of (c : Call) : option UniformLocation :=
  match c with
  | uniform1i loc _ | uniform1f loc _ | uniform1fv loc _
  | uniform2f loc _ _ | uniform2fv loc _
  | uniform3f loc _ _ _ | uniform3fv loc _
  | uniform4f loc _ _ _ _ | uniform4fv loc _
  | uniformMatrix3fv loc _ _ | uniformMatrix4fv loc _ _ => Some loc
  | _ => None
  end.

(** The uniform calls issued at the location of the given name (for an
    array element, ["name[i]"]), newest first. *)
Definition writes_to (name : string) (ctx : Ctx) : list Call :=
  List.filter (fun c => match location_of c with
                        | Some loc => String.eqb (loc_name loc) name
                        | None => false
                        end) ctx.

End gl.

(** The WebGL implementation: what it answers when the renderer asks for
    the status of a compilation or a link and for the active attributes
    and uniforms of a program. The answers depend on the sources loaded
    into the two stages. *)
Class Driver : Type := {
  COMPILE_STATUS : gl.ShaderType -> option string -> bool;
  getShaderInfoLog : gl.ShaderType -> option string -> string;
  LINK_STATUS : option string -> option string -> bool;
  ACTIVE_ATTRIBUTES : option string -> option string -> list gl.ActiveInfo;
  ACTIVE_UNIFORMS : option string -> option string -> list gl.ActiveInfo;
  getAttribLocation : option string -> option string -> string -> Z
}.

(** ** Shader programs *)

Record Attribute : Type := {
  attr_name : string;
  attr_location : Z;
  attr_type : gl.Type_;
  attr_size : Z
}.

Record Uniform : Type := {
  u_location : gl.UniformLocation;
  u_size : Z;
  u_name : string;
  u_type : gl.Type_;
  u_samplerIndex : option nat
}.

(** The program object [_initShaders] builds: the [WebGLProgram] with the
    two tables the renderer hangs on it. *)
Record ShaderProgram : Type := {
  program_id : nat;
  attributes : gmap string Attribute;
  uniforms : gmap string Uniform
}.

(** What a variable that holds a program can hold. *)
Inductive Handle : Type :=
| undefined
| null
| program (p : ShaderProgram).

(** [a === b] on handles: two program objects are the same object when
    they are the same [WebGLProgram]. *)
Definition Handle_same (a b : Handle) : bool :=
  match a, b with
  | undefined, undefined => true
  | null, null => true
  | program p, program q => Nat.eqb (program_id p) (program_id q)
  | _, _ => false
  end.

(** ** The renderer object *)

(** [this._curCamera]: [null], ['default'] or ['custom']. *)
Inductive CurCamera : Type := camera_null | camera_default | camera_custom.

(** [this.drawMode]: unset, ['fill'], ['wireframe'] or ['texture']. *)
Inductive DrawMode : Type := mode_unset | mode_fill | mode_wireframe | mode_texture.

Record RendererGL : Type := {
  (** [this.GL], the drawing context *)
  GL : gl.Ctx;
  (** the messages shown with [alert], newest first *)
  alerts : list string;
  (** [this.width] of the base renderer *)
  width : float;
  (** [this.height] of the base renderer *)
  height : float;
  ambientLightCount : nat;
  directionalLightCount : nat;
  pointLightCount : nat;
  _curCamera : CurCamera;
  (** address of the model-view matrix object *)
  uMVMatrix : nat;
  (** address of the projection matrix object *)
  uPMatrix : nat;
  (** address of the normal matrix object *)
  uNMatrix : nat;
  (** the material hash: key to cached program *)
  mHash : gmap string Handle;
  isImmediateDrawing : bool;
  curFillColor : list float;
  curStrokeColor : list float;
  drawMode : DrawMode;
  curShader : Handle;
  (** [undefined] until the first [_getShader] *)
  curShaderId : option string;
  newShader : bool
}.

(** Field updates, [this.f = v]. *)
Definition set_GL (v : gl.Ctx) (this : RendererGL) : RendererGL :=
  {| GL := v; alerts := alerts this; width := width this;
     height := height this; ambientLightCount := ambientLightCount this;
     directionalLightCount := directionalLightCount this;
     pointLightCount := pointLightCount this; _curCamera := _curCamera this;
     uMVMatrix := uMVMatrix this; uPMatrix := uPMatrix this;
     uNMatrix := uNMatrix this; mHash := mHash this;
     isImmediateDrawing := isImmediateDrawing this;
     curFillColor := curFillColor this;
     curStrokeColor := curStrokeColor this; drawMode := drawMode this;
     curShader := curShader this; curShaderId := curShaderId this;
     newShader := newShader this |}.

Definition set_alerts (v : list string) (this : RendererGL) : RendererGL :=
  {| GL := GL this; alerts := v; width := width this; height := height this;
     ambientLightCount := ambientLightCount this;
     directionalLightCount := directionalLightCount this;
     pointLightCount := pointLightCount this; _curCamera := _curCamera this;
     uMVMatrix := uMVMatrix this; uPMatrix := uPMatrix this;
     uNMatrix := uNMatrix this; mHash := mHash this;
     isImmediateDrawing := isImmediateDrawing this;
     curFillColor := curFillColor this;
     curStrokeColor := curStrokeColor this; drawMode := drawMode this;
     curShader := curShader this; curShaderId := curShaderId this;
     newShader := newShader this |}.

Definition set_width (v : float) (this : RendererGL) : RendererGL :=
  {| GL := GL this; alerts := alerts this; width := v;
     height := height this; ambientLightCount := ambientLightCount this;
     directionalLightCount := directionalLightCount this;
     pointLightCount := pointLightCount this; _curCamera := _curCamera this;
     uMVMatrix := uMVMatrix this; uPMatrix := uPMatrix this;
     uNMatrix := uNMatrix this; mHash := mHash this;
     isImmediateDrawing := isImmediateDrawing this;
     curFillColor := curFillColor this;
     curStrokeColor := curStrokeColor this; drawMode := drawMode this;
     curShader := curShader this; curShaderId := curShaderId this;
     newShader := newShader this |}.

Definition set_height (v : float) (this : RendererGL) : RendererGL :=
  {| GL := GL this; alerts := alerts this; width := width this; height := v;
     ambientLightCount := ambientLightCount this;
     directionalLightCount := directionalLightCount this;
     pointLightCount := pointLightCount this; _curCamera := _curCamera this;
     uMVMatrix := uMVMatrix this; uPMatrix := uPMatrix this;
     uNMatrix := uNMatrix this; mHash := mHash this;
     isImmediateDrawing := isImmediateDrawing this;
     curFillColor := curFillColor this;
     curStrokeColor := curStrokeColor this; drawMode := drawMode this;
     curShader := curShader this; curShaderId := curShaderId this;
     newShader := newShader this |}.

Definition set_ambientLightCount (v : nat) (this : RendererGL) : RendererGL :=
  {| GL := GL this; alerts := alerts this; width := width this;
     height := height this; ambientLightCount := v;
     directionalLightCount := directionalLightCount this;
     pointLightCount := pointLightCount this; _curCamera := _curCamera this;
     uMVMatrix := uMVMatrix this; uPMatrix := uPMatrix this;
     uNMatrix := uNMatrix this; mHash := mHash this;
     isImmediateDrawing := isImmediateDrawing this;
     curFillColor := curFillColor this;
     curStrokeColor := curStrokeColor this; drawMode := drawMode this;
     curShader := curShader this; curShaderId := curShaderId this;
     newShader := newShader this |}.

Definition set_directionalLightCount (v : nat) (this : RendererGL) : RendererGL :=
  {| GL := GL this; alerts := alerts this; width := width this;
     height := height this; ambientLightCount := ambientLightCount this;
     directionalLightCount := v; pointLightCount := pointLightCount this;
     _curCamera := _curCamera this; uMVMatrix := uMVMatrix this;
     uPMatrix := uPMatrix this; uNMatrix := uNMatrix this;
     mHash := mHash this; isImmediateDrawing := isImmediateDrawing this;
     curFillColor := curFillColor this;
     curStrokeColor := curStrokeColor this; drawMode := drawMode this;
     curShader := curShader this; curShaderId := curShaderId this;
     newShader := newShader this |}.

Definition set_pointLightCount (v : nat) (this : RendererGL) : RendererGL :=
  {| GL := GL this; alerts := alerts this; width := width this;
     height := height this; ambientLightCount := ambientLightCount this;
     directionalLightCount := directionalLightCount this;
     pointLightCount := v; _curCamera := _curCamera this;
     uMVMatrix := uMVMatrix this; uPMatrix := uPMatrix this;
     uNMatrix := uNMatrix this; mHash := mHash this;
     isImmediateDrawing := isImmediateDrawing this;
     curFillColor := curFillColor this;
     curStrokeColor := curStrokeColor this; drawMode := drawMode this;
     curShader := curShader this; curShaderId := curShaderId this;
     newShader := newShader this |}.

Definition set_curCamera (v : CurCamera) (this : RendererGL) : RendererGL :=
  {| GL := GL this; alerts := alerts this; width := width this;
     height := height this; ambientLightCount := ambientLightCount this;
     directionalLightCount := directionalLightCount this;
     pointLightCount := pointLightCount this; _curCamera := v;
     uMVMatrix := uMVMatrix this; uPMatrix := uPMatrix this;
     uNMatrix := uNMatrix this; mHash := mHash this;
     isImmediateDrawing := isImmediateDrawing this;
     curFillColor := curFillColor this;
     curStrokeColor := curStrokeColor this; drawMode := drawMode this;
     curShader := curShader this; curShaderId := curShaderId this;
     newShader := newShader this |}.

Definition set_uMVMatrix (v : nat) (this : RendererGL) : RendererGL :=
  {| GL := GL this; alerts := alerts this; width := width this;
     height := height this; ambientLightCount := ambientLightCount this;
     directionalLightCount := directionalLightCount this;
     pointLightCount := pointLightCount this; _curCamera := _curCamera this;
     uMVMatrix := v; uPMatrix := uPMatrix this; uNMatrix := uNMatrix this;
     mHash := mHash this; isImmediateDrawing := isImmediateDrawing this;
     curFillColor := curFillColor this;
     curStrokeColor := curStrokeColor this; drawMode := drawMode this;
     curShader := curShader this; curShaderId := curShaderId this;
     newShader := newShader this |}.

Definition set_uPMatrix (v : nat) (this : RendererGL) : RendererGL :=
  {| GL := GL this; alerts := alerts this; width := width this;
     height := height this; ambientLightCount := ambientLightCount this;
     directionalLightCount := directionalLightCount this;
     pointLightCount := pointLightCount this; _curCamera := _curCamera this;
     uMVMatrix := uMVMatrix this; uPMatrix := v; uNMatrix := uNMatrix this;
     mHash := mHash this; isImmediateDrawing := isImmediateDrawing this;
     curFillColor := curFillColor this;
     curStrokeColor := curStrokeColor this; drawMode := drawMode this;
     curShader := curShader this; curShaderId := curShaderId this;
     newShader := newShader this |}.

Definition set_mHash (v : gmap string Handle) (this : RendererGL) : RendererGL :=
  {| GL := GL this; alerts := alerts this; width := width this;
     height := height this; ambientLightCount := ambientLightCount this;
     directionalLightCount := directionalLightCount this;
     pointLightCount := pointLightCount this; _curCamera := _curCamera this;
     uMVMatrix := uMVMatrix this; uPMatrix := uPMatrix this;
     uNMatrix := uNMatrix this; mHash := v;
     isImmediateDrawing := isImmediateDrawing this;
     curFillColor := curFillColor this;
     curStrokeColor := curStrokeColor this; drawMode := drawMode this;
     curShader := curShader this; curShaderId := curShaderId this;
     newShader := newShader this |}.

Definition set_curFillColor (v : list float) (this : RendererGL) : RendererGL :=
  {| GL := GL this; alerts := alerts this; width := width this;
     height := height this; ambientLightCount := ambientLightCount this;
     directionalLightCount := directionalLightCount this;
     pointLightCount := pointLightCount this; _curCamera := _curCamera this;
     uMVMatrix := uMVMatrix this; uPMatrix := uPMatrix this;
     uNMatrix := uNMatrix this; mHash := mHash this;
     isImmediateDrawing := isImmediateDrawing this; curFillColor := v;
     curStrokeColor := curStrokeColor this; drawMode := drawMode this;
     curShader := curShader this; curShaderId := curShaderId this;
     newShader := newShader this |}.

Definition set_drawMode (v : DrawMode) (this : RendererGL) : RendererGL :=
  {| GL := GL this; alerts := alerts this; width := width this;
     height := height this; ambientLightCount := ambientLightCount this;
     directionalLightCount := directionalLightCount this;
     pointLightCount := pointLightCount this; _curCamera := _curCamera this;
     uMVMatrix := uMVMatrix this; uPMatrix := uPMatrix this;
     uNMatrix := uNMatrix this; mHash := mHash this;
     isImmediateDrawing := isImmediateDrawing this;
     curFillColor := curFillColor this;
     curStrokeColor := curStrokeColor this; drawMode := v;
     curShader := curShader this; curShaderId := curShaderId this;
     newShader := newShader this |}.

Definition set_curShader (v : Handle) (this : RendererGL) : RendererGL :=
  {| GL := GL this; alerts := alerts this; width := width this;
     height := height this; ambientLightCount := ambientLightCount this;
     directionalLightCount := directionalLightCount this;
     pointLightCount := pointLightCount this; _curCamera := _curCamera this;
     uMVMatrix := uMVMatrix this; uPMatrix := uPMatrix this;
     uNMatrix := uNMatrix this; mHash := mHash this;
     isImmediateDrawing := isImmediateDrawing this;
     curFillColor := curFillColor this;
     curStrokeColor := curStrokeColor this; drawMode := drawMode this;
     curShader := v; curShaderId := curShaderId this;
     newShader := newShader this |}.

Definition set_curShaderId (v : option string) (this : RendererGL) : RendererGL :=
  {| GL := GL this; alerts := alerts this; width := width this;
     height := height this; ambientLightCount := ambientLightCount this;
     directionalLightCount := directionalLightCount this;
     pointLightCount := pointLightCount this; _curCamera := _curCamera this;
     uMVMatrix := uMVMatrix this; uPMatrix := uPMatrix this;
     uNMatrix := uNMatrix this; mHash := mHash this;
     isImmediateDrawing := isImmediateDrawing this;
     curFillColor := curFillColor this;
     curStrokeColor := curStrokeColor this; drawMode := drawMode this;
     curShader := curShader this; curShaderId := v;
     newShader := newShader this |}.

Definition set_newShader (v : bool) (this : RendererGL) : RendererGL :=
  {| GL := GL this; alerts := alerts this; width := width this;
     height := height this; ambientLightCount := ambientLightCount this;
     directionalLightCount := directionalLightCount this;
     pointLightCount := pointLightCount this; _curCamera := _curCamera this;
     uMVMatrix := uMVMatrix this; uPMatrix := uPMatrix this;
     uNMatrix := uNMatrix this; mHash := mHash this;
     isImmediateDrawing := isImmediateDrawing this;
     curFillColor := curFillColor this;
     curStrokeColor := curStrokeColor this; drawMode := drawMode this;
     curShader := curShader this; curShaderId := curShaderId this;
     newShader := v |}.

(** [gl.f(...)]: one more call on the context of the renderer. *)
Definition issue (c : gl.Call) (this : RendererGL) : RendererGL :=
  set_GL (c :: GL this) this.

(** ** The store of matrix objects and the module-level stack *)

(** The state that lives outside any one renderer: the [p5.Matrix] objects,
    each at its address, and the variable [uMVMatrixStack] of the renderer
    module. The array is only ever used through [push], [pop] and [length];
    it is kept with its last element first. *)
Record World `{p5_Matrix} : Type := {
  matrices : list Matrix;
  uMVMatrixStack : list nat
}.

(** [p5]: the sketch instance, as far as the lighting and camera functions
    use it. *)
Record p5 : Type := {
  p5_width : float;
  p5_height : float;
  _renderer : RendererGL
}.

Definition set_renderer (v : RendererGL) (this : p5) : p5 :=
  {| p5_width := p5_width this; p5_height := p5_height this; _renderer := v |}.

(** The id has no ['|'], the separator of the cache key. *)
Fixpoint bar_free (id : string) : bool :=
  match id with
  | EmptyString => true
  | String c rest => negb (Ascii.eqb c "|"%char) && bar_free rest
  end.

Section Renderer.

Context `{ML : p5_Matrix} `{HO : Host} `{DR : Driver}.

Local Open Scope float_scope.

(** *** Matrix objects in the store *)

Definition set_matrices (v : list Matrix) (w : World) : World :=
  {| matrices := v; uMVMatrixStack := uMVMatrixStack w |}.

Definition set_uMVMatrixStack (v : list nat) (w : World) : World :=
  {| matrices := matrices w; uMVMatrixStack := v |}.

(** A new matrix object: it gets the next address. *)
Definition alloc (m : Matrix) (w : World) : nat * World :=
  (length (matrices w), set_matrices (matrices w ++ [m]) w).

(** The address names an object. Every address a renderer holds does. *)
Definition allocated (a : nat) (w : World) : Prop :=
  is_Some (matrices w !! a).

(** The matrix an object holds. An address outside the store names no
    object; no renderer built by [RendererGL_new] and the methods below has
    one. *)
Definition deref (a : nat) (w : World) : Matrix :=
  default mat_identity (matrices w !! a).

(** A method of [p5.Matrix] that changes its receiver in place. *)
Definition mutate (a : nat) (f : Matrix -> Matrix) (w : World) : World :=
  set_matrices (alter f a (matrices w)) w.

(** Modelled from the spec: [p5.Matrix.prototype.copy], which is not among
    the sources ("push appends a copy of the current matrix"): a new object
    that holds the same matrix. *)
Definition mat_copy (a : nat) (w : World) : nat * World :=
  alloc (deref a w) w.

(** *** Transforms *)

Definition translate (x y z : float) (this : RendererGL) (w : World) : World :=
  mutate (uMVMatrix this) (fun m => mat_translate m (x, - y, z)) w.

Definition scale (x y z : float) (this : RendererGL) (w : World) : World :=
  mutate (uMVMatrix this) (fun m => mat_scale m (x, y, z)) w.

Definition rotate (rad : float) (axis : float * float * float)
    (this : RendererGL) (w : World) : World :=
  mutate (uMVMatrix this) (fun m => mat_rotate m rad axis) w.

Definition rotateX (rad : float) := rotate rad (1, 0, 0).
Definition rotateY (rad : float) := rotate rad (0, 1, 0).
Definition rotateZ (rad : float) := rotate rad (0, 0, 1).

(** *** The matrix stack *)

Definition push (this : RendererGL) (w : World) : World :=
  let '(c, w) := mat_copy (uMVMatrix this) w in
  set_uMVMatrixStack (c :: uMVMatrixStack w) w.

Definition pop (this : RendererGL) (w : World)
    : JS.Completion (RendererGL * World) :=
  match uMVMatrixStack w with
  | [] => JS.Throw (JS.GenericError "Invalid popMatrix!") (this, w)
  | top :: rest =>
      JS.Normal (set_uMVMatrix top this, set_uMVMatrixStack rest w)
  end.

Definition resetMatrix (this : RendererGL) (w : World) : RendererGL * World :=
  let '(a, w) := alloc mat_identity w in
  let this := set_uMVMatrix a this in
  (this, translate 0 0 (-800) this w).

(** *** Per-pass reset and the default camera *)

Definition _update (this : RendererGL) (w : World) : RendererGL * World :=
  let '(a, w) := alloc mat_identity w in
  let this := set_uMVMatrix a this in
  let w := translate 0 0 (- (height this / 2) / Math_tan (Math_PI * 30 / 180)) this w in
  let this := set_ambientLightCount 0 this in
  let this := set_directionalLightCount 0 this in
  let this := set_pointLightCount 0 this in
  (this, w).

Definition _setDefaultCamera (this : RendererGL) (w : World)
    : RendererGL * World :=
  match _curCamera this with
  | camera_null =>
      let _w := width this in
      let _h := height this in
      let '(a, w) := alloc mat_identity w in
      let this := set_uPMatrix a this in
      let cameraZ := (height this / 2) / Math_tan (Math_PI * 30 / 180) in
      let w := mutate (uPMatrix this)
                 (fun m => mat_perspective m (60 / 180 * Math_PI) (_w / _h)
                             (cameraZ * 0.1) (cameraZ * 10)) w in
      (set_curCamera camera_default this, w)
  | _ => (this, w)
  end.

(** Modelled from the spec: [p5.Renderer.prototype.resize], which is not
    among the sources ("updates viewport dimensions"): the renderer takes
    the new width and height. *)
Definition Renderer_resize (w h : float) (this : RendererGL) : RendererGL :=
  set_height h (set_width w this).

(** [gl.drawingBufferWidth], [gl.drawingBufferHeight]: the size of the
    canvas in device pixels. *)
Definition drawingBufferWidth (this : RendererGL) : float :=
  width this * _pixelDensity.
Definition drawingBufferHeight (this : RendererGL) : float :=
  height this * _pixelDensity.

Definition resize (w h : float) (this : RendererGL) (world : World)
    : RendererGL * World :=
  let this := Renderer_resize w h this in
  let this := issue (gl.viewport 0 0 (drawingBufferWidth this)
                       (drawingBufferHeight this)) this in
  match _curCamera this with
  | camera_default => _setDefaultCamera (set_curCamera camera_null this) world
  | _ => (this, world)
  end.

(** *** Shaders *)

(** [alert(msg)] *)
Definition alert (msg : string) (this : RendererGL) : RendererGL :=
  set_alerts (msg :: alerts this) this.

(** Modelled from the spec: [_createEmptyTexture], which is not among the
    sources; the specification gives it no part in compiling, caching,
    blending, lights or matrices. It is one opaque call on the context. *)
Definition _createEmptyTexture (this : RendererGL) : RendererGL :=
  issue gl.createEmptyTexture this.

(** The loop over the active attributes:
    [shaderProgram.attributes[name] = attribute]. *)
Definition introspect_attributes (vsrc fsrc : option string)
    : gmap string Attribute :=
  fold_left
    (fun table attributeInfo =>
       let name := gl.info_name attributeInfo in
       <[name := {| attr_name := name;
                    attr_location := getAttribLocation vsrc fsrc name;
                    attr_type := gl.info_type attributeInfo;
                    attr_size := gl.info_size attributeInfo |}]> table)
    (ACTIVE_ATTRIBUTES vsrc fsrc) ∅.

(** [uniformName.substring(0, uniformName.indexOf('[0]'))] for a uniform of
    size above one; [indexOf] gives [-1] when there is no ["[0]"], and
    [substring(0, -1)] is the empty string. *)
Definition trim_array_suffix (size : Z) (uniformName : string) : string :=
  if (1 <? size)%Z then
    match String.index 0 "[0]" uniformName with
    | Some k => String.substring 0 k uniformName
    | None => ""
    end
  else uniformName.

Definition is_SAMPLER_2D (t : gl.Type_) : bool :=
  match t with gl.SAMPLER_2D => true | _ => false end.

(** The loop over the active uniforms, with its running [samplerIndex]. *)
Definition introspect_uniforms (prog : nat) (vsrc fsrc : option string)
    : gmap string Uniform :=
  fst (fold_left
    (fun '(table, samplerIndex) uniformInfo =>
       let uniformName :=
         trim_array_suffix (gl.info_size uniformInfo) (gl.info_name uniformInfo) in
       let sampler := is_SAMPLER_2D (gl.info_type uniformInfo) in
       let uniform :=
         {| u_location := {| gl.loc_program := prog;
                             gl.loc_name := gl.info_name uniformInfo |};
            u_size := gl.info_size uniformInfo;
            u_name := uniformName;
            u_type := gl.info_type uniformInfo;
            u_samplerIndex := if sampler then Some samplerIndex else None |} in
       (<[uniformName := uniform]> table,
        if sampler then S samplerIndex else samplerIndex))
    (ACTIVE_UNIFORMS vsrc fsrc) (∅, O)).

Definition _initShaders (vertId fragId : string) (isImmediateMode : JS.Value)
    (this : RendererGL) : Handle * RendererGL :=
  let vsrc := shader vertId in
  let this := issue (gl.createShader gl.VERTEX_SHADER) this in
  let this := issue (gl.shaderSource gl.VERTEX_SHADER vsrc) this in
  let this := issue (gl.compileShader gl.VERTEX_SHADER vsrc) this in
  if negb (COMPILE_STATUS gl.VERTEX_SHADER vsrc) then
    (null,
     alert ("Yikes! An error occurred compiling the shaders:" ++
            getShaderInfoLog gl.VERTEX_SHADER vsrc) this)
  else
  let fsrc := shader fragId in
  let this := issue (gl.createShader gl.FRAGMENT_SHADER) this in
  let this := issue (gl.shaderSource gl.FRAGMENT_SHADER fsrc) this in
  let this := issue (gl.compileShader gl.FRAGMENT_SHADER fsrc) this in
  if negb (COMPILE_STATUS gl.FRAGMENT_SHADER fsrc) then
    (null,
     alert ("Darn! An error occurred compiling the shaders:" ++
            getShaderInfoLog gl.FRAGMENT_SHADER fsrc) this)
  else
  let prog := gl.programs (GL this) in
  let this := issue gl.createProgram this in
  let this := issue (gl.attachShader prog gl.VERTEX_SHADER) this in
  let this := issue (gl.attachShader prog gl.FRAGMENT_SHADER) this in
  let this := issue (gl.linkProgram prog) this in
  let this :=
    if negb (LINK_STATUS vsrc fsrc)
    then alert "Snap! Error linking shader program" this
    else this in
  let attributes := introspect_attributes vsrc fsrc in
  let this := _createEmptyTexture this in
  let uniforms := introspect_uniforms prog vsrc fsrc in
  (program {| program_id := prog; attributes := attributes; uniforms := uniforms |},
   this).

Definition program_number (h : Handle) : option nat :=
  match h with program p => Some (program_id p) | _ => None end.

Definition _useShader (shaderProgram : Handle) (this : RendererGL) : RendererGL :=
  if Handle_same shaderProgram (curShader this) then this
  else
    let this := issue (gl.useProgram (program_number shaderProgram)) this in
    set_curShader shaderProgram this.

Definition _setUniform (uniformName : string) (data : JS.Value)
    (this : RendererGL) : RendererGL :=
  match curShader this with
  | program shaderProgram =>
      match uniforms shaderProgram !! uniformName with
      | None => this
      | Some uniform =>
          let location := u_location uniform in
          match u_type uniform with
          | gl.BOOL =>
              if JS.is_true data
              then issue (gl.uniform1i location (JS.Number 1)) this
              else issue (gl.uniform1i location (JS.Number 0)) this
          | gl.INT => issue (gl.uniform1i location data) this
          | gl.FLOAT =>
              if (1 <? u_size uniform)%Z
              then issue (gl.uniform1fv location data) this
              else issue (gl.uniform1f location data) this
          | gl.FLOAT_MAT3 => issue (gl.uniformMatrix3fv location false data) this
          | gl.FLOAT_MAT4 => issue (gl.uniformMatrix4fv location false data) this
          | gl.FLOAT_VEC2 =>
              if (1 <? u_size uniform)%Z
              then issue (gl.uniform2fv location data) this
              else issue (gl.uniform2f location (JS.elem data 0) (JS.elem data 1)) this
          | gl.FLOAT_VEC3 =>
              if (1 <? u_size uniform)%Z
              then issue (gl.uniform3fv location data) this
              else issue (gl.uniform3f location (JS.elem data 0) (JS.elem data 1)
                            (JS.elem data 2)) this
          | gl.FLOAT_VEC4 =>
              if (1 <? u_size uniform)%Z
              then issue (gl.uniform4fv location data) this
              else issue (gl.uniform4f location (JS.elem data 0) (JS.elem data 1)
                            (JS.elem data 2) (JS.elem data 3)) this
          | gl.SAMPLER_2D =>
              let unit := default O (u_samplerIndex uniform) in
              let this := issue (gl.activeTexture unit) this in
              let this := issue (gl.bindTexture_2D data) this in
              issue (gl.uniform1i location (JS.Number (JS.count unit))) this
          | gl.OTHER _ => this
          end
      end
  | _ => this
  end.

(** [this.mHash[mId]] *)
Definition mHash_at (mId : string) (this : RendererGL) : Handle :=
  default undefined (mHash this !! mId).

Definition materialInHash (mId : string) (this : RendererGL) : bool :=
  negb (Handle_same (mHash_at mId this) undefined).

Definition _getShader (vertId fragId : string) (isImmediateMode : JS.Value)
    (this : RendererGL) : Handle * RendererGL :=
  let mId := vertId ++ "|" ++ fragId in
  let this :=
    if negb (materialInHash mId this) then
      let '(shaderProgram, this) := _initShaders vertId fragId isImmediateMode this in
      let this := set_mHash (<[mId := shaderProgram]> (mHash this)) this in
      set_newShader true this
    else this in
  let this := set_curShaderId (Some mId) this in
  (mHash_at mId this, this).

(** *** Colour *)

(** [colors[colors.length-1] < 1.0]; on an empty array the element is
    [undefined] and the comparison is false. *)
Definition alpha_below_one (colors : list float) : bool :=
  match last colors with
  | Some a => a <? 1
  | None => false
  end.

Definition _applyColorBlend (args : list JS.Value) (this : RendererGL)
    : list float * RendererGL :=
  let colors := _array (color args) in
  if alpha_below_one colors then
    let this := issue (gl.depthMask false) this in
    let this := issue (gl.enable gl.BLEND) this in
    let this := issue (gl.blendEquation gl.FUNC_ADD) this in
    let this := issue (gl.blendFunc gl.SRC_ALPHA gl.ONE_MINUS_SRC_ALPHA) this in
    (colors, this)
  else
    let this := issue (gl.depthMask true) this in
    let this := issue (gl.disable gl.BLEND) this in
    (colors, this).

(** A JavaScript array of numbers. *)
Definition numbers (l : list float) : JS.Value := JS.Array (map JS.Number l).

Definition fill (args : list JS.Value) (this : RendererGL) : RendererGL :=
  let '(colors, this) := _applyColorBlend args this in
  let this := set_curFillColor colors this in
  let this := set_drawMode mode_fill this in
  if isImmediateDrawing this then
    let '(shaderProgram, this) :=
      _getShader "immediateVert" "vertexColorFrag" JS.Undefined this in
    _useShader shaderProgram this
  else
    let '(shaderProgram, this) :=
      _getShader "normalVert" "basicFrag" JS.Undefined this in
    let this := _useShader shaderProgram this in
    _setUniform "uMaterialColor" (numbers colors) this.

(** *** Lights ([p5.prototype], acting on [this._renderer]) *)

Definition ambientLight (args : list JS.Value) (this : p5) : p5 :=
  let renderer := _renderer this in
  let '(shaderProgram, renderer) :=
    _getShader "lightVert" "lightTextureFrag" JS.Undefined renderer in
  let renderer := _useShader shaderProgram renderer in
  let color_ := color args in
  let colors := JS.Float32Array (take 3 (_array color_)) in
  let renderer := _setUniform "uAmbientColor[0]" colors renderer in
  let renderer := _setUniform "uMaterialColor" (numbers [1; 1; 1; 1]) renderer in
  let renderer := set_ambientLightCount (S (ambientLightCount renderer)) renderer in
  let renderer := _setUniform "uAmbientLightCount"
                    (JS.Number (JS.count (ambientLightCount renderer))) renderer in
  let renderer := _setUniform "uUseLighting" (JS.Boolean true) renderer in
  set_renderer renderer this.

(** The direction or position a light call ends with: the last three
    arguments when the last one is a number, the fields [x], [y], [z] of the
    last argument otherwise. The [catch] clause rethrows what it caught. *)
Definition trailing_xyz (args : list JS.Value)
    : JS.Error + (JS.Value * JS.Value * JS.Value) :=
  let n := Z.of_nat (length args) in
  let last_arg := JS.index args (n - 1) in
  if JS.is_number last_arg then
    inr (JS.index args (n - 3), JS.index args (n - 2), JS.index args (n - 1))
  else
    match JS.get last_arg "x" with
    | inl error => inl error
    | inr _x =>
        match JS.get last_arg "y" with
        | inl error => inl error
        | inr _y =>
            match JS.get last_arg "z" with
            | inl error => inl error
            | inr _z => inr (_x, _y, _z)
            end
        end
    end.

(** [args[args.length-1]] *)
Definition last_argument (args : list JS.Value) : JS.Value :=
  JS.index args (Z.of_nat (length args) - 1).

(** The two shapes of a direction or position the specification admits:
    three trailing numbers, or one last argument with fields [x], [y], [z]. *)
Definition three_trailing_numbers (args : list JS.Value) : bool :=
  let n := Z.of_nat (length args) in
  (3 <=? n)%Z && JS.is_number (JS.index args (n - 3))
  && JS.is_number (JS.index args (n - 2)) && JS.is_number (JS.index args (n - 1)).

Definition has_field (k : string) (v : JS.Value) : bool :=
  match v with
  | JS.Object props => existsb (fun p => String.eqb (fst p) k) props
  | _ => false
  end.

Definition exposes_xyz (v : JS.Value) : bool :=
  has_field "x" v && has_field "y" v && has_field "z" v.

Definition direction_given (args : list JS.Value) : bool :=
  three_trailing_numbers args || exposes_xyz (last_argument args).

(** The three light counters of a renderer. *)
Definition light_counts (this : RendererGL) : nat * nat * nat :=
  (ambientLightCount this, directionalLightCount this, pointLightCount this).

(** The declared parameters [v1, v2, v3] of a call. *)
Definition v1_v2_v3 (args : list JS.Value) : list JS.Value :=
  [JS.index args 0; JS.index args 1; JS.index args 2].

Definition directionalLight (args : list JS.Value) (this : p5)
    : JS.Completion p5 :=
  let renderer := _renderer this in
  let '(shaderProgram, renderer) :=
    _getShader "lightVert" "lightTextureFrag" JS.Undefined renderer in
  let renderer := _useShader shaderProgram renderer in
  let color_ := color (v1_v2_v3 args) in
  let colors := JS.Float32Array (take 3 (_array color_)) in
  let renderer := _setUniform "uDirectionalColor[0]" colors renderer in
  match trailing_xyz args with
  | inl error => JS.Throw error (set_renderer renderer this)
  | inr (_x, _y, _z) =>
      let renderer := _setUniform "uMaterialColor" (numbers [1; 1; 1; 1]) renderer in
      let renderer := _setUniform "uLightingDirection[0]" (JS.Array [_x; _y; _z]) renderer in
      let renderer :=
        set_directionalLightCount (S (directionalLightCount renderer)) renderer in
      let renderer := _setUniform "uDirectionalLightCount"
                        (JS.Number (JS.count (directionalLightCount renderer))) renderer in
      let renderer := _setUniform "uUseLighting" (JS.Boolean true) renderer in
      JS.Normal (set_renderer renderer this)
  end.

Definition pointLight (args : list JS.Value) (this : p5) : JS.Completion p5 :=
  let renderer := _renderer this in
  let '(shaderProgram, renderer) :=
    _getShader "lightVert" "lightTextureFrag" JS.Undefined renderer in
  let renderer := _useShader shaderProgram renderer in
  let color_ := color (v1_v2_v3 args) in
  let colors := JS.Float32Array (take 3 (_array color_)) in
  let renderer := _setUniform "uPointLightColor[0]" colors renderer in
  match trailing_xyz args with
  | inl error => JS.Throw error (set_renderer renderer this)
  | inr (_x, _y, _z) =>
      let renderer := _setUniform "uMaterialColor" (numbers [1; 1; 1; 1]) renderer in
      let renderer := _setUniform "uPointLightLocation[0]" (JS.Array [_x; _y; _z]) renderer in
      let renderer := set_pointLightCount (S (pointLightCount renderer)) renderer in
      let renderer := _setUniform "uPointLightCount"
                        (JS.Number (JS.count (pointLightCount renderer))) renderer in
      let renderer := _setUniform "uUseLighting" (JS.Boolean true) renderer in
      JS.Normal (set_renderer renderer this)
  end.

(** *** Camera ([p5.prototype]) *)

(** [Math.max(a, b)] *)
Definition Math_max (a b : float) : float :=
  if (PrimFloat.is_nan a || PrimFloat.is_nan b)%bool then PrimFloat.nan
  else if a <? b then b
  else if b <? a then a
  else if PrimFloat.is_zero a then a + b
  else a.

Definition perspective (fovy aspect near far : option float) (this : p5)
    (w : World) : p5 * World :=
  let fovy := JS.or_default fovy (60 / 180 * Math_PI) in
  let aspect := JS.or_default aspect (p5_width this / p5_height this) in
  let near := JS.or_default near ((p5_height this / 2.0) / Math_tan (fovy / 2.0) * 0.1) in
  let far := JS.or_default far ((p5_height this / 2.0) / Math_tan (fovy / 2.0) * 10) in
  let '(a, w) := alloc mat_identity w in
  let renderer := set_uPMatrix a (_renderer this) in
  let w := mutate (uPMatrix renderer)
             (fun m => mat_perspective m fovy aspect near far) w in
  (set_renderer (set_curCamera camera_custom renderer) this, w).

Definition ortho (left right bottom top near far : option float) (this : p5)
    (w : World) : p5 * World :=
  let left := JS.or_default left (- p5_width this / 2) in
  let right := JS.or_default right (p5_width this / 2) in
  let bottom := JS.or_default bottom (- p5_height this / 2) in
  let top := JS.or_default top (p5_height this / 2) in
  let near := JS.or_default near 0 in
  let far := JS.or_default far (Math_max (p5_width this) (p5_height this)) in
  let '(a, w) := alloc mat_identity w in
  let renderer := set_uPMatrix a (_renderer this) in
  let w := mutate (uPMatrix renderer)
             (fun m => mat_ortho m left right bottom top near far) w in
  (set_renderer (set_curCamera camera_custom renderer) this, w).

(** *** Construction *)

(** [_initContext], when the canvas gives a context. *)
Definition _initContext (w h : float) : gl.Ctx :=
  [gl.viewport 0 0 (w * _pixelDensity) (h * _pixelDensity);
   gl.depthFunc_LEQUAL;
   gl.enable gl.DEPTH_TEST].

(** [new p5.RendererGL(elt, pInst, isMainCanvas, attr)] on a canvas of the
    given size. *)
Definition RendererGL_new (w h : float) (world : World) : RendererGL * World :=
  let '(mv, world) := alloc mat_identity world in
  let '(p, world) := alloc mat_identity world in
  let '(n, world) := alloc mat3_identity world in
  ({| GL := _initContext w h;
      alerts := [];
      width := w;
      height := h;
      ambientLightCount := 0;
      directionalLightCount := 0;
      pointLightCount := 0;
      _curCamera := camera_null;
      uMVMatrix := mv;
      uPMatrix := p;
      uNMatrix := n;
      mHash := ∅;
      isImmediateDrawing := false;
      curFillColor := [0.5; 0.5; 0.5; 1.0];
      curStrokeColor := [0.5; 0.5; 0.5; 1.0];
      drawMode := mode_unset;
      curShader := null;
      curShaderId := None;
      newShader := false |},
   world).

(** The module as it is loaded: no matrix object, [uMVMatrixStack = []]. *)
Definition World_new : World := {| matrices := []; uMVMatrixStack := [] |}.

(** The default projection for a canvas of the given size, as
    [_setDefaultCamera] computes it. *)
Definition default_projection (w h : float) : Matrix :=
  mat_perspective mat_identity (60 / 180 * Math_PI) (w / h)
    ((h / 2) / Math_tan (Math_PI * 30 / 180) * 0.1)
    ((h / 2) / Math_tan (Math_PI * 30 / 180) * 10).

(** *** What a call leaves of the blending state *)

(** The two switches [_applyColorBlend] sets, read back from the context. *)
Definition blending (this : RendererGL) : bool * bool :=
  (gl.isEnabled gl.BLEND (GL this), gl.DEPTH_WRITEMASK (GL this)).

(** *** Sequences of calls *)

(** A transform call made on a renderer. *)
Inductive Transform : Type :=
| call_translate (x y z : float)
| call_scale (x y z : float)
| call_rotate (rad : float) (axis : float * float * float)
| call_rotateX (rad : float)
| call_rotateY (rad : float)
| call_rotateZ (rad : float).

Definition transform (t : Transform) (this : RendererGL) (w : World) : World :=
  match t with
  | call_translate x y z => translate x y z this w
  | call_scale x y z => scale x y z this w
  | call_rotate rad axis => rotate rad axis this w
  | call_rotateX rad => rotateX rad this w
  | call_rotateY rad => rotateY rad this w
  | call_rotateZ rad => rotateZ rad this w
  end.

(** The calls in order, all on the same renderer. *)
Definition transforms (ts : list Transform) (this : RendererGL) (w : World)
    : World :=
  fold_left (fun w t => transform t this w) ts w.

(** A call that reaches the shader cache or the current program. *)
Inductive ShaderCall : Type :=
| call_getShader (vertId fragId : string) (isImmediateMode : JS.Value)
| call_useShader (shaderProgram : Handle)
| call_setUniform (uniformName : string) (data : JS.Value)
| call_fill (args : list JS.Value)
| call_ambientLight (args : list JS.Value).

Definition shader_call (c : ShaderCall) (this : RendererGL) : RendererGL :=
  match c with
  | call_getShader vertId fragId isImmediateMode =>
      snd (_getShader vertId fragId isImmediateMode this)
  | call_useShader shaderProgram => _useShader shaderProgram this
  | call_setUniform uniformName data => _setUniform uniformName data this
  | call_fill args => fill args this
  | call_ambientLight args =>
      _renderer (ambientLight args
                   {| p5_width := width this; p5_height := height this;
                      _renderer := this |})
  end.

Definition shader_calls (cs : list ShaderCall) (this : RendererGL) : RendererGL :=
  fold_left (fun this c => shader_call c this) cs this.

(** Resizes one after the other. *)
Definition resizes (sizes : list (float * float)) (this : RendererGL)
    (world : World) : RendererGL * World :=
  fold_left (fun '(this, world) '(w, h) => resize w h this world) sizes (this, world).

(** A light call, and a sequence of them on one sketch; a call that throws
    ends the sequence. *)
Inductive LightCall : Type :=
| call_ambient (args : list JS.Value)
| call_directional (args : list JS.Value)
| call_point (args : list JS.Value).

Definition light_call (c : LightCall) (this : p5) : JS.Completion p5 :=
  match c with
  | call_ambient args => JS.Normal (ambientLight args this)
  | call_directional args => directionalLight args this
  | call_point args => pointLight args this
  end.

Fixpoint light_calls (cs : list LightCall) (this : p5) : JS.Completion p5 :=
  match cs with
  | [] => JS.Normal this
  | c :: cs =>
      match light_call c this with
      | JS.Normal this => light_calls cs this
      | JS.Throw e this => JS.Throw e this
      end
  end.

(** How many calls of each kind a sequence has. *)
Fixpoint tally (cs : list LightCall) : nat * nat * nat :=
  match cs with
  | [] => (0, 0, 0)%nat
  | c :: cs =>
      let '(a, d, p) := tally cs in
      match c with
      | call_ambient _ => (S a, d, p)
      | call_directional _ => (a, S d, p)
      | call_point _ => (a, d, S p)
      end
  end.

(** The renderer and the store fit: the matrix objects the renderer and
    the stack name exist. *)
Definition well_formed (this : RendererGL) (w : World) : Prop :=
  allocated (uMVMatrix this) w
  ∧ allocated (uPMatrix this) w
  ∧ Forall (fun a => allocated a w) (uMVMatrixStack w).

End Renderer.

(** ** Pixels: [p5.prototype.get] on the 2D canvas *)

Module Pixels.

Local Open Scope Z_scope.

(** The canvas behind [this.drawingContext]: its size in device pixels and
    the RGBA bytes of each of its pixels. *)
Record Canvas : Type := {
  canvas_width : Z;
  canvas_height : Z;
  pixel : Z -> Z -> Z * Z * Z * Z
}.

Record Sketch : Type := {
  width : Z;
  height : Z;
  pixelDensity : Z;
  canvas : Canvas
}.

(** One pixel as [getImageData] reports it: a pixel outside the canvas is
    transparent black (HTML Standard, "getImageData"). *)
Definition imageData_pixel (c : Canvas) (x y : Z) : list Z :=
  if (0 <=? x) && (x <? canvas_width c) && (0 <=? y) && (y <? canvas_height c)
  then let '(r, g, b, a) := pixel c x y in [r; g; b; a]
  else [0; 0; 0; 0].

(** [drawingContext.getImageData(sx, sy, sw, sh).data], row by row. *)
Definition getImageData (c : Canvas) (sx sy sw sh : Z) : list Z :=
  flat_map
    (fun row =>
       flat_map (fun col => imageData_pixel c (sx + Z.of_nat col) (sy + Z.of_nat row))
                (seq 0 (Z.to_nat sw)))
    (seq 0 (Z.to_nat sh)).

(** The copy loop [for (i = 0; i < data.length; i += 4) pixels.push(...)];
    [data] holds four bytes per pixel, so the loop sees whole groups. *)
Fixpoint copy_rgba (data : list Z) : list Z :=
  match data with
  | r :: g :: b :: a :: rest => r :: g :: b :: a :: copy_rgba rest
  | _ => []
  end.

(** What [get] returns: an array of bytes, or a [p5.Image] cut out of the
    canvas, named by its size and its source rectangle ([None] where the
    arithmetic ran on [undefined]). *)
Inductive Result : Type :=
| pixels (data : list Z)
| region (dw dh sx sy sw sh : option Z).

(** [a > b], [a < b] with a possibly [undefined] left side: a comparison
    with [undefined] is false. *)
Definition gt (a : option Z) (b : Z) : bool :=
  match a with Some v => b <? v | None => false end.
Definition lt (a : option Z) (b : Z) : bool :=
  match a with Some v => v <? b | None => false end.

Definition is_one (a : option Z) : bool :=
  match a with Some 1 => true | _ => false end.

Definition is_undefined (a : option Z) : bool :=
  match a with None => true | Some _ => false end.

(** The argument as [getImageData] converts it: [undefined] becomes [0]. *)
Definition to_long (a : option Z) : Z := default 0 a.

Definition get (x y w h : option Z) (this : Sketch) : Result :=
  let '(x, y, w, h) :=
    if is_undefined x && is_undefined y && is_undefined w && is_undefined h
    then (Some 0, Some 0, Some (width this), Some (height this))
    else if is_undefined w && is_undefined h
    then (x, y, Some 1, Some 1)
    else (x, y, w, h) in
  if gt x (width this) || gt y (height this) || lt x 0 || lt y 0 then
    pixels [0; 0; 0; 255]
  else if is_one w && is_one h then
    let data := getImageData (canvas this) (to_long x) (to_long y) (to_long w) (to_long h) in
    pixels (copy_rgba data)
  else
    let sx := (fun v => v * pixelDensity this) <$> x in
    let sy := (fun v => v * pixelDensity this) <$> y in
    let dw := (fun v => Z.min v (width this)) <$> w in
    let dh := (fun v => Z.min v (height this)) <$> h in
    let sw := (fun v => v * pixelDensity this) <$> dw in
    let sh := (fun v => v * pixelDensity this) <$> dh in
    region dw dh sx sy sw sh.

End Pixels.

(** ** A concrete platform

    One implementation of each interface, small enough to run the
    renderer on: it is used to evaluate calls on literal inputs. *)

Module Sample.

(** Matrices as the history of the operations applied to them: two
    matrices are equal here exactly when they were built the same way, so
    an equation that holds here is not an accident of arithmetic. *)
Inductive MatrixTerm : Type :=
| m_identity
| m3_identity
| m_translate (m : MatrixTerm) (v : float * float * float)
| m_scale (m : MatrixTerm) (v : float * float * float)
| m_rotate (m : MatrixTerm) (rad : float) (axis : float * float * float)
| m_perspective (m : MatrixTerm) (fovy aspect near far : float)
| m_ortho (m : MatrixTerm) (left right bottom top near far : float).

#[global] Instance matrix : p5_Matrix := {|
  Matrix := MatrixTerm;
  mat_identity := m_identity;
  mat3_identity := m3_identity;
  mat_translate := m_translate;
  mat_scale := m_scale;
  mat_rotate := m_rotate;
  mat_perspective := m_perspective;
  mat_ortho := m_ortho
|}.

Local Open Scope float_scope.

(** A component of a colour in the default mode (RGB, range 255). *)
Definition component (v : JS.Value) : float :=
  match v with
  | JS.Number n => n / 255
  | _ => PrimFloat.nan
  end.

(** Modelled from the spec: the colour resolver, which is not among the
    sources ("returns a canonical 4-float [0,1] tuple"), for numeric
    arguments in the default colour mode: a gray value, gray and alpha,
    three channels, or three channels and alpha. *)
Definition rgb_color (args : list JS.Value) : Color :=
  match args with
  | [g] => {| _array := [component g; component g; component g; 1] |}
  | [g; a] => {| _array := [component g; component g; component g; component a] |}
  | [r; g; b] => {| _array := [component r; component g; component b; 1] |}
  | [r; g; b; a] =>
      {| _array := [component r; component g; component b; component a] |}
  | _ => {| _array := [1; 1; 1; 1] |}
  end.

(** The ids the renderer asks for, each with a source text. *)
Definition shader_table (id : string) : option string :=
  if bool_decide (id ∈ ["normalVert"; "basicFrag"; "immediateVert";
                        "vertexColorFrag"; "lightVert"; "lightTextureFrag"])
  then Some ("// " ++ id)%string
  else None.

(** A polynomial that follows the tangent near zero. *)
Definition tan_series (x : float) : float :=
  x + x * x * x / 3 + 2 * x * x * x * x * x / 15.

#[global] Instance host : Host := {|
  color := rgb_color;
  shader := shader_table;
  _pixelDensity := 1;
  Math_tan := tan_series
|}.

Definition info (name : string) (size : Z) (t : gl.Type_) : gl.ActiveInfo :=
  {| gl.info_name := name; gl.info_size := size; gl.info_type := t |}.

(** The uniforms of a program, as an implementation reports them: an array
    of [n] elements under the name of its first element. *)
Definition light_uniforms (n : Z) : list gl.ActiveInfo :=
  [ info "uProjectionMatrix" 1 gl.FLOAT_MAT4;
    info "uModelViewMatrix" 1 gl.FLOAT_MAT4;
    info "uNormalMatrix" 1 gl.FLOAT_MAT3;
    info "uMaterialColor" 1 gl.FLOAT_VEC4;
    info "uUseLighting" 1 gl.BOOL;
    info "uAmbientLightCount" 1 gl.INT;
    info "uDirectionalLightCount" 1 gl.INT;
    info "uPointLightCount" 1 gl.INT;
    info "uAmbientColor[0]" n gl.FLOAT_VEC3;
    info "uLightingDirection[0]" n gl.FLOAT_VEC3;
    info "uDirectionalColor[0]" n gl.FLOAT_VEC3;
    info "uPointLightLocation[0]" n gl.FLOAT_VEC3;
    info "uPointLightColor[0]" n gl.FLOAT_VEC3;
    info "uSpecular" 1 gl.BOOL;
    info "isTexture" 1 gl.BOOL;
    info "uSampler" 1 gl.SAMPLER_2D ].

Definition light_attributes : list gl.ActiveInfo :=
  [ info "aPosition" 1 gl.FLOAT_VEC3;
    info "aNormal" 1 gl.FLOAT_VEC3;
    info "aTexCoord" 1 gl.FLOAT_VEC2 ].

Definition attribute_location (name : string) : Z :=
  if String.eqb name "aPosition" then 0
  else if String.eqb name "aNormal" then 1
  else if String.eqb name "aTexCoord" then 2
  else (-1).

(** An implementation on which every stage compiles and every program
    links; light arrays have [n] elements. *)
Definition working (n : Z) : Driver := {|
  COMPILE_STATUS := fun _ _ => true;
  getShaderInfoLog := fun _ _ => ""%string;
  LINK_STATUS := fun _ _ => true;
  ACTIVE_ATTRIBUTES := fun _ _ => light_attributes;
  ACTIVE_UNIFORMS := fun _ _ => light_uniforms n;
  getAttribLocation := fun _ _ => attribute_location
|}.

(** An implementation that rejects every vertex shader. *)
Definition vertex_rejected : Driver := {|
  COMPILE_STATUS := fun t _ => negb (gl.ShaderType_eqb t gl.VERTEX_SHADER);
  getShaderInfoLog := fun _ _ => "ERROR: 0:1: syntax error"%string;
  LINK_STATUS := fun _ _ => true;
  ACTIVE_ATTRIBUTES := fun _ _ => light_attributes;
  ACTIVE_UNIFORMS := fun _ _ => light_uniforms 8;
  getAttribLocation := fun _ _ => attribute_location
|}.

(** An implementation on which both stages compile and no program links;
    an unlinked program has no active attribute or uniform. *)
Definition link_rejected : Driver := {|
  COMPILE_STATUS := fun _ _ => true;
  getShaderInfoLog := fun _ _ => ""%string;
  LINK_STATUS := fun _ _ => false;
  ACTIVE_ATTRIBUTES := fun _ _ => [];
  ACTIVE_UNIFORMS := fun _ _ => [];
  getAttribLocation := fun _ _ _ => (-1)%Z
|}.

(** A renderer on a 100 by 100 canvas in a newly loaded module, and the
    sketch that owns it. *)
Definition renderer : RendererGL := fst (RendererGL_new 100 100 World_new).
Definition world : World := snd (RendererGL_new 100 100 World_new).
Definition sketch : p5 :=
  {| p5_width := 100; p5_height := 100; _renderer := renderer |}.

(** The sketch at the start of a render pass: [_update] has run. *)
Definition pass_start : p5 :=
  {| p5_width := 100; p5_height := 100;
     _renderer := fst (_update renderer world) |}.

Definition gray (v : float) : list JS.Value :=
  [JS.Number v; JS.Number v; JS.Number v].

(** Two ambient lights in one pass, on an implementation whose light
    arrays have [n] elements. *)
Definition two_ambient_lights (n : Z) : p5 :=
  ambientLight (DR := working n) (gray 100)
    (ambientLight (DR := working n) (gray 100) pass_start).

(** A 100 by 100 canvas at density 1 whose every pixel is opaque white. *)
Definition white_canvas : Pixels.Sketch :=
  {| Pixels.width := 100; Pixels.height := 100; Pixels.pixelDensity := 1;
     Pixels.canvas := {| Pixels.canvas_width := 100; Pixels.canvas_height := 100;
                         Pixels.pixel := fun _ _ => (255, 255, 255, 255)%Z |} |}.

End Sample.

(** * More of the renderer

    The remaining colour and draw-mode methods of [p5.RendererGL], and the
    call sequences the invariants below range over. *)

Definition set_curStrokeColor (v : list float) (this : RendererGL) : RendererGL :=
  {| GL := GL this; alerts := alerts this; width := width this;
     height := height this; ambientLightCount := ambientLightCount this;
     directionalLightCount := directionalLightCount this;
     pointLightCount := pointLightCount this; _curCamera := _curCamera this;
     uMVMatrix := uMVMatrix this; uPMatrix := uPMatrix this;
     uNMatrix := uNMatrix this; mHash := mHash this;
     isImmediateDrawing := isImmediateDrawing this;
     curFillColor := curFillColor this; curStrokeColor := v;
     drawMode := drawMode this; curShader := curShader this;
     curShaderId := curShaderId this; newShader := newShader this |}.

Definition set_isImmediateDrawing (v : bool) (this : RendererGL) : RendererGL :=
  {| GL := GL this; alerts := alerts this; width := width this;
     height := height this; ambientLightCount := ambientLightCount this;
     directionalLightCount := directionalLightCount this;
     pointLightCount := pointLightCount this; _curCamera := _curCamera this;
     uMVMatrix := uMVMatrix this; uPMatrix := uPMatrix this;
     uNMatrix := uNMatrix this; mHash := mHash this;
     isImmediateDrawing := v; curFillColor := curFillColor this;
     curStrokeColor := curStrokeColor this; drawMode := drawMode this;
     curShader := curShader this; curShaderId := curShaderId this;
     newShader := newShader this |}.

Section DrawModes.

Context `{HO : Host} `{DR : Driver}.

(** The key [this.mHash[this.curShaderId]] reads: a property name is a
    string, and [undefined] names the property ["undefined"]. *)
Definition curShaderId_key (this : RendererGL) : string :=
  default "undefined" (curShaderId this).

Definition _setNoFillStroke (this : RendererGL) : RendererGL :=
  let shaderProgram := mHash_at (curShaderId_key this) this in
  let this := _useShader shaderProgram this in
  _setUniform "uMaterialColor" (numbers (curStrokeColor this)) this.

(** [this.curStrokeColor] is an array from the constructor on, and an
    array is truthy: the test [if(this.curStrokeColor)] always passes. *)
Definition noFill (this : RendererGL) : RendererGL :=
  let '(shaderProgram, this) :=
    _getShader "normalVert" "basicFrag" JS.Undefined this in
  let this := _useShader shaderProgram this in
  let this := issue (gl.enable gl.BLEND) this in
  let this := issue (gl.blendFunc gl.SRC_ALPHA gl.ONE_MINUS_SRC_ALPHA) this in
  let this := set_drawMode mode_wireframe this in
  _setNoFillStroke this.

Definition is_wireframe (m : DrawMode) : bool :=
  match m with mode_wireframe => true | _ => false end.

Definition is_fill (m : DrawMode) : bool :=
  match m with mode_fill => true | _ => false end.

Definition stroke (args : list JS.Value) (this : RendererGL) : RendererGL :=
  let colorNormalized := _array (color args) in
  let this := set_curStrokeColor colorNormalized this in
  if is_wireframe (drawMode this) then _setNoFillStroke this else this.

Definition _getCurShaderId (this : RendererGL) : option string * RendererGL :=
  let this :=
    if negb (is_fill (drawMode this)) && bool_decide (curShaderId this = None)
    then snd (_getShader "normalVert" "normalFrag" JS.Undefined this)
    else if isImmediateDrawing this && is_fill (drawMode this)
    then snd (_getShader "immediateVert" "vertexColorFrag" (JS.Boolean true) this)
    else this in
  (curShaderId this, this).

(** The renderer inside a sketch of the same size, for the [p5] methods. *)
Definition as_sketch (this : RendererGL) : p5 :=
  {| p5_width := width this; p5_height := height this; _renderer := this |}.

(** What a completion leaves of its receiver, returned or thrown. *)
Definition receiver {S : Type} (c : JS.Completion S) : S :=
  match c with JS.Normal s => s | JS.Throw _ s => s end.

(** A call on the renderer that can reach its shaders, colours or draw
    mode. [call_immediate] stands for the immediate-mode shape code, which
    only assigns [isImmediateDrawing]. A call that throws leaves the
    renderer as it was when the exception left, and the sketch goes on. *)
Inductive ApiCall : Type :=
| api_getShader (vertId fragId : string) (isImmediateMode : JS.Value)
| api_getCurShaderId
| api_setUniform (uniformName : string) (data : JS.Value)
| api_fill (args : list JS.Value)
| api_noFill
| api_stroke (args : list JS.Value)
| api_ambientLight (args : list JS.Value)
| api_directionalLight (args : list JS.Value)
| api_pointLight (args : list JS.Value)
| api_immediate (on : bool).

Definition api_call (c : ApiCall) (this : RendererGL) : RendererGL :=
  match c with
  | api_getShader vertId fragId isImmediateMode =>
      snd (_getShader vertId fragId isImmediateMode this)
  | api_getCurShaderId => snd (_getCurShaderId this)
  | api_setUniform uniformName data => _setUniform uniformName data this
  | api_fill args => fill args this
  | api_noFill => noFill this
  | api_stroke args => stroke args this
  | api_ambientLight args => _renderer (ambientLight args (as_sketch this))
  | api_directionalLight args =>
      _renderer (receiver (directionalLight args (as_sketch this)))
  | api_pointLight args =>
      _renderer (receiver (pointLight args (as_sketch this)))
  | api_immediate on => set_isImmediateDrawing on this
  end.

Definition api_calls (cs : list ApiCall) (this : RendererGL) : RendererGL :=
  fold_left (fun this c => api_call c this) cs this.

(** What the cache invariant reads of a renderer. *)
Definition core_view (this : RendererGL)
    : gmap string Handle * nat * nat * option string :=
  (mHash this, gl.programs (GL this),
   gl.compilations gl.VERTEX_SHADER (GL this), curShaderId this).

(** The cache and the context fit: no entry is [undefined]; every cached
    program was created on this context; two keys never hold the same
    program; one vertex compilation was made per entry; the current key,
    once there is one, is in the cache. *)
Definition cache_core (this : RendererGL) : Prop :=
  (∀ k h, mHash this !! k = Some h → h ≠ undefined)
  ∧ (∀ k p, mHash this !! k = Some (program p) →
       program_id p < gl.programs (GL this))
  ∧ (∀ k1 k2 p1 p2,
       mHash this !! k1 = Some (program p1) →
       mHash this !! k2 = Some (program p2) →
       program_id p1 = program_id p2 → k1 = k2)
  ∧ gl.compilations gl.VERTEX_SHADER (GL this) = size (mHash this)
  ∧ (∀ id, curShaderId this = Some id → materialInHash id this = true).

(** With that, there is a current key as soon as a draw mode was chosen. *)
Definition cache_sound (this : RendererGL) : Prop :=
  cache_core this
  ∧ (drawMode this ≠ mode_unset → is_Some (curShaderId this)).

End DrawModes.

(** How many times the context was told to switch program. *)
Fixpoint program_switches (ctx : gl.Ctx) : nat :=
  match ctx with
  | [] => 0
  | gl.useProgram _ :: rest => S (program_switches rest)
  | _ :: rest => program_switches rest
  end.

(** What decides whether [_useShader] has to switch: the immediate-mode
    flag, the current program, and the switches made so far. *)
Definition bind_view (this : RendererGL) : bool * Handle * nat :=
  (isImmediateDrawing this, curShader this, program_switches (GL this)).

(** The id pair [fill] asks for. *)
Definition fill_pair (immediate : bool) : string * string :=
  if immediate then ("immediateVert", "vertexColorFrag")
  else ("normalVert", "basicFrag").

Section MatrixCalls.

Context `{ML : p5_Matrix} `{HO : Host}.

(** A call that reaches the matrix objects, on one sketch and its renderer.
    A [pop] that throws changes nothing, and the sketch goes on. *)
Inductive MatrixCall : Type :=
| m_push
| m_pop
| m_transform (t : Transform)
| m_update
| m_resetMatrix
| m_resize (w h : float)
| m_setDefaultCamera
| m_perspective (fovy aspect near far : option float)
| m_ortho (left right bottom top near far : option float).

Definition matrix_call (c : MatrixCall) (st : p5 * World) : p5 * World :=
  let '(this, w) := st in
  match c with
  | m_push => (this, push (_renderer this) w)
  | m_pop =>
      match pop (_renderer this) w with
      | JS.Normal (renderer, w) => (set_renderer renderer this, w)
      | JS.Throw _ _ => (this, w)
      end
  | m_transform t => (this, transform t (_renderer this) w)
  | m_update =>
      let '(renderer, w) := _update (_renderer this) w in
      (set_renderer renderer this, w)
  | m_resetMatrix =>
      let '(renderer, w) := resetMatrix (_renderer this) w in
      (set_renderer renderer this, w)
  | m_resize width height =>
      let '(renderer, w) := resize width height (_renderer this) w in
      (set_renderer renderer this, w)
  | m_setDefaultCamera =>
      let '(renderer, w) := _setDefaultCamera (_renderer this) w in
      (set_renderer renderer this, w)
  | m_perspective fovy aspect near far => perspective fovy aspect near far this w
  | m_ortho l r b t near far => ortho l r b t near far this w
  end.

Definition matrix_calls (cs : list MatrixCall) (st : p5 * World) : p5 * World :=
  fold_left (fun st c => matrix_call c st) cs st.

(** A sketch of the given size with a new renderer, in a newly loaded
    module. *)
Definition new_sketch (w h : float) : p5 * World :=
  ({| p5_width := w; p5_height := h;
      _renderer := fst (RendererGL_new w h World_new) |},
   snd (RendererGL_new w h World_new)).

(** No sharing: the objects exist, the saved matrices are distinct objects,
    and neither the model-view nor the projection object of the renderer is
    one of them or the other. *)
Definition store_sound (this : RendererGL) (w : World) : Prop :=
  well_formed this w
  ∧ (uMVMatrix this ∉ uMVMatrixStack w)
  ∧ (uPMatrix this ∉ uMVMatrixStack w)
  ∧ uMVMatrix this ≠ uPMatrix this
  ∧ NoDup (uMVMatrixStack w).

(** Drawing code with its scopes: a transform, or [push(); ...; pop()]
    around more such code. *)
Inductive Scoped : Type :=
| s_transform (t : Transform)
| s_scope (body : list Scoped).

Fixpoint run_scoped (s : Scoped) (this : RendererGL) (w : World)
    : JS.Completion (RendererGL * World) :=
  match s with
  | s_transform t => JS.Normal (this, transform t this w)
  | s_scope body =>
      let w := push this w in
      let run_body :=
        fix run_body (body : list Scoped) (this : RendererGL) (w : World)
            : JS.Completion (RendererGL * World) :=
          match body with
          | [] => JS.Normal (this, w)
          | s :: rest =>
              match run_scoped s this w with
              | JS.Normal (this, w) => run_body rest this w
              | JS.Throw e st => JS.Throw e st
              end
          end in
      match run_body body this w with
      | JS.Normal (this, w) => pop this w
      | JS.Throw e st => JS.Throw e st
      end
  end.

(** The statements of a block, one after the other. *)
Fixpoint run_block (body : list Scoped) (this : RendererGL) (w : World)
    : JS.Completion (RendererGL * World) :=
  match body with
  | [] => JS.Normal (this, w)
  | s :: rest =>
      match run_scoped s this w with
      | JS.Normal (this, w) => run_block rest this w
      | JS.Throw e st => JS.Throw e st
      end
  end.

(** What a piece of scoped code does to a sound store: it returns, the
    stack is as before, the projection object and every object that existed,
    other than the model-view object it started with, are untouched, and the
    model-view object at the end is the one at the start or a newer one. *)
Definition scoped_frame (this : RendererGL) (w : World)
    (c : JS.Completion (RendererGL * World)) : Prop :=
  ∃ this' w',
    c = JS.Normal (this', w')
    ∧ store_sound this' w'
    ∧ uMVMatrixStack w' = uMVMatrixStack w
    ∧ this' = set_uMVMatrix (uMVMatrix this') this
    ∧ (length (matrices w) ≤ length (matrices w'))%nat
    ∧ (uMVMatrix this' = uMVMatrix this
       ∨ (length (matrices w) ≤ uMVMatrix this')%nat)
    ∧ ∀ a, a ≠ uMVMatrix this → a < length (matrices w) →
        matrices w' !! a = matrices w !! a.

End MatrixCalls.

(** ** The uniform table of a program *)

(** One turn of the loop over the active uniforms in [_initShaders]: the
    table and the running [samplerIndex] before and after. *)
Definition uniform_step (prog : nat)
    : gmap string Uniform * nat → gl.ActiveInfo → gmap string Uniform * nat :=
  fun '(table, samplerIndex) uniformInfo =>
  let uniformName :=
    trim_array_suffix (gl.info_size uniformInfo) (gl.info_name uniformInfo) in
  let sampler := is_SAMPLER_2D (gl.info_type uniformInfo) in
  let uniform :=
    {| u_location := {| gl.loc_program := prog;
                        gl.loc_name := gl.info_name uniformInfo |};
       u_size := gl.info_size uniformInfo;
       u_name := uniformName;
       u_type := gl.info_type uniformInfo;
       u_samplerIndex := if sampler then Some samplerIndex else None |} in
  (<[uniformName := uniform]> table,
   if sampler then S samplerIndex else samplerIndex).

(** How many of the reported uniforms are samplers. *)
Definition samplers (infos : list gl.ActiveInfo) : nat :=
  length (List.filter (fun i => is_SAMPLER_2D (gl.info_type i)) infos).

(** What holds of the table at every turn of the loop, [next] being the
    running [samplerIndex]: an entry sits under its own name, which is the
    reported name trimmed; a sampler, and only a sampler, has an index, below
    [next]; and no index is held under two names. *)
Definition uniforms_sound (prog : nat) (table : gmap string Uniform)
    (next : nat) : Prop :=
  (∀ k u, table !! k = Some u →
     u_name u = k
     ∧ k = trim_array_suffix (u_size u) (gl.loc_name (u_location u))
     ∧ gl.loc_program (u_location u) = prog
     ∧ match u_samplerIndex u with
       | Some i => i < next ∧ u_type u = gl.SAMPLER_2D
       | None => u_type u ≠ gl.SAMPLER_2D
       end)
  ∧ (∀ k1 k2 u1 u2 i,
       table !! k1 = Some u1 → table !! k2 = Some u2 →
       u_samplerIndex u1 = Some i → u_samplerIndex u2 = Some i → k1 = k2).

(** The array forms of the uniform calls. *)
Definition is_array_write (c : gl.Call) : bool :=
  match c with
  | gl.uniform1fv _ _ | gl.uniform2fv _ _
  | gl.uniform3fv _ _ | gl.uniform4fv _ _ => true
  | _ => false
  end.

Definition array_writes (ctx : gl.Ctx) : nat :=
  length (List.filter is_array_write ctx).

(** ** Context attributes *)

Module Attributes.

(** What [if (v)] and [v || d] take for true: everything but [undefined],
    [null], [false], [0], [-0], [NaN] and the empty string. *)
Definition truthy (v : JS.Value) : bool :=
  match v with
  | JS.Undefined | JS.Null => false
  | JS.Boolean b => b
  | JS.Number n => negb (PrimFloat.eqb n 0 || PrimFloat.is_nan n)
  | JS.Str s => negb (String.eqb s "")
  | JS.Array _ | JS.Float32Array _ | JS.Object _ => true
  end.

(** [a || b] *)
Definition or (a b : JS.Value) : JS.Value := if truthy a then a else b.

(** [obj.k] or [obj[k]] for an attribute name [k], on a value that is not
    [undefined] or [null]: an object gives its property, anything else has
    no property of that name. *)
Definition field (obj : JS.Value) (k : string) : JS.Value :=
  match obj with
  | JS.Object props => JS.assoc k props
  | _ => JS.Undefined
  end.

(** [this.attributes]: an object with these six properties from the
    constructor on. *)
Record t : Type := {
  alpha : JS.Value;
  depth : JS.Value;
  stencil : JS.Value;
  antialias : JS.Value;
  premultipliedAlpha : JS.Value;
  preserveDrawingBuffer : JS.Value
}.

(** The attributes object as a value, as [_resetContext] passes it to the
    constructor. *)
Definition to_object (a : t) : JS.Value :=
  JS.Object [("alpha", alpha a); ("depth", depth a); ("stencil", stencil a);
             ("antialias", antialias a);
             ("premultipliedAlpha", premultipliedAlpha a);
             ("preserveDrawingBuffer", preserveDrawingBuffer a)].

(** The names of the six attributes, and [attributes[k]]. *)
Definition names : list string :=
  ["alpha"; "depth"; "stencil"; "antialias"; "premultipliedAlpha";
   "preserveDrawingBuffer"].

Definition read (a : t) (k : string) : JS.Value := field (to_object a) k.

(** The attributes [new p5.RendererGL(elt, pInst, isMainCanvas, attr)] sets
    on the renderer and hands to [getContext] in [_initContext]. *)
Definition RendererGL_new (attr : JS.Value) : t :=
  let attr := or attr (JS.Object []) in
  {| alpha := or (field attr "alpha") (JS.Boolean true);
     depth := or (field attr "depth") (JS.Boolean true);
     stencil := or (field attr "stencil") (JS.Boolean true);
     antialias := or (field attr "antialias") (JS.Boolean false);
     premultipliedAlpha := or (field attr "premultipliedAlpha") (JS.Boolean false);
     preserveDrawingBuffer :=
       or (field attr "preserveDrawingBuffer") (JS.Boolean false) |}.

(** The attributes of the renderer [_resetContext] puts in place of this
    one: it is constructed with [this.attributes] for [attr]. *)
Definition _resetContext (attributes : t) : t :=
  RendererGL_new (to_object attributes).

(** [arguments[0] === k ? arguments[1] : d] *)
Definition named (key : JS.Value) (k : string) (value d : JS.Value) : JS.Value :=
  match key with
  | JS.Str s => if String.eqb s k then value else d
  | _ => d
  end.

(** [if (attributes.hasOwnProperty(key)) attributes[key] = v] *)
Definition assign (key : string) (v : JS.Value) (a : t) : t :=
  if String.eqb key "alpha" then
    {| alpha := v; depth := depth a; stencil := stencil a;
       antialias := antialias a; premultipliedAlpha := premultipliedAlpha a;
       preserveDrawingBuffer := preserveDrawingBuffer a |}
  else if String.eqb key "depth" then
    {| alpha := alpha a; depth := v; stencil := stencil a;
       antialias := antialias a; premultipliedAlpha := premultipliedAlpha a;
       preserveDrawingBuffer := preserveDrawingBuffer a |}
  else if String.eqb key "stencil" then
    {| alpha := alpha a; depth := depth a; stencil := v;
       antialias := antialias a; premultipliedAlpha := premultipliedAlpha a;
       preserveDrawingBuffer := preserveDrawingBuffer a |}
  else if String.eqb key "antialias" then
    {| alpha := alpha a; depth := depth a; stencil := stencil a;
       antialias := v; premultipliedAlpha := premultipliedAlpha a;
       preserveDrawingBuffer := preserveDrawingBuffer a |}
  else if String.eqb key "premultipliedAlpha" then
    {| alpha := alpha a; depth := depth a; stencil := stencil a;
       antialias := antialias a; premultipliedAlpha := v;
       preserveDrawingBuffer := preserveDrawingBuffer a |}
  else if String.eqb key "preserveDrawingBuffer" then
    {| alpha := alpha a; depth := depth a; stencil := stencil a;
       antialias := antialias a; premultipliedAlpha := premultipliedAlpha a;
       preserveDrawingBuffer := v |}
  else a.

(** The keys [for (var key in obj)] visits that can be attribute names:
    the properties of an object. The keys of an array or a string are
    indices, which [attributes] does not have, and other values have
    none. *)
Definition keys (obj : JS.Value) : list string :=
  match obj with
  | JS.Object props => props.*1
  | _ => []
  end.

(** [setAttributes] on a sketch whose renderer is a [p5.RendererGL]
    ([isP3D] is set by its constructor): the attributes of the renderer in
    place after the call. With no argument or more than two the call
    returns before [_resetContext]. *)
Definition setAttributes (arguments : list JS.Value) (attributes : t) : t :=
  match arguments with
  | [key; value] =>
      _resetContext
        {| alpha := named key "alpha" value (JS.Boolean true);
           depth := named key "depth" value (JS.Boolean true);
           stencil := named key "stencil" value (JS.Boolean true);
           antialias := named key "antialias" value (JS.Boolean false);
           premultipliedAlpha :=
             named key "premultipliedAlpha" value (JS.Boolean false);
           preserveDrawingBuffer :=
             named key "preserveDrawingBuffer" value (JS.Boolean false) |}
  | [obj] =>
      _resetContext
        (fold_left (fun a key => assign key (field obj key) a) (keys obj)
           attributes)
  | _ => attributes
  end.

(** The attributes after a sequence of [setAttributes] calls on a sketch
    created with [attr]. *)
Definition configured (attr : JS.Value) (calls : list (list JS.Value)) : t :=
  fold_left (fun a arguments => setAttributes arguments a) calls
    (RendererGL_new attr).

End Attributes.

(** ** The pixel array *)

Module PixelArray.

Local Open Scope Z_scope.

(** The sketch with its [imageData]: [None] until [loadPixels] has run.
    [this.pixels] is then [this.imageData.data], the same array. *)
Record Sketch : Type := {
  base : Pixels.Sketch;
  imageData : option (list Z)
}.

Definition loadPixels (this : Sketch) : Sketch :=
  let width := Pixels.width (base this) * Pixels.pixelDensity (base this) in
  let height := Pixels.height (base this) * Pixels.pixelDensity (base this) in
  {| base := base this;
     imageData :=
       Some (Pixels.getImageData (Pixels.canvas (base this)) 0 0 width height) |}.

(** The conversion a [Uint8ClampedArray] applies to an integer it is
    given. *)
Definition clamp (v : Z) : Z := Z.max 0 (Z.min 255 v).

(** [pixels[i] = v] on a [Uint8ClampedArray]: an index outside the array
    is ignored, the array never grows. *)
Definition store (i v : Z) (pixels : list Z) : list Z :=
  if (0 <=? i) && (i <? Z.of_nat (length pixels))
  then <[Z.to_nat i := clamp v]> pixels
  else pixels.

(** The four assignments of the loop body. *)
Definition write (idx : Z) (rgba : Z * Z * Z * Z) (pixels : list Z) : list Z :=
  let '(r, g, b, a) := rgba in
  let pixels := store idx r pixels in
  let pixels := store (idx + 1) g pixels in
  let pixels := store (idx + 2) b pixels in
  store (idx + 3) a pixels.

(** The third argument of [set] when it is not a [p5.Image]: a number, an
    array, a [p5.Color] with its [rgba] array, or anything else. Components
    are integers; a missing element of [rgba] is [undefined], which the
    array stores as [0]. *)
Inductive Colour : Type :=
| number (v : Z)
| array (elts : list Z)
| color (rgba : list Z)
| other.

(** The chain of tests on [imgOrCol] that fills [r], [g], [b], [a], which
    start at [0]; [in_range] is [idx < this.pixels.length]. *)
Definition components (imgOrCol : Colour) (in_range : bool)
    : JS.Error + Z * Z * Z * Z :=
  match imgOrCol with
  | number v => inr (if in_range then (v, v, v, 255) else (0, 0, 0, 0))
  | array elts =>
      if Z.of_nat (length elts) <? 4
      then inl (JS.GenericError "pixel array must be of the form [R, G, B, A]")
      else inr (if in_range
                then (nth 0 elts 0, nth 1 elts 0, nth 2 elts 0, nth 3 elts 0)
                else (0, 0, 0, 0))
  | color rgba =>
      inr (if in_range
           then (nth 0 rgba 0, nth 1 rgba 0, nth 2 rgba 0, nth 3 rgba 0)
           else (0, 0, 0, 0))
  | other => inr (0, 0, 0, 0)
  end.

(** [for (var i = 0; i < n; i++)]: the values [i] takes. *)
Definition upto (n : Z) : list Z := Z.of_nat <$> seq 0 (Z.to_nat n).

(** [set(x, y, imgOrCol)] for an [imgOrCol] that is not a [p5.Image], at
    integer coordinates. *)
Definition set (x y : Z) (imgOrCol : Colour) (this : Sketch)
    : JS.Completion Sketch :=
  let pixelDensity := Pixels.pixelDensity (base this) in
  let width := Pixels.width (base this) in
  let idx := 4 * ((y * pixelDensity) * (width * pixelDensity) + (x * pixelDensity)) in
  let this :=
    match imageData this with
    | None => loadPixels this
    | Some _ => this
    end in
  let pixels := default [] (imageData this) in
  match components imgOrCol (idx <? Z.of_nat (length pixels)) with
  | inl error => JS.Throw error this
  | inr rgba =>
      let pixels :=
        fold_left
          (fun pixels i =>
             fold_left
               (fun pixels j =>
                  let idx := 4 * ((y * pixelDensity + j) * width * pixelDensity
                                  + (x * pixelDensity + i)) in
                  write idx rgba pixels)
               (upto pixelDensity) pixels)
          (upto pixelDensity) pixels in
      JS.Normal {| base := base this; imageData := Some pixels |}
  end.

(** The array [set] works on: the loaded one, or the one [loadPixels]
    gives. *)
Definition pixels (this : Sketch) : list Z :=
  match imageData this with
  | Some data => data
  | None => default [] (imageData (loadPixels this))
  end.

(** The device pixel [(X, Y)] lies in the block of the sketch pixel
    [(x, y)]. *)
Definition in_block (pixelDensity x y X Y : Z) : bool :=
  (x * pixelDensity <=? X) && (X <? x * pixelDensity + pixelDensity)
  && (y * pixelDensity <=? Y) && (Y <? y * pixelDensity + pixelDensity).

(** The bytes as the array holds them. *)
Definition bytes (rgba : Z * Z * Z * Z) : list Z :=
  let '(r, g, b, a) := rgba in [clamp r; clamp g; clamp b; clamp a].

End PixelArray.

(** A sketch of 4 by 3 pixels at pixel density 2, on a canvas of 8 by 6
    whose pixel [(X, Y)] is [(X, Y, 0, 255)], with no pixels loaded; and a
    sketch on the white canvas. *)
Module SamplePixels.

Definition retina : PixelArray.Sketch :=
  {| PixelArray.base :=
       {| Pixels.width := 4; Pixels.height := 3; Pixels.pixelDensity := 2;
          Pixels.canvas :=
            {| Pixels.canvas_width := 8; Pixels.canvas_height := 6;
               Pixels.pixel := fun X Y => (X, Y, 0, 255)%Z |} |};
     PixelArray.imageData := None |}.

Definition white : PixelArray.Sketch :=
  {| PixelArray.base := Sample.white_canvas; PixelArray.imageData := None |}.

End SamplePixels.

(** What the rasteriser is told: the depth test, blending, and the depth
    write mask. *)
Definition raster (this : RendererGL) : bool * bool * bool :=
  (gl.isEnabled gl.DEPTH_TEST (GL this), gl.isEnabled gl.BLEND (GL this),
   gl.DEPTH_WRITEMASK (GL this)).

(** ** Copying and blending on the 2D canvas *)

Module Compositing.

(** An argument of [copy] or [blend]: a number, a [p5.Image] (of which the
    code reads [canvas.width] and [width]), a string such as a blend mode, or
    [undefined]. *)
Inductive Arg : Type :=
| number (n : float)
| image (canvas_width width : float)
| str (s : string)
| undefined.

(** The source of a [drawImage]: the canvas of the sketch or of an
    image. *)
Inductive Source : Type :=
| own_canvas
| image_canvas (canvas_width width : float).

(** One [drawImage(canvas, sx, sy, sw, sh, dx, dy, dw, dh)], with the
    composite operation in force when it was issued. *)
Record DrawImage : Type := {
  source : Source;
  sx : float; sy : float; sw : float; sh : float;
  dx : Arg; dy : Arg; dw : Arg; dh : Arg;
  operation : string
}.

(** The sketch and its 2D context: the sizes [copy] reads, the
    [globalCompositeOperation] of the context, and the images drawn so far,
    newest first. *)
Record Sketch : Type := {
  width : float;
  canvas_width : float;
  globalCompositeOperation : string;
  drawn : list DrawImage
}.

Section Canvas.

(** The host: the number a string converts to, and the composite
    operations its canvas knows. *)
Context (ToNumber : string → float) (supported : string → bool).

(** The operand of [s * sx]. *)
Definition to_number (a : Arg) : float :=
  match a with
  | number n => n
  | str s => ToNumber s
  | image _ _ | undefined => PrimFloat.nan
  end.

(** [this.drawingContext.drawImage(srcImage.canvas, s*sx, s*sy, s*sw, s*sh,
    dx, dy, dw, dh)] with [s = srcImage.canvas.width / srcImage.width]. *)
Definition drawImage (src : Source) (s : float) (sx sy sw sh dx dy dw dh : Arg)
    (this : Sketch) : Sketch :=
  {| width := width this;
     canvas_width := canvas_width this;
     globalCompositeOperation := globalCompositeOperation this;
     drawn :=
       {| source := src;
          sx := (s * to_number sx)%float; sy := (s * to_number sy)%float;
          sw := (s * to_number sw)%float; sh := (s * to_number sh)%float;
          dx := dx; dy := dy; dw := dw; dh := dh;
          operation := globalCompositeOperation this |} :: drawn this |}.

Definition copy (arguments : list Arg) (this : Sketch) : JS.Completion Sketch :=
  match arguments with
  | [srcImage; sx; sy; sw; sh; dx; dy; dw; dh] =>
      match srcImage with
      | image canvas_width width =>
          let s := (canvas_width / width)%float in
          JS.Normal (drawImage (image_canvas canvas_width width) s
                       sx sy sw sh dx dy dw dh this)
      | undefined =>
          JS.Throw (JS.TypeError "Cannot read property 'canvas' of undefined") this
      | number _ | str _ =>
          JS.Throw (JS.TypeError "Cannot read property 'width' of undefined") this
      end
  | [sx; sy; sw; sh; dx; dy; dw; dh] =>
      let s := (canvas_width this / width this)%float in
      JS.Normal (drawImage own_canvas s sx sy sw sh dx dy dw dh this)
  | _ => JS.Throw (JS.GenericError "Signature not supported") this
  end.

(** [drawingContext.globalCompositeOperation = v]: a value that is not a
    composite operation the canvas knows is ignored (HTML Standard,
    "globalCompositeOperation"). *)
Definition set_globalCompositeOperation (v : Arg) (this : Sketch) : Sketch :=
  match v with
  | str op =>
      if supported op then
        {| width := width this; canvas_width := canvas_width this;
           globalCompositeOperation := op; drawn := drawn this |}
      else this
  | _ => this
  end.

(** [arguments[arguments.length - 1]] and
    [Array.prototype.slice.call(arguments, 0, arguments.length - 1)] *)
Definition last_argument (arguments : list Arg) : Arg :=
  default undefined (last arguments).

Definition all_but_last (arguments : list Arg) : list Arg :=
  take (length arguments - 1) arguments.

Definition blend (arguments : list Arg) (this : Sketch) : JS.Completion Sketch :=
  let currBlend := globalCompositeOperation this in
  let blendMode := last_argument arguments in
  let copyArgs := all_but_last arguments in
  let this := set_globalCompositeOperation blendMode this in
  match copy copyArgs this with
  | JS.Normal this => JS.Normal (set_globalCompositeOperation (str currBlend) this)
  | JS.Throw error this => JS.Throw error this
  end.

End Canvas.

End Compositing.

(** ** Material colours ([material.js]) *)

(** Modelled from the spec: [p5.Shader] and the renderer methods [setShader]
    and [_getLightShader] are not among the sources ("material functions
    (normal, textured, ambient, specular) select/configure the active shader
    and push color/blend state"). A shader takes [isLightShader()] and
    [setUniform(name, value)]; whether the program object the renderer holds
    in [curShader] answers them is for that code to say. *)
Class p5_Shader : Type := {
  (** [shader.isLightShader()] on a program object: its answer, or the
      error of calling a method the object does not have. *)
  isLightShader : ShaderProgram → JS.Error + bool;
  (** [this._renderer.setShader(this._renderer._getLightShader())]: the
      shader it returns and the renderer after it. *)
  setShader_light : RendererGL → ShaderProgram * RendererGL;
  (** [shader.setUniform(name, value)], acting on the renderer that holds
      the shader. *)
  Shader_setUniform : ShaderProgram → string → JS.Value → RendererGL → RendererGL
}.

Section Materials.

Context `{HO : Host} `{SH : p5_Shader}.

(** [shader.isLightShader()] on [shader = this._renderer.curShader]: with
    no shader object there, reading the method throws a TypeError. *)
Definition ambientMaterial (args : list JS.Value) (this : p5) : JS.Completion p5 :=
  match curShader (_renderer this) with
  | undefined =>
      JS.Throw (JS.TypeError "Cannot read property 'isLightShader' of undefined")
        this
  | null =>
      JS.Throw (JS.TypeError "Cannot read property 'isLightShader' of null") this
  | program shader =>
      match isLightShader shader with
      | inl error => JS.Throw error this
      | inr light =>
          let '(shader, renderer) :=
            if negb light then setShader_light (_renderer this)
            else (shader, _renderer this) in
          let '(colors, renderer) := _applyColorBlend args renderer in
          let renderer := Shader_setUniform shader "uMaterialColor"
                            (numbers colors) renderer in
          let renderer := Shader_setUniform shader "uSpecular" (JS.Boolean false)
                            renderer in
          let renderer := Shader_setUniform shader "isTexture" (JS.Boolean false)
                            renderer in
          JS.Normal (set_renderer renderer this)
      end
  end.

Definition specularMaterial (args : list JS.Value) (this : p5) : JS.Completion p5 :=
  match curShader (_renderer this) with
  | undefined =>
      JS.Throw (JS.TypeError "Cannot read property 'isLightShader' of undefined")
        this
  | null =>
      JS.Throw (JS.TypeError "Cannot read property 'isLightShader' of null") this
  | program shader =>
      match isLightShader shader with
      | inl error => JS.Throw error this
      | inr light =>
          let '(shader, renderer) :=
            if negb light then setShader_light (_renderer this)
            else (shader, _renderer this) in
          let '(colors, renderer) := _applyColorBlend args renderer in
          let renderer := Shader_setUniform shader "uMaterialColor"
                            (numbers colors) renderer in
          let renderer := Shader_setUniform shader "uSpecular" (JS.Boolean true)
                            renderer in
          let renderer := Shader_setUniform shader "isTexture" (JS.Boolean false)
                            renderer in
          JS.Normal (set_renderer renderer this)
      end
  end.

End Materials.

(** A shader object for the sample platform: every program is a light
    shader, and [setUniform] writes through the renderer's [_setUniform]. *)
Module SampleShader.

#[global] Instance light_shader : p5_Shader := {|
  isLightShader := fun _ => inr true;
  setShader_light := fun renderer =>
    ({| program_id := 0; attributes := ∅; uniforms := ∅ |}, renderer);
  Shader_setUniform := fun _ name value renderer => _setUniform name value renderer
|}.

(** The sketch after [_update(); ambientLight(100, 100, 100)] on an
    implementation whose light arrays have eight elements: the light shader
    is current. *)
Definition lit : p5 :=
  ambientLight (DR := Sample.working 8) (Sample.gray 100) Sample.pass_start.

End SampleShader.

(** * Properties *)

(** ** The matrix stack *)

Section MatrixStack.

Context `{ML : p5_Matrix}.

Implicit Types (this : RendererGL) (w : World) (a b : nat).

Lemma lookup_mutate_ne a b f w :
  a ≠ b → matrices (mutate a f w) !! b = matrices w !! b.
Proof. intros Hne. unfold mutate; simpl. by apply list_lookup_alter_ne. Qed.

Lemma length_mutate a f w :
  length (matrices (mutate a f w)) = length (matrices w).
Proof. unfold mutate; simpl. apply length_alter. Qed.

Lemma stack_mutate a f w :
  uMVMatrixStack (mutate a f w) = uMVMatrixStack w.
Proof. reflexivity. Qed.

(** A transform changes the model-view matrix object of its receiver in
    place and nothing else. *)
Lemma transform_mutates t this w :
  ∃ f, transform t this w = mutate (uMVMatrix this) f w.
Proof. destruct t; simpl; eexists; reflexivity. Qed.

Lemma transforms_frame ts this w :
  uMVMatrixStack (transforms ts this w) = uMVMatrixStack w
  ∧ length (matrices (transforms ts this w)) = length (matrices w)
  ∧ ∀ b, b ≠ uMVMatrix this →
      matrices (transforms ts this w) !! b = matrices w !! b.
Proof.
  revert w. induction ts as [|t ts IH]; intros w; simpl.
  - done.
  - destruct (transform_mutates t this w) as [f ->].
    destruct (IH (mutate (uMVMatrix this) f w)) as (Hs & Hl & Hm).
    rewrite Hs, Hl, length_mutate. repeat split; try done.
    intros b Hb. rewrite Hm by done. by apply lookup_mutate_ne.
Qed.

(** [push] adds one object, the copy, and leaves every other object as it
    was. *)
Lemma push_world this w :
  push this w =
    {| matrices := matrices w ++ [deref (uMVMatrix this) w];
       uMVMatrixStack := length (matrices w) :: uMVMatrixStack w |}.
Proof. reflexivity. Qed.

Lemma deref_copy a w m :
  deref (length (matrices w)) (set_matrices (matrices w ++ [m]) w) = m.
Proof.
  unfold deref; simpl. by rewrite list_lookup_middle.
Qed.

(** C1. A [push], any sequence of transform calls and a [pop], all on one
    renderer whose model-view matrix object exists: the [pop] returns, the
    model-view matrix it installs equals the one before the [push], the
    stack is what it was, and every other matrix object holds what it held.
    [push] by itself adds one object to the store and one entry to the
    stack and assigns no field of the renderer; [pop] by itself assigns the
    field [uMVMatrix] and no other (projection matrix, material and light
    fields stay) and changes no matrix object. *)
Theorem push_transforms_pop_restores this w (ts : list Transform) :
  allocated (uMVMatrix this) w →
  (∃ this' w',
     pop this (transforms ts this (push this w)) = JS.Normal (this', w')
     ∧ deref (uMVMatrix this') w' = deref (uMVMatrix this) w
     ∧ this' = set_uMVMatrix (uMVMatrix this') this
     ∧ uMVMatrixStack w' = uMVMatrixStack w
     ∧ ∀ b, b ≠ uMVMatrix this → b < length (matrices w) →
         matrices w' !! b = matrices w !! b)
  ∧ (∀ b, b < length (matrices w) →
       matrices (push this w) !! b = matrices w !! b)
  ∧ (∀ w0 this' w', pop this w0 = JS.Normal (this', w') →
       this' = set_uMVMatrix (uMVMatrix this') this
       ∧ uPMatrix this' = uPMatrix this
       ∧ curFillColor this' = curFillColor this
       ∧ curShader this' = curShader this
       ∧ ambientLightCount this' = ambientLightCount this
       ∧ directionalLightCount this' = directionalLightCount this
       ∧ pointLightCount this' = pointLightCount this
       ∧ GL this' = GL this
       ∧ matrices w' = matrices w0).
Proof.
  intros Halloc.
  apply lookup_lt_is_Some in Halloc.
  destruct (transforms_frame ts this (push this w)) as (Hs & Hl & Hm).
  split; [|split].
  - unfold pop. rewrite Hs, push_world; simpl.
    eexists _, _. split; [reflexivity|]. simpl.
    repeat split.
    + unfold deref at 1; simpl. rewrite Hm by lia.
      rewrite push_world; simpl. by rewrite list_lookup_middle.
    + intros b Hb Hlt. rewrite Hm by done.
      rewrite push_world; simpl. by apply lookup_app_l.
  - intros b Hlt. rewrite push_world; simpl. by apply lookup_app_l.
  - intros w0 this' w' Hpop. unfold pop in Hpop.
    destruct (uMVMatrixStack w0); simplify_eq. by repeat split.
Qed.

(** C3. [pop] with an empty stack throws, whatever the renderer; the
    exception is the [Error('Invalid popMatrix!')] of the source, and
    neither the renderer (its model-view matrix included) nor the store is
    changed. *)
Theorem pop_empty_throws this w :
  uMVMatrixStack w = [] →
  pop this w = JS.Throw (JS.GenericError "Invalid popMatrix!") (this, w)
  ∧ JS.throws (pop this w) = true.
Proof. intros Hempty. unfold pop. by rewrite Hempty. Qed.

(** [pop] throws only then. *)
Lemma pop_throws_iff this w :
  JS.throws (pop this w) = true ↔ uMVMatrixStack w = [].
Proof. unfold pop. destruct (uMVMatrixStack w); simpl; split; done. Qed.

(** C9. The stack belongs to the module, not to a renderer: after [A.push()]
    the call [B.pop()] returns for any two renderers [A] and [B], also when
    the stack was empty before. The model-view matrix of [B] is afterwards
    the object [A.push()] created: the field [uMVMatrix] of [B] names it, it
    holds [A]'s model-view matrix, it is a copy and not [A]'s own object
    (a transform on [A] afterwards does not reach it), and no other field of
    [B] has changed. The stack is as it was before the [push]. *)
Theorem push_on_A_pop_on_B (A B : RendererGL) w :
  ∃ B' w',
    pop B (push A w) = JS.Normal (B', w')
    ∧ B' = set_uMVMatrix (length (matrices w)) B
    ∧ uMVMatrix B' = length (matrices w)
    ∧ deref (uMVMatrix B') w' = deref (uMVMatrix A) w
    ∧ (allocated (uMVMatrix A) w →
       uMVMatrix B' ≠ uMVMatrix A
       ∧ ∀ t, deref (uMVMatrix B') (transform t A w') = deref (uMVMatrix A) w)
    ∧ (uPMatrix B', uNMatrix B', GL B', mHash B', curShader B', light_counts B')
      = (uPMatrix B, uNMatrix B, GL B, mHash B, curShader B, light_counts B)
    ∧ matrices w' = (matrices w ++ [deref (uMVMatrix A) w])%list
    ∧ deref (length (matrices w)) w' = deref (uMVMatrix A) w
    ∧ uMVMatrixStack w' = uMVMatrixStack w
    ∧ uMVMatrixStack (push A w) = length (matrices w) :: uMVMatrixStack w.
Proof.
  eexists _, _. rewrite push_world. unfold pop; cbn [uMVMatrixStack].
  split; [reflexivity|].
  assert (Hcopy : deref (length (matrices w))
                    (set_uMVMatrixStack (uMVMatrixStack w)
                       {| matrices := matrices w ++ [deref (uMVMatrix A) w];
                          uMVMatrixStack := length (matrices w) :: uMVMatrixStack w |})
                  = deref (uMVMatrix A) w).
  { unfold deref; simpl. by rewrite list_lookup_middle. }
  split_and!; try reflexivity; try exact Hcopy.
  intros Halloc. apply lookup_lt_is_Some in Halloc.
  assert (Hne : length (matrices w) ≠ uMVMatrix A) by lia.
  split; [exact Hne|]. intros t.
  destruct (transform_mutates t A
              (set_uMVMatrixStack (uMVMatrixStack w)
                 {| matrices := matrices w ++ [deref (uMVMatrix A) w];
                    uMVMatrixStack := length (matrices w) :: uMVMatrixStack w |}))
    as [f Hf].
  cbn [uMVMatrix set_uMVMatrix]. rewrite Hf. unfold deref in *.
  rewrite lookup_mutate_ne by done. exact Hcopy.
Qed.

(** A new renderer fits the store it was built in, and the stack methods
    and the transforms keep the fit. *)
Lemma allocated_mono a w w' :
  (length (matrices w) ≤ length (matrices w'))%nat → allocated a w → allocated a w'.
Proof.
  unfold allocated. rewrite !lookup_lt_is_Some. lia.
Qed.

Lemma RendererGL_new_well_formed `{HO : Host} width height :
  well_formed (fst (RendererGL_new width height World_new))
              (snd (RendererGL_new width height World_new)).
Proof.
  unfold well_formed, allocated. cbn. repeat split; eauto.
Qed.

Lemma push_well_formed this w :
  well_formed this w → well_formed this (push this w).
Proof.
  intros (Hmv & Hp & Hst). rewrite push_world.
  assert (Hlen : (length (matrices w) ≤
                  length (matrices w ++ [deref (uMVMatrix this) w]))%nat).
  { rewrite length_app. lia. }
  repeat split.
  - by eapply allocated_mono.
  - by eapply allocated_mono.
  - cbn. constructor.
    + unfold allocated; cbn. rewrite list_lookup_middle by done. eauto.
    + eapply Forall_impl; [exact Hst|]. intros a Ha. by eapply allocated_mono.
Qed.

Lemma pop_well_formed this w this' w' :
  well_formed this w → pop this w = JS.Normal (this', w') → well_formed this' w'.
Proof.
  intros (Hmv & Hp & Hst) Hpop. unfold pop in Hpop.
  destruct (uMVMatrixStack w) as [|top rest] eqn:Hs; simplify_eq.
  inversion Hst; subst. by repeat split.
Qed.

Lemma transforms_well_formed ts this w :
  well_formed this w → well_formed this (transforms ts this w).
Proof.
  intros (Hmv & Hp & Hst).
  destruct (transforms_frame ts this w) as (Hs & Hl & _).
  repeat split.
  - eapply allocated_mono; [|exact Hmv]. lia.
  - eapply allocated_mono; [|exact Hp]. lia.
  - rewrite Hs. eapply Forall_impl; [exact Hst|].
    intros a Ha. eapply allocated_mono; [|exact Ha]. lia.
Qed.

End MatrixStack.

(** ** Camera and resize *)

Section Camera.

Context `{ML : p5_Matrix} `{HO : Host}.

Local Open Scope float_scope.

Lemma resize_custom w h (r : RendererGL) (world : World) :
  _curCamera r = camera_custom →
  ∃ r', resize w h r world = (r', world)
        ∧ uPMatrix r' = uPMatrix r ∧ _curCamera r' = camera_custom.
Proof.
  intros Hc. unfold resize; simpl. rewrite Hc. eexists. by repeat split.
Qed.

Lemma resizes_custom sizes (r : RendererGL) (world : World) :
  _curCamera r = camera_custom →
  ∃ r', resizes sizes r world = (r', world)
        ∧ uPMatrix r' = uPMatrix r ∧ _curCamera r' = camera_custom.
Proof.
  revert r. induction sizes as [|[w h] sizes IH]; intros r Hc.
  - exists r. by repeat split.
  - destruct (resize_custom w h r world Hc) as (r1 & Hr1 & Hp1 & Hc1).
    destruct (IH r1 Hc1) as (r2 & Hr2 & Hp2 & Hc2).
    exists r2. unfold resizes in *; simpl. rewrite Hr1.
    repeat split; try done. congruence.
Qed.

(** While the camera is still [null] (no camera call yet and no default
    installed yet), [resize] computes nothing: the default projection is
    left to the next [_setDefaultCamera], which reads the new size. *)
Lemma resize_null w h (r : RendererGL) (world : World) :
  _curCamera r = camera_null →
  ∃ r', resize w h r world = (r', world)
        ∧ uPMatrix r' = uPMatrix r ∧ _curCamera r' = camera_null.
Proof.
  intros Hc. unfold resize; simpl. rewrite Hc. eexists. by repeat split.
Qed.

(** C7. [perspective] and [ortho] leave the camera marked ['custom'];
    from a renderer so marked, any number of [resize] calls leave the
    projection matrix alone: the renderer keeps the same projection object,
    no matrix object changes, and the mark stays. On a renderer whose
    camera is ['default'], [resize(w, h)] installs the default projection
    computed from the new size, with aspect ratio [w / h], and the camera
    stays ['default']. *)
Theorem resize_projection (this : p5) (r : RendererGL) (world : World) :
  (∀ fovy aspect near far,
     _curCamera (_renderer (fst (perspective fovy aspect near far this world)))
       = camera_custom)
  ∧ (∀ left right bottom top near far,
       _curCamera (_renderer (fst (ortho left right bottom top near far this world)))
         = camera_custom)
  ∧ (_curCamera r = camera_custom →
     ∀ sizes,
       uPMatrix (fst (resizes sizes r world)) = uPMatrix r
       ∧ snd (resizes sizes r world) = world
       ∧ _curCamera (fst (resizes sizes r world)) = camera_custom)
  ∧ (_curCamera r = camera_default →
     ∀ w h,
       deref (uPMatrix (fst (resize w h r world))) (snd (resize w h r world))
         = default_projection w h
       ∧ _curCamera (fst (resize w h r world)) = camera_default
       ∧ width (fst (resize w h r world)) = w
       ∧ height (fst (resize w h r world)) = h).
Proof.
  split; [|split; [|split]].
  - intros fovy aspect near far. reflexivity.
  - intros left right bottom top near far. reflexivity.
  - intros Hcustom sizes.
    destruct (resizes_custom sizes r world Hcustom) as (r' & -> & ? & ?).
    by repeat split.
  - intros Hdefault w h. unfold resize; simpl. rewrite Hdefault.
    unfold _setDefaultCamera; simpl. repeat split.
    unfold deref, mutate; simpl.
    by rewrite list_lookup_alter_eq, list_lookup_middle.
Qed.

End Camera.

(** ** Colour and blending *)

Section Blending.

Context `{HO : Host} `{DR : Driver}.

Implicit Types (this : RendererGL).

Local Open Scope float_scope.

(** Compiling, caching, binding a program and writing a uniform leave the
    blending switch and the depth mask as they are. *)
Lemma blending_initShaders vertId fragId imm this :
  blending (snd (_initShaders vertId fragId imm this)) = blending this.
Proof.
  unfold _initShaders, blending. repeat case_match; reflexivity.
Qed.

Lemma blending_getShader vertId fragId imm this :
  blending (snd (_getShader vertId fragId imm this)) = blending this.
Proof.
  unfold _getShader. case_match; [|reflexivity].
  pose proof (blending_initShaders vertId fragId imm this) as Hinit.
  destruct (_initShaders vertId fragId imm this) as [h r]. exact Hinit.
Qed.

Lemma blending_useShader h this :
  blending (_useShader h this) = blending this.
Proof. unfold _useShader. case_match; reflexivity. Qed.

Lemma blending_setUniform name data this :
  blending (_setUniform name data this) = blending this.
Proof. unfold _setUniform. repeat case_match; reflexivity. Qed.

Lemma blending_applyColorBlend args this :
  blending (snd (_applyColorBlend args this)) =
    if alpha_below_one (_array (color args)) then (true, false) else (false, true).
Proof. unfold _applyColorBlend. case_match; reflexivity. Qed.

(** [fill] ends with the blending state its [_applyColorBlend] step set. *)
Lemma blending_fill args this :
  blending (fill args this) = blending (snd (_applyColorBlend args this)).
Proof.
  unfold fill. destruct (_applyColorBlend args this) as [colors r]. cbn [snd].
  set (r1 := set_drawMode mode_fill (set_curFillColor colors r)).
  change (blending r) with (blending r1).
  destruct (isImmediateDrawing r1).
  - pose proof (blending_getShader "immediateVert" "vertexColorFrag" JS.Undefined r1) as Hg.
    destruct (_getShader "immediateVert" "vertexColorFrag" JS.Undefined r1) as [h r2].
    cbn [snd] in Hg. by rewrite blending_useShader.
  - pose proof (blending_getShader "normalVert" "basicFrag" JS.Undefined r1) as Hg.
    destruct (_getShader "normalVert" "basicFrag" JS.Undefined r1) as [h r2].
    cbn [snd] in Hg. by rewrite blending_setUniform, blending_useShader.
Qed.

(** Whatever the state of the renderer before the call, [fill] (and
    the [_applyColorBlend] step every colour-taking material call goes
    through) leaves blending enabled and depth writes disabled when the
    alpha of the resolved colour is below 1, and blending disabled and depth
    writes enabled when the alpha is 1: the branch is taken anew on every
    call. *)
Theorem fill_blending args this (alpha : float) :
  last (_array (color args)) = Some alpha →
  ((alpha <? 1) = true →
     gl.isEnabled gl.BLEND (GL (fill args this)) = true
     ∧ gl.DEPTH_WRITEMASK (GL (fill args this)) = false
     ∧ blending (snd (_applyColorBlend args this)) = (true, false))
  ∧ (alpha = 1 →
     gl.isEnabled gl.BLEND (GL (fill args this)) = false
     ∧ gl.DEPTH_WRITEMASK (GL (fill args this)) = true
     ∧ blending (snd (_applyColorBlend args this)) = (false, true)).
Proof.
  intros Hlast.
  pose proof (blending_fill args this) as Hfill.
  rewrite blending_applyColorBlend in *.
  unfold alpha_below_one in *. rewrite Hlast in *.
  unfold blending in Hfill.
  split.
  - intros Hlt. rewrite Hlt in *. by injection Hfill as -> ->.
  - intros ->. change (1 <? 1) with false in *. by injection Hfill as -> ->.
Qed.

End Blending.

(** ** Material colours *)

Section MaterialBlending.

Context `{HO : Host} `{DR : Driver} `{SH : p5_Shader}.

Lemma alpha_below_one_cases args (alpha : float) :
  last (_array (color args)) = Some alpha →
  ((alpha <? 1)%float = true → alpha_below_one (_array (color args)) = true)
  ∧ (alpha = 1%float → alpha_below_one (_array (color args)) = false).
Proof.
  intros Hlast. unfold alpha_below_one. rewrite Hlast. split; [done|by intros ->].
Qed.

(** C6. [fill], the [_applyColorBlend] step, and every [ambientMaterial]
    or [specularMaterial] call made while the renderer holds a shader object
    that answers [isLightShader()] leave blending enabled and depth writes
    disabled when the alpha of the resolved colour is below 1, and blending
    disabled and depth writes enabled otherwise (so when the alpha is 1),
    whatever the state before: the branch is taken anew on every call. A
    material call made while [curShader] is [null], as the constructor
    leaves it, or [undefined], or an object without the method, throws at
    [shader.isLightShader()] and changes nothing: the colour is not resolved
    and the blending state is not set. The [setUniform] of the shader
    object, which is not among the sources, is taken not to touch
    blending. *)
Theorem color_call_blending args (this : p5) :
  (∀ shader name data r,
     blending (Shader_setUniform shader name data r) = blending r) →
  blending (fill args (_renderer this))
    = (if alpha_below_one (_array (color args))
       then (true, false) else (false, true))
  ∧ blending (snd (_applyColorBlend args (_renderer this)))
    = (if alpha_below_one (_array (color args))
       then (true, false) else (false, true))
  ∧ match curShader (_renderer this) with
    | program shader =>
        match isLightShader shader with
        | inr _ =>
            (∃ s, ambientMaterial args this = JS.Normal s
               ∧ blending (_renderer s)
                 = (if alpha_below_one (_array (color args))
                    then (true, false) else (false, true)))
            ∧ (∃ s, specularMaterial args this = JS.Normal s
                 ∧ blending (_renderer s)
                   = (if alpha_below_one (_array (color args))
                      then (true, false) else (false, true)))
        | inl error =>
            ambientMaterial args this = JS.Throw error this
            ∧ specularMaterial args this = JS.Throw error this
        end
    | _ =>
        (∃ msg, ambientMaterial args this = JS.Throw (JS.TypeError msg) this)
        ∧ (∃ msg, specularMaterial args this = JS.Throw (JS.TypeError msg) this)
    end
  ∧ (∀ alpha : float, last (_array (color args)) = Some alpha →
       ((alpha <? 1)%float = true →
          alpha_below_one (_array (color args)) = true)
       ∧ (alpha = 1%float → alpha_below_one (_array (color args)) = false)).
Proof.
  intros Hframe. split_and!.
  - by rewrite blending_fill, blending_applyColorBlend.
  - apply blending_applyColorBlend.
  - unfold ambientMaterial, specularMaterial.
    destruct (curShader (_renderer this)) as [| |shader];
      [split; by eexists..|].
    destruct (isLightShader shader) as [error|light]; [by split|].
    destruct (if negb light
              then setShader_light (_renderer this)
              else (shader, _renderer this)) as [shader1 r1].
    pose proof (blending_applyColorBlend args r1) as Hblend.
    destruct (_applyColorBlend args r1) as [colors r2]. cbn [snd] in Hblend.
    split; eexists; (split; [reflexivity|]);
      cbn [_renderer set_renderer]; by rewrite !Hframe.
  - apply alpha_below_one_cases.
Qed.

End MaterialBlending.

(** ** The shader cache *)

Section ShaderCache.

Context `{HO : Host} `{DR : Driver}.

Implicit Types (this r : RendererGL) (h : Handle) (k : string).

Lemma Handle_same_undefined h :
  Handle_same h undefined = false ↔ h ≠ undefined.
Proof. destruct h; simpl; split; congruence. Qed.

Lemma materialInHash_true k this :
  materialInHash k this = true ↔ mHash_at k this ≠ undefined.
Proof.
  unfold materialInHash. rewrite <- Handle_same_undefined.
  destruct (Handle_same _ _); simpl; split; congruence.
Qed.

Lemma materialInHash_false k this :
  materialInHash k this = false ↔ mHash_at k this = undefined.
Proof.
  unfold materialInHash. destruct (mHash_at k this); simpl; split; congruence.
Qed.

(** [_initShaders] gives [null] or a program, never [undefined], and does
    not touch the cache. *)
Lemma initShaders_defined vertId fragId imm this :
  fst (_initShaders vertId fragId imm this) ≠ undefined.
Proof. unfold _initShaders. repeat case_match; simpl; congruence. Qed.

Lemma mHash_initShaders vertId fragId imm this :
  mHash (snd (_initShaders vertId fragId imm this)) = mHash this.
Proof. unfold _initShaders. repeat case_match; reflexivity. Qed.

Lemma mHash_useShader h this : mHash (_useShader h this) = mHash this.
Proof. unfold _useShader. case_match; reflexivity. Qed.

Lemma mHash_setUniform name data this :
  mHash (_setUniform name data this) = mHash this.
Proof. unfold _setUniform. repeat case_match; reflexivity. Qed.

Lemma mHash_applyColorBlend args this :
  mHash (snd (_applyColorBlend args this)) = mHash this.
Proof. unfold _applyColorBlend. case_match; reflexivity. Qed.

(** A call for a pair whose key is cached compiles nothing: it returns
    the cached handle and only records the key as the current one. *)
Lemma getShader_cached vertId fragId imm this :
  materialInHash (vertId ++ "|" ++ fragId) this = true →
  _getShader vertId fragId imm this =
    (mHash_at (vertId ++ "|" ++ fragId) this,
     set_curShaderId (Some (vertId ++ "|" ++ fragId)) this).
Proof. intros Hin. unfold _getShader. by rewrite Hin. Qed.

(** A call for a pair whose key is not cached runs [_initShaders] once and
    stores what it returned. *)
Lemma getShader_fresh vertId fragId imm this :
  materialInHash (vertId ++ "|" ++ fragId) this = false →
  _getShader vertId fragId imm this =
    (fst (_initShaders vertId fragId imm this),
     set_curShaderId (Some (vertId ++ "|" ++ fragId))
       (set_newShader true
          (set_mHash (<[vertId ++ "|" ++ fragId :=
                          fst (_initShaders vertId fragId imm this)]>
                        (mHash (snd (_initShaders vertId fragId imm this))))
             (snd (_initShaders vertId fragId imm this))))).
Proof.
  intros Hin. unfold _getShader. rewrite Hin. cbn [negb].
  destruct (_initShaders vertId fragId imm this) as [h r]. cbn [fst snd].
  f_equal. unfold mHash_at. cbn. by rewrite lookup_insert_eq.
Qed.

(** After any call the key of the pair is cached. *)
Lemma getShader_stores vertId fragId imm this :
  mHash_at (vertId ++ "|" ++ fragId) (snd (_getShader vertId fragId imm this))
    = fst (_getShader vertId fragId imm this)
  ∧ materialInHash (vertId ++ "|" ++ fragId)
      (snd (_getShader vertId fragId imm this)) = true.
Proof.
  destruct (materialInHash (vertId ++ "|" ++ fragId) this) eqn:Hin.
  - rewrite getShader_cached by done. cbn [fst snd]. split; [done|].
    apply materialInHash_true. apply materialInHash_true in Hin. done.
  - rewrite getShader_fresh by done. cbn [fst snd].
    assert (Hat : mHash_at (vertId ++ "|" ++ fragId)
              (set_curShaderId (Some (vertId ++ "|" ++ fragId))
                 (set_newShader true
                    (set_mHash (<[vertId ++ "|" ++ fragId :=
                                    fst (_initShaders vertId fragId imm this)]>
                                  (mHash (snd (_initShaders vertId fragId imm this))))
                       (snd (_initShaders vertId fragId imm this)))))
              = fst (_initShaders vertId fragId imm this)).
    { unfold mHash_at. cbn. by rewrite lookup_insert_eq. }
    split; [done|]. apply materialInHash_true. rewrite Hat.
    apply initShaders_defined.
Qed.

(** A cached entry stays: no call replaces or removes it. *)
Lemma getShader_keeps k h vertId fragId imm this :
  h ≠ undefined → mHash_at k this = h →
  mHash_at k (snd (_getShader vertId fragId imm this)) = h.
Proof.
  intros Hdef Hk.
  destruct (materialInHash (vertId ++ "|" ++ fragId) this) eqn:Hin.
  - by rewrite getShader_cached.
  - rewrite getShader_fresh by done. cbn [snd].
    apply materialInHash_false in Hin.
    assert (Hne : vertId ++ "|" ++ fragId ≠ k) by congruence.
    unfold mHash_at in *. cbn.
    rewrite lookup_insert_ne by done. by rewrite mHash_initShaders.
Qed.

Lemma fill_keeps k h args this :
  h ≠ undefined → mHash_at k this = h → mHash_at k (fill args this) = h.
Proof.
  intros Hdef Hk. unfold fill.
  pose proof (mHash_applyColorBlend args this) as Hb.
  destruct (_applyColorBlend args this) as [colors r]. cbn [snd] in Hb.
  set (r1 := set_drawMode mode_fill (set_curFillColor colors r)).
  assert (Hk1 : mHash_at k r1 = h) by (unfold mHash_at in *; cbn; by rewrite Hb).
  clearbody r1.
  destruct (isImmediateDrawing r1).
  - pose proof (getShader_keeps k h "immediateVert" "vertexColorFrag" JS.Undefined r1 Hdef Hk1) as Hg.
    destruct (_getShader "immediateVert" "vertexColorFrag" JS.Undefined r1) as [sp r2].
    cbn [snd] in Hg. unfold mHash_at in *. by rewrite mHash_useShader.
  - pose proof (getShader_keeps k h "normalVert" "basicFrag" JS.Undefined r1 Hdef Hk1) as Hg.
    destruct (_getShader "normalVert" "basicFrag" JS.Undefined r1) as [sp r2].
    cbn [snd] in Hg. unfold mHash_at in *.
    by rewrite mHash_setUniform, mHash_useShader.
Qed.

Lemma ambientLight_keeps k h args (this : p5) :
  h ≠ undefined → mHash_at k (_renderer this) = h →
  mHash_at k (_renderer (ambientLight args this)) = h.
Proof.
  intros Hdef Hk. unfold ambientLight.
  pose proof (getShader_keeps k h "lightVert" "lightTextureFrag" JS.Undefined
                (_renderer this) Hdef Hk) as Hg.
  destruct (_getShader "lightVert" "lightTextureFrag" JS.Undefined (_renderer this))
    as [sp r]. cbn [snd] in Hg. cbn [_renderer set_renderer].
  unfold mHash_at in *.
  rewrite !mHash_setUniform. cbn [mHash set_ambientLightCount].
  by rewrite !mHash_setUniform, mHash_useShader.
Qed.

Lemma shader_call_keeps k h c this :
  h ≠ undefined → mHash_at k this = h → mHash_at k (shader_call c this) = h.
Proof.
  intros Hdef Hk. destruct c; cbn [shader_call].
  - by apply getShader_keeps.
  - unfold mHash_at in *. by rewrite mHash_useShader.
  - unfold mHash_at in *. by rewrite mHash_setUniform.
  - by apply fill_keeps.
  - by apply ambientLight_keeps.
Qed.

Lemma shader_calls_keep k h cs this :
  h ≠ undefined → mHash_at k this = h → mHash_at k (shader_calls cs this) = h.
Proof.
  intros Hdef. revert this. induction cs as [|c cs IH]; intros this Hk.
  - done.
  - apply (IH (shader_call c this)). by apply shader_call_keeps.
Qed.

(** Ids without the separator give each pair a key of its own. *)
Lemma cache_key_injective v1 f1 v2 f2 :
  bar_free v1 = true → bar_free v2 = true →
  v1 ++ "|" ++ f1 = v2 ++ "|" ++ f2 → v1 = v2 ∧ f1 = f2.
Proof.
  revert v2. induction v1 as [|c v1 IH]; intros [|d v2]; cbn; intros H1 H2 Heq.
  - by simplify_eq.
  - by simplify_eq.
  - by simplify_eq.
  - apply andb_prop in H1 as [_ H1]. apply andb_prop in H2 as [_ H2].
    injection Heq as -> Heq. destruct (IH v2 H1 H2 Heq) as [-> ->]. done.
Qed.

(** With the separator inside an id two pairs can meet on one key. *)
Lemma cache_key_collision :
  "a|b" ++ "|" ++ "c" = "a" ++ "|" ++ "b|c".
Proof. reflexivity. Qed.

(** What a first call leaves behind when a stage did not compile: [null]
    comes back and sits in the cache, the alert carries the info log, no
    program was created or linked, and later calls for the pair get the
    cached [null] without compiling. *)
Lemma getShader_after_null vertId fragId imm this :
  fst (_getShader vertId fragId imm this) = null →
  mHash (snd (_getShader vertId fragId imm this)) !! (vertId ++ "|" ++ fragId)
    = Some null
  ∧ materialInHash (vertId ++ "|" ++ fragId)
      (snd (_getShader vertId fragId imm this)) = true
  ∧ ∀ calls imm',
      _getShader vertId fragId imm'
          (shader_calls calls (snd (_getShader vertId fragId imm this)))
        = (null,
           set_curShaderId (Some (vertId ++ "|" ++ fragId))
             (shader_calls calls (snd (_getShader vertId fragId imm this)))).
Proof.
  intros Hnull.
  destruct (getShader_stores vertId fragId imm this) as [Hat Hin].
  rewrite Hnull in Hat. repeat split; try done.
  - unfold mHash_at in Hat.
    destruct (mHash _ !! _) as [h|] eqn:E; cbn in Hat; congruence.
  - intros calls imm'.
    assert (Hk : mHash_at (vertId ++ "|" ++ fragId)
                   (shader_calls calls (snd (_getShader vertId fragId imm this)))
                 = null) by (by apply shader_calls_keep).
    rewrite getShader_cached; [by rewrite Hk|].
    apply materialInHash_true. by rewrite Hk.
Qed.

(** What the two loops of [_initShaders] leave in the tables. *)
Lemma attribute_loop_entries vsrc fsrc infos : ∀ table : gmap string Attribute,
  (∀ info, info ∈ infos →
     is_Some (fold_left
                (fun table attributeInfo =>
                   let name := gl.info_name attributeInfo in
                   <[name := {| attr_name := name;
                                attr_location := getAttribLocation vsrc fsrc name;
                                attr_type := gl.info_type attributeInfo;
                                attr_size := gl.info_size attributeInfo |}]> table)
                infos table !! gl.info_name info))
  ∧ (∀ k, is_Some (table !! k) →
       is_Some (fold_left
                  (fun table attributeInfo =>
                     let name := gl.info_name attributeInfo in
                     <[name := {| attr_name := name;
                                  attr_location := getAttribLocation vsrc fsrc name;
                                  attr_type := gl.info_type attributeInfo;
                                  attr_size := gl.info_size attributeInfo |}]> table)
                  infos table !! k))
  ∧ (∀ k a,
       fold_left
         (fun table attributeInfo =>
            let name := gl.info_name attributeInfo in
            <[name := {| attr_name := name;
                         attr_location := getAttribLocation vsrc fsrc name;
                         attr_type := gl.info_type attributeInfo;
                         attr_size := gl.info_size attributeInfo |}]> table)
         infos table !! k = Some a →
       table !! k = Some a
       ∨ ∃ info, info ∈ infos ∧ gl.info_name info = k
           ∧ a = {| attr_name := k;
                    attr_location := getAttribLocation vsrc fsrc k;
                    attr_type := gl.info_type info;
                    attr_size := gl.info_size info |}).
Proof.
  induction infos as [|i infos IH]; intros table; cbn [fold_left].
  - split_and!; [by intros info ?%elem_of_nil|done|by left].
  - cbv zeta. set (table1 := <[gl.info_name i := _]> table).
    destruct (IH table1) as (Hall & Hkeep & Hfrom). split_and!.
    + intros info [->|Hin]%elem_of_cons; [|by apply Hall].
      apply Hkeep. unfold table1. rewrite lookup_insert_eq. by eexists.
    + intros k Hk. apply Hkeep. unfold table1.
      destruct (decide (gl.info_name i = k)) as [->|Hne];
        [rewrite lookup_insert_eq; by eexists|by rewrite lookup_insert_ne].
    + intros k a Ha. destruct (Hfrom k a Ha) as [Hk|(info & Hin & Hname & ->)].
      * unfold table1 in Hk.
        destruct (decide (gl.info_name i = k)) as [<-|Hne].
        -- rewrite lookup_insert_eq in Hk. injection Hk as <-.
           right. exists i. split_and!; [by left|done|done].
        -- rewrite lookup_insert_ne in Hk by done. by left.
      * right. exists info. split_and!; [by right|done|done].
Qed.

Lemma uniform_loop_entries prog infos : ∀ (table : gmap string Uniform) (n : nat),
  (∀ info, info ∈ infos →
     is_Some ((fold_left (uniform_step prog) infos (table, n)).1
              !! trim_array_suffix (gl.info_size info) (gl.info_name info)))
  ∧ (∀ k, is_Some (table !! k) →
       is_Some ((fold_left (uniform_step prog) infos (table, n)).1 !! k))
  ∧ (∀ k u,
       (fold_left (uniform_step prog) infos (table, n)).1 !! k = Some u →
       table !! k = Some u
       ∨ ∃ info, info ∈ infos
           ∧ k = trim_array_suffix (gl.info_size info) (gl.info_name info)
           ∧ u_name u = k
           ∧ u_location u = {| gl.loc_program := prog;
                               gl.loc_name := gl.info_name info |}
           ∧ u_size u = gl.info_size info
           ∧ u_type u = gl.info_type info
           ∧ (is_Some (u_samplerIndex u) ↔ gl.info_type info = gl.SAMPLER_2D)).
Proof.
  induction infos as [|i infos IH]; intros table n; cbn [fold_left].
  - split_and!; [by intros info ?%elem_of_nil|done|by left].
  - unfold uniform_step at 2 4 6.
    set (k0 := trim_array_suffix (gl.info_size i) (gl.info_name i)).
    set (u0 := {| u_location := _; u_size := _; u_name := _; u_type := _;
                  u_samplerIndex := _ |}).
    set (n1 := if is_SAMPLER_2D (gl.info_type i) then S n else n).
    destruct (IH (<[k0 := u0]> table) n1) as (Hall & Hkeep & Hfrom). split_and!.
    + intros info [->|Hin]%elem_of_cons; [|by apply Hall].
      apply Hkeep. rewrite lookup_insert_eq. by eexists.
    + intros k Hk. apply Hkeep.
      destruct (decide (k0 = k)) as [->|Hne];
        [rewrite lookup_insert_eq; by eexists|by rewrite lookup_insert_ne].
    + intros k u Hu. destruct (Hfrom k u Hu) as [Hk|(info & Hin & Hrest)].
      * destruct (decide (k0 = k)) as [<-|Hne].
        -- rewrite lookup_insert_eq in Hk. injection Hk as <-.
           right. exists i. split_and!; try done; [by left|].
           unfold u0. cbn [u_samplerIndex].
           destruct (gl.info_type i); cbn [is_SAMPLER_2D];
             split; intros H; try done; try (by destruct H); by eexists.
        -- rewrite lookup_insert_ne in Hk by done. by left.
      * right. exists info. split; [by right|exact Hrest].
Qed.

(** C4. The first call for an id pair (its key is not in the cache)
    compiles the vertex stage once; when both stages compile it compiles
    the fragment stage once, creates one program, links it once and
    returns the program with the tables read from the implementation:
    every attribute the implementation reports has an entry under its name,
    and every entry holds the name, the location the implementation gives
    for it, and the type and size of a reported attribute of that name;
    every uniform reported has an entry under its trimmed name, and every
    entry holds that name, the location asked for under the reported name,
    the size and the type, with a sampler index exactly for a sampler.
    After it, and after any further shader, uniform, fill and light calls,
    a call with the same ids returns the same handle and issues no call on
    the context at all: it only records the key as the current one. *)
Theorem getShader_compiles_once vertId fragId imm this :
  materialInHash (vertId ++ "|" ++ fragId) this = false →
  gl.compilations gl.VERTEX_SHADER (GL (snd (_getShader vertId fragId imm this)))
    = S (gl.compilations gl.VERTEX_SHADER (GL this))
  ∧ (COMPILE_STATUS gl.VERTEX_SHADER (shader vertId) = true →
     COMPILE_STATUS gl.FRAGMENT_SHADER (shader fragId) = true →
     gl.compilations gl.FRAGMENT_SHADER (GL (snd (_getShader vertId fragId imm this)))
       = S (gl.compilations gl.FRAGMENT_SHADER (GL this))
     ∧ gl.programs (GL (snd (_getShader vertId fragId imm this)))
         = S (gl.programs (GL this))
     ∧ gl.links (GL (snd (_getShader vertId fragId imm this)))
         = S (gl.links (GL this))
     ∧ fst (_getShader vertId fragId imm this) =
         program
           {| program_id := gl.programs (GL this);
              attributes := introspect_attributes (shader vertId) (shader fragId);
              uniforms := introspect_uniforms (gl.programs (GL this))
                            (shader vertId) (shader fragId) |}
     ∧ ∃ p, fst (_getShader vertId fragId imm this) = program p
         ∧ program_id p = gl.programs (GL this)
         ∧ (∀ info, info ∈ ACTIVE_ATTRIBUTES (shader vertId) (shader fragId) →
              is_Some (attributes p !! gl.info_name info))
         ∧ (∀ k a, attributes p !! k = Some a →
              ∃ info, info ∈ ACTIVE_ATTRIBUTES (shader vertId) (shader fragId)
                ∧ gl.info_name info = k
                ∧ a = {| attr_name := k;
                         attr_location :=
                           getAttribLocation (shader vertId) (shader fragId) k;
                         attr_type := gl.info_type info;
                         attr_size := gl.info_size info |})
         ∧ (∀ info, info ∈ ACTIVE_UNIFORMS (shader vertId) (shader fragId) →
              is_Some (uniforms p
                       !! trim_array_suffix (gl.info_size info) (gl.info_name info)))
         ∧ (∀ k u, uniforms p !! k = Some u →
              ∃ info, info ∈ ACTIVE_UNIFORMS (shader vertId) (shader fragId)
                ∧ k = trim_array_suffix (gl.info_size info) (gl.info_name info)
                ∧ u_name u = k
                ∧ u_location u = {| gl.loc_program := gl.programs (GL this);
                                    gl.loc_name := gl.info_name info |}
                ∧ u_size u = gl.info_size info
                ∧ u_type u = gl.info_type info
                ∧ (is_Some (u_samplerIndex u)
                   ↔ gl.info_type info = gl.SAMPLER_2D)))
  ∧ (∀ calls imm',
       _getShader vertId fragId imm'
           (shader_calls calls (snd (_getShader vertId fragId imm this)))
         = (fst (_getShader vertId fragId imm this),
            set_curShaderId (Some (vertId ++ "|" ++ fragId))
              (shader_calls calls (snd (_getShader vertId fragId imm this))))).
Proof.
  intros Hfresh. split; [|split].
  - rewrite getShader_fresh by done. cbn [snd].
    unfold _initShaders. repeat case_match; reflexivity.
  - intros Hv Hf. rewrite getShader_fresh by done. cbn [fst snd].
    unfold _initShaders. rewrite Hv, Hf. cbn [negb].
    destruct (attribute_loop_entries (shader vertId) (shader fragId)
                (ACTIVE_ATTRIBUTES (shader vertId) (shader fragId)) ∅)
      as (Ha_all & _ & Ha_from).
    destruct (uniform_loop_entries (gl.programs (GL this))
                (ACTIVE_UNIFORMS (shader vertId) (shader fragId)) ∅ O)
      as (Hu_all & _ & Hu_from).
    assert (Htables :
      ∃ p, program
             {| program_id := gl.programs (GL this);
                attributes := introspect_attributes (shader vertId) (shader fragId);
                uniforms := introspect_uniforms (gl.programs (GL this))
                              (shader vertId) (shader fragId) |} = program p
        ∧ program_id p = gl.programs (GL this)
        ∧ (∀ info, info ∈ ACTIVE_ATTRIBUTES (shader vertId) (shader fragId) →
             is_Some (attributes p !! gl.info_name info))
        ∧ (∀ k a, attributes p !! k = Some a →
             ∃ info, info ∈ ACTIVE_ATTRIBUTES (shader vertId) (shader fragId)
               ∧ gl.info_name info = k
               ∧ a = {| attr_name := k;
                        attr_location :=
                          getAttribLocation (shader vertId) (shader fragId) k;
                        attr_type := gl.info_type info;
                        attr_size := gl.info_size info |})
        ∧ (∀ info, info ∈ ACTIVE_UNIFORMS (shader vertId) (shader fragId) →
             is_Some (uniforms p
                      !! trim_array_suffix (gl.info_size info) (gl.info_name info)))
        ∧ (∀ k u, uniforms p !! k = Some u →
             ∃ info, info ∈ ACTIVE_UNIFORMS (shader vertId) (shader fragId)
               ∧ k = trim_array_suffix (gl.info_size info) (gl.info_name info)
               ∧ u_name u = k
               ∧ u_location u = {| gl.loc_program := gl.programs (GL this);
                                   gl.loc_name := gl.info_name info |}
               ∧ u_size u = gl.info_size info
               ∧ u_type u = gl.info_type info
               ∧ (is_Some (u_samplerIndex u)
                  ↔ gl.info_type info = gl.SAMPLER_2D))).
    { eexists. split; [reflexivity|]. cbn [program_id attributes uniforms].
      split_and!; [reflexivity|exact Ha_all| |exact Hu_all|].
      - intros k a Hka. destruct (Ha_from k a Hka) as [Hempty|Hinfo]; [|exact Hinfo].
        by rewrite lookup_empty in Hempty.
      - intros k u Hku. destruct (Hu_from k u Hku) as [Hempty|Hinfo]; [|exact Hinfo].
        by rewrite lookup_empty in Hempty. }
    destruct (LINK_STATUS (shader vertId) (shader fragId));
      (split_and!; [reflexivity..|exact Htables]).
  - intros calls imm'.
    destruct (getShader_stores vertId fragId imm this) as [Hat Hin].
    apply materialInHash_true in Hin.
    assert (Hk : mHash_at (vertId ++ "|" ++ fragId)
                   (shader_calls calls (snd (_getShader vertId fragId imm this)))
                 = mHash_at (vertId ++ "|" ++ fragId)
                     (snd (_getShader vertId fragId imm this)))
      by (by apply shader_calls_keep).
    rewrite getShader_cached; [by rewrite Hk, Hat|].
    apply materialInHash_true. by rewrite Hk.
Qed.

(** C5, as the code has it. When the vertex stage, or else the fragment
    stage, does not compile on the first call for an id pair, the user is
    shown an alert that ends with the info log of that stage, no program
    is created or linked, and [_getShader] returns [null] to its caller by
    a normal return. The [null] is stored under the key of the pair:
    [materialInHash] answers true for it afterwards, and every later call
    for the pair returns [null] without compiling again. *)
Theorem getShader_compile_failure vertId fragId imm this :
  materialInHash (vertId ++ "|" ++ fragId) this = false →
  COMPILE_STATUS gl.VERTEX_SHADER (shader vertId) = false
  ∨ COMPILE_STATUS gl.FRAGMENT_SHADER (shader fragId) = false →
  fst (_getShader vertId fragId imm this) = null
  ∧ (∃ stage source prefix,
       COMPILE_STATUS stage source = false
       ∧ (stage = gl.VERTEX_SHADER ∧ source = shader vertId
          ∧ prefix = "Yikes! An error occurred compiling the shaders:"
          ∨ stage = gl.FRAGMENT_SHADER ∧ source = shader fragId
            ∧ prefix = "Darn! An error occurred compiling the shaders:")
       ∧ alerts (snd (_getShader vertId fragId imm this))
           = (prefix ++ getShaderInfoLog stage source) :: alerts this)
  ∧ gl.programs (GL (snd (_getShader vertId fragId imm this)))
      = gl.programs (GL this)
  ∧ gl.links (GL (snd (_getShader vertId fragId imm this))) = gl.links (GL this)
  ∧ mHash (snd (_getShader vertId fragId imm this)) !! (vertId ++ "|" ++ fragId)
      = Some null
  ∧ materialInHash (vertId ++ "|" ++ fragId)
      (snd (_getShader vertId fragId imm this)) = true
  ∧ ∀ calls imm',
      _getShader vertId fragId imm'
          (shader_calls calls (snd (_getShader vertId fragId imm this)))
        = (null,
           set_curShaderId (Some (vertId ++ "|" ++ fragId))
             (shader_calls calls (snd (_getShader vertId fragId imm this)))).
Proof.
  intros Hfresh Hfail.
  assert (Hfirst :
    fst (_getShader vertId fragId imm this) = null
    ∧ (∃ stage source prefix,
         COMPILE_STATUS stage source = false
         ∧ (stage = gl.VERTEX_SHADER ∧ source = shader vertId
            ∧ prefix = "Yikes! An error occurred compiling the shaders:"
            ∨ stage = gl.FRAGMENT_SHADER ∧ source = shader fragId
              ∧ prefix = "Darn! An error occurred compiling the shaders:")
         ∧ alerts (snd (_getShader vertId fragId imm this))
             = (prefix ++ getShaderInfoLog stage source) :: alerts this)
    ∧ gl.programs (GL (snd (_getShader vertId fragId imm this)))
        = gl.programs (GL this)
    ∧ gl.links (GL (snd (_getShader vertId fragId imm this)))
        = gl.links (GL this)).
  { rewrite getShader_fresh by done. cbn [fst snd]. unfold _initShaders.
    destruct (COMPILE_STATUS gl.VERTEX_SHADER (shader vertId)) eqn:Hv; cbn [negb].
    - destruct Hfail as [?|Hf]; [done|]. rewrite Hf. cbn [negb].
      repeat split; try reflexivity.
      exists gl.FRAGMENT_SHADER, (shader fragId). eexists.
      split; [done|]. split; [by right|reflexivity].
    - repeat split; try reflexivity.
      exists gl.VERTEX_SHADER, (shader vertId). eexists.
      split; [done|]. split; [by left|reflexivity]. }
  destruct Hfirst as (Hnull & Halert & Hprog & Hlink).
  destruct (getShader_after_null vertId fragId imm this Hnull) as (? & ? & ?).
  by repeat split.
Qed.

End ShaderCache.

(** ** Lights *)

Section Lights.

Context `{HO : Host} `{DR : Driver}.

Implicit Types (this : p5) (r : RendererGL).

Lemma light_counts_getShader vertId fragId imm r :
  light_counts (snd (_getShader vertId fragId imm r)) = light_counts r.
Proof.
  unfold _getShader, _initShaders. repeat case_match; simplify_eq; reflexivity.
Qed.

Lemma light_counts_useShader h r :
  light_counts (_useShader h r) = light_counts r.
Proof. unfold _useShader. case_match; reflexivity. Qed.

Lemma light_counts_setUniform name data r :
  light_counts (_setUniform name data r) = light_counts r.
Proof. unfold _setUniform. repeat case_match; reflexivity. Qed.

(** The per-pass reset zeroes the three counters. *)
Lemma update_resets `{ML : p5_Matrix} r (w : World) :
  light_counts (fst (_update r w)) = (0, 0, 0).
Proof. reflexivity. Qed.

(** Each light call that returns adds one to its own counter and leaves
    the other two. *)
Lemma ambientLight_counts args this :
  light_counts (_renderer (ambientLight args this)) =
    (S (ambientLightCount (_renderer this)),
     directionalLightCount (_renderer this),
     pointLightCount (_renderer this)).
Proof.
  unfold ambientLight.
  pose proof (light_counts_getShader "lightVert" "lightTextureFrag" JS.Undefined
                (_renderer this)) as Hg.
  destruct (_getShader "lightVert" "lightTextureFrag" JS.Undefined (_renderer this))
    as [sp r]. cbn [snd] in Hg. cbn [_renderer set_renderer].
  rewrite !light_counts_setUniform.
  set (r3 := _setUniform "uMaterialColor" _ _).
  assert (H3 : light_counts r3 = light_counts (_renderer this)).
  { unfold r3. by rewrite !light_counts_setUniform, light_counts_useShader. }
  clearbody r3. unfold light_counts in *. cbn. by injection H3 as -> -> ->.
Qed.

(** Reading the direction fails exactly when the last argument is
    [undefined] or [null] (an empty argument list included), and then with
    the TypeError of the field read. *)
Lemma trailing_xyz_fails args :
  match trailing_xyz args with
  | inl (JS.TypeError _) => JS.nullish (last_argument args) = true
  | inl (JS.GenericError _) => False
  | inr _ => JS.nullish (last_argument args) = false
  end.
Proof.
  unfold trailing_xyz. fold (last_argument args).
  destruct (last_argument args); reflexivity.
Qed.

Lemma directionalLight_counts args this :
  match directionalLight args this with
  | JS.Normal s =>
      light_counts (_renderer s) =
        (ambientLightCount (_renderer this),
         S (directionalLightCount (_renderer this)),
         pointLightCount (_renderer this))
  | JS.Throw _ s => light_counts (_renderer s) = light_counts (_renderer this)
  end.
Proof.
  unfold directionalLight.
  pose proof (light_counts_getShader "lightVert" "lightTextureFrag" JS.Undefined
                (_renderer this)) as Hg.
  destruct (_getShader "lightVert" "lightTextureFrag" JS.Undefined (_renderer this))
    as [sp r]. cbn [snd] in Hg.
  destruct (trailing_xyz args) as [e|[[x y] z]]; cbn [_renderer set_renderer].
  - by rewrite light_counts_setUniform, light_counts_useShader.
  - rewrite !light_counts_setUniform.
    set (r3 := _setUniform "uLightingDirection[0]" _ _).
    assert (H3 : light_counts r3 = light_counts (_renderer this)).
    { unfold r3. by rewrite !light_counts_setUniform, light_counts_useShader. }
    clearbody r3. unfold light_counts in *. cbn. by injection H3 as -> -> ->.
Qed.

Lemma pointLight_counts args this :
  match pointLight args this with
  | JS.Normal s =>
      light_counts (_renderer s) =
        (ambientLightCount (_renderer this),
         directionalLightCount (_renderer this),
         S (pointLightCount (_renderer this)))
  | JS.Throw _ s => light_counts (_renderer s) = light_counts (_renderer this)
  end.
Proof.
  unfold pointLight.
  pose proof (light_counts_getShader "lightVert" "lightTextureFrag" JS.Undefined
                (_renderer this)) as Hg.
  destruct (_getShader "lightVert" "lightTextureFrag" JS.Undefined (_renderer this))
    as [sp r]. cbn [snd] in Hg.
  destruct (trailing_xyz args) as [e|[[x y] z]]; cbn [_renderer set_renderer].
  - by rewrite light_counts_setUniform, light_counts_useShader.
  - rewrite !light_counts_setUniform.
    set (r3 := _setUniform "uPointLightLocation[0]" _ _).
    assert (H3 : light_counts r3 = light_counts (_renderer this)).
    { unfold r3. by rewrite !light_counts_setUniform, light_counts_useShader. }
    clearbody r3. unfold light_counts in *. cbn. by injection H3 as -> -> ->.
Qed.

Lemma directionalLight_throws args this :
  JS.throws (directionalLight args this) = JS.nullish (last_argument args).
Proof.
  unfold directionalLight.
  destruct (_getShader "lightVert" "lightTextureFrag" JS.Undefined (_renderer this))
    as [sp r].
  pose proof (trailing_xyz_fails args) as Hx.
  destruct (trailing_xyz args) as [[msg|msg]|[[x y] z]]; cbn [JS.throws]; done.
Qed.

Lemma pointLight_throws args this :
  JS.throws (pointLight args this) = JS.nullish (last_argument args).
Proof.
  unfold pointLight.
  destruct (_getShader "lightVert" "lightTextureFrag" JS.Undefined (_renderer this))
    as [sp r].
  pose proof (trailing_xyz_fails args) as Hx.
  destruct (trailing_xyz args) as [[msg|msg]|[[x y] z]]; cbn [JS.throws]; done.
Qed.

(** C8, as the code has it. [directionalLight] and [pointLight] throw
    exactly when their last argument is [undefined] or [null] (also when
    they are called without arguments): the TypeError of reading a field of
    it. Any other call returns: when the last argument is a number, the
    last three arguments are taken as they are, numbers or not; otherwise
    the fields [x], [y], [z] of the last argument are taken, [undefined]
    where it has none. *)
Theorem light_direction_check args this :
  JS.throws (directionalLight args this) = JS.nullish (last_argument args)
  ∧ JS.throws (pointLight args this) = JS.nullish (last_argument args)
  ∧ match trailing_xyz args with
    | inl e =>
        JS.nullish (last_argument args) = true
        ∧ ∃ msg, e = JS.TypeError msg
    | inr xyz =>
        JS.nullish (last_argument args) = false
        ∧ xyz =
            if JS.is_number (last_argument args) then
              (JS.index args (Z.of_nat (length args) - 3),
               JS.index args (Z.of_nat (length args) - 2),
               JS.index args (Z.of_nat (length args) - 1))
            else
              match last_argument args with
              | JS.Object props =>
                  (JS.assoc "x" props, JS.assoc "y" props, JS.assoc "z" props)
              | _ => (JS.Undefined, JS.Undefined, JS.Undefined)
              end
    end.
Proof.
  split; [apply directionalLight_throws|].
  split; [apply pointLight_throws|].
  unfold trailing_xyz. fold (last_argument args).
  destruct (last_argument args); cbn; eauto.
Qed.

(** From any state, a sequence of light calls that all return adds to each
    counter the number of calls of its kind: started from the per-pass
    reset, each counter is the number of calls of its kind made so far. *)
Lemma light_calls_counts cs this s :
  light_calls cs this = JS.Normal s →
  light_counts (_renderer s) =
    (ambientLightCount (_renderer this) + (tally cs).1.1,
     directionalLightCount (_renderer this) + (tally cs).1.2,
     pointLightCount (_renderer this) + (tally cs).2).
Proof.
  revert this. induction cs as [|c cs IH]; intros this Hrun;
    cbn [light_calls] in Hrun.
  - injection Hrun as <-. unfold light_counts. cbn [tally fst snd].
    rewrite !pair_equal_spec. repeat split; lia.
  - destruct (light_call c this) as [s1|e s1] eqn:Hc; [|discriminate].
    rewrite (IH s1 Hrun). cbn [tally].
    destruct (tally cs) as [[a d] p].
    assert (H1 : light_counts (_renderer s1) =
                 match c with
                 | call_ambient _ =>
                     (S (ambientLightCount (_renderer this)),
                      directionalLightCount (_renderer this),
                      pointLightCount (_renderer this))
                 | call_directional _ =>
                     (ambientLightCount (_renderer this),
                      S (directionalLightCount (_renderer this)),
                      pointLightCount (_renderer this))
                 | call_point _ =>
                     (ambientLightCount (_renderer this),
                      directionalLightCount (_renderer this),
                      S (pointLightCount (_renderer this)))
                 end).
    { destruct c as [args|args|args]; cbn [light_call] in Hc.
      - injection Hc as <-. apply ambientLight_counts.
      - pose proof (directionalLight_counts args this) as H1. by rewrite Hc in H1.
      - pose proof (pointLight_counts args this) as H1. by rewrite Hc in H1. }
    clear Hc Hrun IH. unfold light_counts in H1.
    destruct c; injection H1 as -> -> ->; cbn [fst snd];
      rewrite !pair_equal_spec; repeat split; lia.
Qed.

End Lights.

(** ** Pixels *)

Section PixelsGet.

Local Open Scope Z_scope.

Implicit Types (s : Pixels.Sketch) (x y : Z).

(** Where the guard of [get] holds ([x > width], [y > height], [x < 0] or
    [y < 0]) the answer is opaque black and the canvas is not read. *)
Lemma get_guarded s x y :
  Pixels.width s < x ∨ Pixels.height s < y ∨ x < 0 ∨ y < 0 →
  Pixels.get (Some x) (Some y) None None s = Pixels.pixels [0; 0; 0; 255].
Proof.
  intros Hout. unfold Pixels.get; cbn.
  assert (Hg : (Pixels.width s <? x) || (Pixels.height s <? y) || (x <? 0) || (y <? 0)
               = true).
  { destruct Hout as [H|[H|[H|H]]]; apply Z.ltb_lt in H; rewrite H;
      rewrite ?orb_true_r; reflexivity. }
  by rewrite Hg.
Qed.

(** C10, at the edge the guard misses. The column [x = width] is outside
    the canvas (its columns are [0 .. width-1]), yet the guard tests
    [x > width]: on a canvas of density 1 the call reads the canvas at
    that column and returns transparent black, not the documented opaque
    black. *)
Theorem get_at_width s y :
  Pixels.canvas_width (Pixels.canvas s) = Pixels.width s →
  0 ≤ Pixels.width s → 0 ≤ y ≤ Pixels.height s →
  Pixels.get (Some (Pixels.width s)) (Some y) None None s
    = Pixels.pixels [0; 0; 0; 0].
Proof.
  intros Hcanvas Hw [Hy0 Hy1]. unfold Pixels.get; cbn.
  rewrite Z.ltb_irrefl.
  replace (Pixels.height s <? y) with false by (symmetry; apply Z.ltb_ge; lia).
  replace (Pixels.width s <? 0) with false by (symmetry; apply Z.ltb_ge; lia).
  replace (y <? 0) with false by (symmetry; apply Z.ltb_ge; lia).
  cbn. unfold Pixels.getImageData. change (Z.to_nat 1) with 1%nat.
  cbn [seq flat_map Z.of_nat]. rewrite !app_nil_r, !Z.add_0_r.
  unfold Pixels.imageData_pixel. rewrite Hcanvas, Z.ltb_irrefl.
  by rewrite andb_false_r.
Qed.

End PixelsGet.

(** ** The calls of the specification, evaluated *)

(** [push(); translate(10, 0, 0); rotateX(1); scale(2, 2, 2); pop()] on a
    new renderer: the identity matrix is back. *)
Lemma push_transforms_pop_restores_new_renderer :
  allocated (uMVMatrix Sample.renderer) Sample.world
  ∧ ∃ this' w',
      pop Sample.renderer
        (transforms [call_translate 10 0 0; call_rotateX 1; call_scale 2 2 2]
           Sample.renderer (push Sample.renderer Sample.world))
        = JS.Normal (this', w')
      ∧ deref (uMVMatrix this') w' = Sample.m_identity.
Proof.
  assert (Ha : allocated (uMVMatrix Sample.renderer) Sample.world)
    by (by eexists).
  split; [exact Ha|].
  destruct (push_transforms_pop_restores Sample.renderer Sample.world
              [call_translate 10 0 0; call_rotateX 1; call_scale 2 2 2] Ha)
    as ((this' & w' & Hpop & Hm & _) & _).
  exists this', w'. split; [exact Hpop|]. rewrite Hm. reflexivity.
Defined.

(** [pop()] first thing on a new renderer. *)
Lemma pop_empty_throws_new_renderer :
  uMVMatrixStack Sample.world = []
  ∧ JS.throws (pop Sample.renderer Sample.world) = true.
Proof.
  split; [reflexivity|].
  apply (pop_empty_throws Sample.renderer Sample.world). reflexivity.
Defined.

(** The first [_getShader('lightVert', 'lightTextureFrag')] on a new
    renderer compiles the vertex stage once; the second call gives the same
    handle and leaves the context as it is. *)
Lemma getShader_compiles_once_light_shader :
  materialInHash ("lightVert" ++ "|" ++ "lightTextureFrag") Sample.renderer = false
  ∧ gl.compilations gl.VERTEX_SHADER
      (GL (snd (_getShader (DR := Sample.working 8) "lightVert" "lightTextureFrag"
                  JS.Undefined Sample.renderer)))
    = S (gl.compilations gl.VERTEX_SHADER (GL Sample.renderer))
  ∧ _getShader (DR := Sample.working 8) "lightVert" "lightTextureFrag" JS.Undefined
      (shader_calls (DR := Sample.working 8) []
         (snd (_getShader (DR := Sample.working 8) "lightVert" "lightTextureFrag"
                 JS.Undefined Sample.renderer)))
    = (fst (_getShader (DR := Sample.working 8) "lightVert" "lightTextureFrag"
              JS.Undefined Sample.renderer),
       set_curShaderId (Some ("lightVert" ++ "|" ++ "lightTextureFrag"))
         (shader_calls (DR := Sample.working 8) []
            (snd (_getShader (DR := Sample.working 8) "lightVert"
                    "lightTextureFrag" JS.Undefined Sample.renderer)))).
Proof.
  assert (Hfresh : materialInHash ("lightVert" ++ "|" ++ "lightTextureFrag")
                     Sample.renderer = false) by (vm_compute; reflexivity).
  split; [exact Hfresh|].
  destruct (getShader_compiles_once (DR := Sample.working 8)
              "lightVert" "lightTextureFrag" JS.Undefined Sample.renderer Hfresh)
    as (Hv & _ & Hagain).
  split; [exact Hv|exact (Hagain [] JS.Undefined)].
Defined.

(** C5, the claim as stated, fails: on an implementation that rejects the
    vertex shader, [_getShader] returns [null] by a normal return and the
    cache has an entry for the pair afterwards. On one that rejects the
    link, the unlinked program is returned and cached, and the alert
    carries no diagnostic of the linker. *)
Lemma compile_failure_is_cached :
  COMPILE_STATUS (Driver := Sample.vertex_rejected) gl.VERTEX_SHADER
    (shader "lightVert") = false
  ∧ fst (_getShader (DR := Sample.vertex_rejected) "lightVert" "lightTextureFrag"
           JS.Undefined Sample.renderer) = null
  ∧ materialInHash "lightVert|lightTextureFrag"
      (snd (_getShader (DR := Sample.vertex_rejected) "lightVert"
              "lightTextureFrag" JS.Undefined Sample.renderer)) = true
  ∧ LINK_STATUS (Driver := Sample.link_rejected) (shader "lightVert")
      (shader "lightTextureFrag") = false
  ∧ fst (_getShader (DR := Sample.link_rejected) "lightVert" "lightTextureFrag"
           JS.Undefined Sample.renderer)
      = program {| program_id := 0; attributes := ∅; uniforms := ∅ |}
  ∧ materialInHash "lightVert|lightTextureFrag"
      (snd (_getShader (DR := Sample.link_rejected) "lightVert"
              "lightTextureFrag" JS.Undefined Sample.renderer)) = true
  ∧ alerts (snd (_getShader (DR := Sample.link_rejected) "lightVert"
                   "lightTextureFrag" JS.Undefined Sample.renderer))
      = ["Snap! Error linking shader program"].
Proof. repeat split; vm_compute; reflexivity. Qed.

(** The vertex shader is rejected: the alert carries the info log, and
    [null] is what the cache holds. *)
Lemma getShader_compile_failure_vertex_rejected :
  materialInHash ("lightVert" ++ "|" ++ "lightTextureFrag") Sample.renderer = false
  ∧ COMPILE_STATUS (Driver := Sample.vertex_rejected) gl.VERTEX_SHADER
      (shader "lightVert") = false
  ∧ fst (_getShader (DR := Sample.vertex_rejected) "lightVert" "lightTextureFrag"
           JS.Undefined Sample.renderer) = null
  ∧ mHash (snd (_getShader (DR := Sample.vertex_rejected) "lightVert"
                  "lightTextureFrag" JS.Undefined Sample.renderer))
      !! ("lightVert" ++ "|" ++ "lightTextureFrag") = Some null.
Proof.
  assert (Hfresh : materialInHash ("lightVert" ++ "|" ++ "lightTextureFrag")
                     Sample.renderer = false) by (vm_compute; reflexivity).
  assert (Hfail : COMPILE_STATUS (Driver := Sample.vertex_rejected)
                    gl.VERTEX_SHADER (shader "lightVert") = false) by reflexivity.
  split; [exact Hfresh|]. split; [exact Hfail|].
  destruct (getShader_compile_failure (DR := Sample.vertex_rejected)
              "lightVert" "lightTextureFrag" JS.Undefined Sample.renderer
              Hfresh (or_introl Hfail))
    as (Hnull & _ & _ & _ & Hstored & _).
  split; [exact Hnull|exact Hstored].
Defined.

(** [fill(255, 0, 0, 128)] turns blending on; [fill(255, 0, 0, 255)] right
    after it turns blending off again. *)
Lemma fill_blending_literals :
  (gl.isEnabled gl.BLEND
     (GL (fill (DR := Sample.working 8)
            [JS.Number 255; JS.Number 0; JS.Number 0; JS.Number 128]
            Sample.renderer)) = true
   ∧ gl.DEPTH_WRITEMASK
       (GL (fill (DR := Sample.working 8)
              [JS.Number 255; JS.Number 0; JS.Number 0; JS.Number 128]
              Sample.renderer)) = false)
  ∧ (gl.isEnabled gl.BLEND
       (GL (fill (DR := Sample.working 8)
              [JS.Number 255; JS.Number 0; JS.Number 0; JS.Number 255]
              (fill (DR := Sample.working 8)
                 [JS.Number 255; JS.Number 0; JS.Number 0; JS.Number 128]
                 Sample.renderer))) = false
     ∧ gl.DEPTH_WRITEMASK
         (GL (fill (DR := Sample.working 8)
                [JS.Number 255; JS.Number 0; JS.Number 0; JS.Number 255]
                (fill (DR := Sample.working 8)
                   [JS.Number 255; JS.Number 0; JS.Number 0; JS.Number 128]
                   Sample.renderer))) = true).
Proof.
  assert (Hhalf : last (_array (color [JS.Number 255; JS.Number 0; JS.Number 0;
                                        JS.Number 128])) = Some (128 / 255)%float)
    by (vm_compute; reflexivity).
  assert (Hfull : last (_array (color [JS.Number 255; JS.Number 0; JS.Number 0;
                                        JS.Number 255])) = Some 1%float)
    by (vm_compute; reflexivity).
  split.
  - destruct (fill_blending (DR := Sample.working 8) _ Sample.renderer _ Hhalf)
      as [Hlow _].
    destruct (Hlow ltac:(vm_compute; reflexivity)) as (Hb & Hd & _). by split.
  - destruct (fill_blending (DR := Sample.working 8) _
                (fill (DR := Sample.working 8)
                   [JS.Number 255; JS.Number 0; JS.Number 0; JS.Number 128]
                   Sample.renderer) _ Hfull) as [_ Hone].
    destruct (Hone eq_refl) as (Hb & Hd & _). by split.
Defined.

(** After [perspective()], two resizes keep the projection object of the
    renderer; on a renderer with the default camera, [resize(200, 100)]
    installs the default projection for 200 by 100. *)
Lemma resize_projection_evaluated :
  (_curCamera (_renderer (fst (perspective None None None None
                                 Sample.sketch Sample.world))) = camera_custom
   ∧ uPMatrix (fst (resizes [(200, 100); (50, 50)]%float
                      (_renderer (fst (perspective None None None None
                                         Sample.sketch Sample.world)))
                      (snd (perspective None None None None
                              Sample.sketch Sample.world))))
     = uPMatrix (_renderer (fst (perspective None None None None
                                   Sample.sketch Sample.world))))
  ∧ (_curCamera (fst (_setDefaultCamera Sample.renderer Sample.world))
       = camera_default
     ∧ deref (uPMatrix (fst (resize 200 100
                               (fst (_setDefaultCamera Sample.renderer Sample.world))
                               (snd (_setDefaultCamera Sample.renderer Sample.world)))))
         (snd (resize 200 100
                 (fst (_setDefaultCamera Sample.renderer Sample.world))
                 (snd (_setDefaultCamera Sample.renderer Sample.world))))
       = default_projection 200 100).
Proof.
  split.
  - split; [reflexivity|].
    destruct (resize_projection Sample.sketch
                (_renderer (fst (perspective None None None None
                                   Sample.sketch Sample.world)))
                (snd (perspective None None None None Sample.sketch Sample.world)))
      as (_ & _ & Hcustom & _).
    exact (proj1 (Hcustom eq_refl [(200, 100); (50, 50)]%float)).
  - split; [reflexivity|].
    destruct (resize_projection Sample.sketch
                (fst (_setDefaultCamera Sample.renderer Sample.world))
                (snd (_setDefaultCamera Sample.renderer Sample.world)))
      as (_ & _ & _ & Hdefault).
    exact (proj1 (Hdefault eq_refl 200 100)%float).
Defined.

(** C8, the claim as stated, fails: a direction given as a string, or as an
    object without the fields, is neither of the two admitted shapes, and
    both light calls return normally. *)
Lemma light_accepts_malformed_direction :
  direction_given [JS.Number 255; JS.Number 255; JS.Number 255; JS.Str "north"]
    = false
  ∧ JS.throws (directionalLight (DR := Sample.working 8)
                 [JS.Number 255; JS.Number 255; JS.Number 255; JS.Str "north"]
                 Sample.pass_start) = false
  ∧ JS.throws (pointLight (DR := Sample.working 8)
                 [JS.Number 255; JS.Number 255; JS.Number 255; JS.Str "north"]
                 Sample.pass_start) = false
  ∧ direction_given [JS.Number 255; JS.Number 255; JS.Number 255; JS.Object []]
    = false
  ∧ JS.throws (directionalLight (DR := Sample.working 8)
                 [JS.Number 255; JS.Number 255; JS.Number 255; JS.Object []]
                 Sample.pass_start) = false
  ∧ JS.throws (pointLight (DR := Sample.working 8)
                 [JS.Number 255; JS.Number 255; JS.Number 255; JS.Object []]
                 Sample.pass_start) = false.
Proof. repeat split; vm_compute; reflexivity. Qed.

(** C2, at two lights. After the reset, two calls of
    [ambientLight(100, 100, 100)] leave the counter at 2, and the element
    [1] of the colour array was never written. Where the implementation
    reports the array under a name that [_initShaders] keeps
    (one element), both colours went to element [0]; where it reports
    an array of eight, [_initShaders] files it under the trimmed name, the
    lookup of ["uAmbientColor[0]"] finds nothing and no colour is written
    at all. *)
Theorem ambient_lights_share_element_0 :
  light_counts (_renderer Sample.pass_start) = (0, 0, 0)
  ∧ ambientLightCount (_renderer (Sample.two_ambient_lights 1)) = 2
  ∧ gl.writes_to "uAmbientColor[1]" (GL (_renderer (Sample.two_ambient_lights 1)))
    = []
  ∧ gl.writes_to "uAmbientColor[0]" (GL (_renderer (Sample.two_ambient_lights 1)))
    = [gl.uniform3f {| gl.loc_program := 0; gl.loc_name := "uAmbientColor[0]" |}
         (JS.Number (100 / 255)) (JS.Number (100 / 255)) (JS.Number (100 / 255));
       gl.uniform3f {| gl.loc_program := 0; gl.loc_name := "uAmbientColor[0]" |}
         (JS.Number (100 / 255)) (JS.Number (100 / 255)) (JS.Number (100 / 255))]
  ∧ ambientLightCount (_renderer (Sample.two_ambient_lights 8)) = 2
  ∧ gl.writes_to "uAmbientColor[1]" (GL (_renderer (Sample.two_ambient_lights 8)))
    = []
  ∧ gl.writes_to "uAmbientColor[0]" (GL (_renderer (Sample.two_ambient_lights 8)))
    = []
  ∧ gl.writes_to "uAmbientColor" (GL (_renderer (Sample.two_ambient_lights 8)))
    = [].
Proof. repeat split; vm_compute; reflexivity. Qed.

(** [get(100, 50)] on a white canvas of 100 by 100. *)
Lemma get_at_width_white_canvas :
  Pixels.get (Some 100%Z) (Some 50%Z) None None Sample.white_canvas
    = Pixels.pixels [0; 0; 0; 0]%Z.
Proof.
  exact (get_at_width Sample.white_canvas 50 eq_refl
           ltac:(cbn; lia) ltac:(cbn; lia)).
Defined.

(** ** The cache over whole call sequences *)

Section CacheInvariant.

Context `{HO : Host} `{DR : Driver}.

Implicit Types (this r : RendererGL) (h : Handle) (k : string).

Lemma cache_core_transfer r r' :
  core_view r' = core_view r → cache_core r → cache_core r'.
Proof.
  unfold core_view, cache_core, materialInHash, mHash_at.
  intros Hv. injection Hv as -> -> -> ->. done.
Qed.

Lemma core_view_useShader h r : core_view (_useShader h r) = core_view r.
Proof. unfold _useShader. case_match; reflexivity. Qed.

Lemma core_view_setUniform name data r :
  core_view (_setUniform name data r) = core_view r.
Proof. unfold _setUniform. repeat case_match; reflexivity. Qed.

Lemma core_view_applyColorBlend args r :
  core_view (snd (_applyColorBlend args r)) = core_view r.
Proof. unfold _applyColorBlend. case_match; reflexivity. Qed.

Lemma drawMode_useShader h r : drawMode (_useShader h r) = drawMode r.
Proof. unfold _useShader. case_match; reflexivity. Qed.

Lemma drawMode_setUniform name data r :
  drawMode (_setUniform name data r) = drawMode r.
Proof. unfold _setUniform. repeat case_match; reflexivity. Qed.

Lemma drawMode_initShaders vertId fragId imm r :
  drawMode (snd (_initShaders vertId fragId imm r)) = drawMode r.
Proof. unfold _initShaders. repeat case_match; reflexivity. Qed.

Lemma drawMode_getShader vertId fragId imm r :
  drawMode (snd (_getShader vertId fragId imm r)) = drawMode r.
Proof.
  destruct (materialInHash (vertId ++ "|" ++ fragId) r) eqn:Hin.
  - by rewrite getShader_cached.
  - rewrite getShader_fresh by done. cbn [snd]. cbn.
    apply drawMode_initShaders.
Qed.

(** One run of [_initShaders]: the vertex stage is compiled once, the
    cache and the current key are not touched, and what comes back is
    [null] with no program created, or the one program created, whose
    number is the count of programs before. *)
Lemma initShaders_effect vertId fragId imm r :
  mHash (snd (_initShaders vertId fragId imm r)) = mHash r
  ∧ curShaderId (snd (_initShaders vertId fragId imm r)) = curShaderId r
  ∧ gl.compilations gl.VERTEX_SHADER (GL (snd (_initShaders vertId fragId imm r)))
      = S (gl.compilations gl.VERTEX_SHADER (GL r))
  ∧ (fst (_initShaders vertId fragId imm r) = null
     ∧ gl.programs (GL (snd (_initShaders vertId fragId imm r)))
         = gl.programs (GL r)
     ∨ ∃ p, fst (_initShaders vertId fragId imm r) = program p
            ∧ program_id p = gl.programs (GL r)
            ∧ gl.programs (GL (snd (_initShaders vertId fragId imm r)))
                = S (gl.programs (GL r))).
Proof.
  unfold _initShaders.
  destruct (COMPILE_STATUS gl.VERTEX_SHADER (shader vertId)); cbn [negb];
    [|repeat split; by left].
  destruct (COMPILE_STATUS gl.FRAGMENT_SHADER (shader fragId)); cbn [negb];
    [|repeat split; by left].
  destruct (LINK_STATUS (shader vertId) (shader fragId)); cbn [negb];
    (repeat split; right; eexists; by repeat split).
Qed.

Lemma getShader_core vertId fragId imm r :
  cache_core r →
  cache_core (snd (_getShader vertId fragId imm r))
  ∧ curShaderId (snd (_getShader vertId fragId imm r))
      = Some (vertId ++ "|" ++ fragId).
Proof.
  intros (Hdef & Hid & Hinj & Hsize & Hcur).
  destruct (materialInHash (vertId ++ "|" ++ fragId) r) eqn:Hin.
  - rewrite getShader_cached by done. cbn [snd]. split; [|done].
    repeat split; try done.
    intros id Hid'. cbn in Hid'. simplify_eq. exact Hin.
  - rewrite getShader_fresh by done. cbn [snd]. split; [|done].
    destruct (initShaders_effect vertId fragId imm r)
      as (Hm & Hc & Hcomp & Hprog).
    set (h := fst (_initShaders vertId fragId imm r)) in *.
    set (r1 := snd (_initShaders vertId fragId imm r)) in *.
    assert (Hh : h ≠ undefined) by apply initShaders_defined.
    assert (Hnone : mHash r !! (vertId ++ "|" ++ fragId) = None).
    { apply materialInHash_false in Hin. unfold mHash_at in Hin.
      destruct (mHash r !! (vertId ++ "|" ++ fragId)) as [h'|] eqn:E; [|done].
      cbn in Hin. subst h'. by destruct (Hdef _ _ E). }
    assert (Hmono : (gl.programs (GL r) ≤ gl.programs (GL r1))%nat).
    { destruct Hprog as [[_ ->]|(p & _ & _ & ->)]; lia. }
    unfold cache_core. cbn. rewrite Hm.
    repeat split.
    + intros k h'. rewrite lookup_insert. case_decide; [congruence|eauto].
    + intros k p. rewrite lookup_insert. case_decide.
      * intros [= Hp]. destruct Hprog as [[Hnull _]|(q & Hq & Hidq & ->)];
          [congruence|]. rewrite Hp in Hq. injection Hq as ->. lia.
      * intros Hk. specialize (Hid _ _ Hk). lia.
    + intros k1 k2 p1 p2. rewrite !lookup_insert.
      repeat case_decide; subst; try done.
      * intros [= Hp] Hk Heq. exfalso.
        destruct Hprog as [[Hnull _]|(q & Hq & Hidq & _)]; [congruence|].
        rewrite Hp in Hq. injection Hq as ->. specialize (Hid _ _ Hk). lia.
      * intros Hk [= Hp] Heq. exfalso.
        destruct Hprog as [[Hnull _]|(q & Hq & Hidq & _)]; [congruence|].
        rewrite Hp in Hq. injection Hq as ->. specialize (Hid _ _ Hk). lia.
      * eauto.
    + rewrite Hcomp, Hsize. by rewrite map_size_insert_None.
    + intros id [= <-]. apply materialInHash_true. unfold mHash_at. cbn.
      by rewrite lookup_insert_eq.
Qed.

(** The methods around [_getShader] leave the part of the renderer the
    invariant reads as it is. *)
Lemma core_view_issue_enable cap r :
  core_view (issue (gl.enable cap) r) = core_view r.
Proof. reflexivity. Qed.

Lemma core_view_issue_blendFunc s d r :
  core_view (issue (gl.blendFunc s d) r) = core_view r.
Proof. reflexivity. Qed.

Lemma core_view_set_drawMode m r : core_view (set_drawMode m r) = core_view r.
Proof. reflexivity. Qed.

Lemma core_view_set_curFillColor c r :
  core_view (set_curFillColor c r) = core_view r.
Proof. reflexivity. Qed.

Lemma core_view_set_curStrokeColor c r :
  core_view (set_curStrokeColor c r) = core_view r.
Proof. reflexivity. Qed.

Lemma core_view_set_isImmediateDrawing b r :
  core_view (set_isImmediateDrawing b r) = core_view r.
Proof. reflexivity. Qed.

Lemma core_view_set_ambientLightCount n r :
  core_view (set_ambientLightCount n r) = core_view r.
Proof. reflexivity. Qed.

Lemma core_view_set_directionalLightCount n r :
  core_view (set_directionalLightCount n r) = core_view r.
Proof. reflexivity. Qed.

Lemma core_view_set_pointLightCount n r :
  core_view (set_pointLightCount n r) = core_view r.
Proof. reflexivity. Qed.

Lemma core_view_setNoFillStroke r :
  core_view (_setNoFillStroke r) = core_view r.
Proof.
  unfold _setNoFillStroke. by rewrite core_view_setUniform, core_view_useShader.
Qed.

Create Rewrite HintDb core_view.

#[local] Hint Rewrite core_view_useShader core_view_setUniform
  core_view_issue_enable core_view_issue_blendFunc core_view_set_drawMode
  core_view_set_curFillColor core_view_set_curStrokeColor
  core_view_set_isImmediateDrawing core_view_set_ambientLightCount
  core_view_set_directionalLightCount core_view_set_pointLightCount
  core_view_setNoFillStroke : core_view.

Lemma core_view_curShaderId r r' :
  core_view r' = core_view r → curShaderId r' = curShaderId r.
Proof. unfold core_view. by intros [= _ _ _ ->]. Qed.

Lemma drawMode_setNoFillStroke r : drawMode (_setNoFillStroke r) = drawMode r.
Proof.
  unfold _setNoFillStroke. by rewrite drawMode_setUniform, drawMode_useShader.
Qed.

(** What follows a [_getShader] inside a method: it keeps the invariant and
    the current key. *)
Lemma after_getShader vertId fragId imm r (tail : Handle → RendererGL → RendererGL) :
  cache_core r →
  (∀ h r2, core_view (tail h r2) = core_view r2) →
  cache_sound
    (tail (fst (_getShader vertId fragId imm r))
          (snd (_getShader vertId fragId imm r))).
Proof.
  intros Hcore Htail.
  destruct (getShader_core vertId fragId imm r Hcore) as [Hc2 Hid2].
  split.
  - eapply cache_core_transfer; [apply Htail|exact Hc2].
  - intros _. rewrite (core_view_curShaderId _ _ (Htail _ _)), Hid2. eauto.
Qed.

Lemma getShader_sound vertId fragId imm r :
  cache_sound r → cache_sound (snd (_getShader vertId fragId imm r)).
Proof.
  intros [Hcore _].
  exact (after_getShader vertId fragId imm r (fun _ r2 => r2) Hcore
           (fun _ _ => eq_refl)).
Qed.

Lemma fill_sound args r : cache_sound r → cache_sound (fill args r).
Proof.
  intros [Hcore _]. unfold fill.
  pose proof (core_view_applyColorBlend args r) as Hb.
  destruct (_applyColorBlend args r) as [colors r1]. cbn [snd] in Hb.
  set (r2 := set_drawMode mode_fill (set_curFillColor colors r1)).
  assert (Hcore2 : cache_core r2) by (by eapply cache_core_transfer).
  change (isImmediateDrawing r1) with (isImmediateDrawing r2).
  clearbody r2. destruct (isImmediateDrawing r2).
  - pose proof (after_getShader "immediateVert" "vertexColorFrag" JS.Undefined r2
                  (fun h r3 => _useShader h r3) Hcore2) as Hs.
    destruct (_getShader "immediateVert" "vertexColorFrag" JS.Undefined r2).
    apply Hs. intros. by autorewrite with core_view.
  - pose proof (after_getShader "normalVert" "basicFrag" JS.Undefined r2
                  (fun h r3 => _setUniform "uMaterialColor" (numbers colors)
                                 (_useShader h r3)) Hcore2) as Hs.
    destruct (_getShader "normalVert" "basicFrag" JS.Undefined r2).
    apply Hs. intros. by autorewrite with core_view.
Qed.

Lemma noFill_sound r : cache_sound r → cache_sound (noFill r).
Proof.
  intros [Hcore _]. unfold noFill.
  pose proof (after_getShader "normalVert" "basicFrag" JS.Undefined r
    (fun h r2 =>
       _setNoFillStroke
         (set_drawMode mode_wireframe
            (issue (gl.blendFunc gl.SRC_ALPHA gl.ONE_MINUS_SRC_ALPHA)
               (issue (gl.enable gl.BLEND) (_useShader h r2))))) Hcore) as Hs.
  destruct (_getShader "normalVert" "basicFrag" JS.Undefined r).
  apply Hs. intros. by autorewrite with core_view.
Qed.

Lemma stroke_sound args r : cache_sound r → cache_sound (stroke args r).
Proof.
  intros [Hcore Hmode]. unfold stroke.
  set (r1 := set_curStrokeColor (_array (color args)) r).
  destruct (is_wireframe (drawMode r1)).
  - split.
    + eapply cache_core_transfer; [|exact Hcore].
      by autorewrite with core_view.
    + rewrite drawMode_setNoFillStroke.
      rewrite (core_view_curShaderId r (_setNoFillStroke r1))
        by (by autorewrite with core_view).
      exact Hmode.
  - by split.
Qed.

Lemma setUniform_sound name data r :
  cache_sound r → cache_sound (_setUniform name data r).
Proof.
  intros [Hcore Hmode]. split.
  - eapply cache_core_transfer; [apply core_view_setUniform|exact Hcore].
  - rewrite drawMode_setUniform.
    by rewrite (core_view_curShaderId _ _ (core_view_setUniform name data r)).
Qed.

Lemma getCurShaderId_sound r :
  cache_sound r → cache_sound (snd (_getCurShaderId r)).
Proof.
  intros Hs. unfold _getCurShaderId. cbn [snd].
  repeat case_match; try done; by apply getShader_sound.
Qed.

Lemma ambientLight_sound args r :
  cache_sound r → cache_sound (_renderer (ambientLight args (as_sketch r))).
Proof.
  intros [Hcore _]. unfold ambientLight. cbn [_renderer as_sketch].
  pose proof (after_getShader "lightVert" "lightTextureFrag" JS.Undefined r
    (fun h r2 =>
       let r3 := _setUniform "uMaterialColor" (numbers [1; 1; 1; 1])%float
                   (_setUniform "uAmbientColor[0]"
                      (JS.Float32Array (take 3 (_array (color args))))
                      (_useShader h r2)) in
       let r4 := set_ambientLightCount (S (ambientLightCount r3)) r3 in
       _setUniform "uUseLighting" (JS.Boolean true)
         (_setUniform "uAmbientLightCount"
            (JS.Number (JS.count (ambientLightCount r4))) r4)) Hcore) as Hs.
  destruct (_getShader "lightVert" "lightTextureFrag" JS.Undefined r).
  cbn [_renderer set_renderer]. apply Hs.
  intros. cbv zeta. by autorewrite with core_view.
Qed.

Lemma directionalLight_sound args r :
  cache_sound r →
  cache_sound (_renderer (receiver (directionalLight args (as_sketch r)))).
Proof.
  intros [Hcore _]. unfold directionalLight. cbn [_renderer as_sketch].
  destruct (trailing_xyz args) as [e|[[x y] z]].
  - pose proof (after_getShader "lightVert" "lightTextureFrag" JS.Undefined r
      (fun h r2 =>
         _setUniform "uDirectionalColor[0]"
           (JS.Float32Array (take 3 (_array (color (v1_v2_v3 args)))))
           (_useShader h r2)) Hcore) as Hs.
    destruct (_getShader "lightVert" "lightTextureFrag" JS.Undefined r).
    cbn [receiver _renderer set_renderer]. apply Hs.
    intros. by autorewrite with core_view.
  - pose proof (after_getShader "lightVert" "lightTextureFrag" JS.Undefined r
      (fun h r2 =>
         let r3 := _setUniform "uLightingDirection[0]" (JS.Array [x; y; z])
                     (_setUniform "uMaterialColor" (numbers [1; 1; 1; 1])%float
                        (_setUniform "uDirectionalColor[0]"
                           (JS.Float32Array (take 3 (_array (color (v1_v2_v3 args)))))
                           (_useShader h r2))) in
         let r4 := set_directionalLightCount (S (directionalLightCount r3)) r3 in
         _setUniform "uUseLighting" (JS.Boolean true)
           (_setUniform "uDirectionalLightCount"
              (JS.Number (JS.count (directionalLightCount r4))) r4)) Hcore) as Hs.
    destruct (_getShader "lightVert" "lightTextureFrag" JS.Undefined r).
    cbn [receiver _renderer set_renderer]. apply Hs.
    intros. cbv zeta. by autorewrite with core_view.
Qed.

Lemma pointLight_sound args r :
  cache_sound r →
  cache_sound (_renderer (receiver (pointLight args (as_sketch r)))).
Proof.
  intros [Hcore _]. unfold pointLight. cbn [_renderer as_sketch].
  destruct (trailing_xyz args) as [e|[[x y] z]].
  - pose proof (after_getShader "lightVert" "lightTextureFrag" JS.Undefined r
      (fun h r2 =>
         _setUniform "uPointLightColor[0]"
           (JS.Float32Array (take 3 (_array (color (v1_v2_v3 args)))))
           (_useShader h r2)) Hcore) as Hs.
    destruct (_getShader "lightVert" "lightTextureFrag" JS.Undefined r).
    cbn [receiver _renderer set_renderer]. apply Hs.
    intros. by autorewrite with core_view.
  - pose proof (after_getShader "lightVert" "lightTextureFrag" JS.Undefined r
      (fun h r2 =>
         let r3 := _setUniform "uPointLightLocation[0]" (JS.Array [x; y; z])
                     (_setUniform "uMaterialColor" (numbers [1; 1; 1; 1])%float
                        (_setUniform "uPointLightColor[0]"
                           (JS.Float32Array (take 3 (_array (color (v1_v2_v3 args)))))
                           (_useShader h r2))) in
         let r4 := set_pointLightCount (S (pointLightCount r3)) r3 in
         _setUniform "uUseLighting" (JS.Boolean true)
           (_setUniform "uPointLightCount"
              (JS.Number (JS.count (pointLightCount r4))) r4)) Hcore) as Hs.
    destruct (_getShader "lightVert" "lightTextureFrag" JS.Undefined r).
    cbn [receiver _renderer set_renderer]. apply Hs.
    intros. cbv zeta. by autorewrite with core_view.
Qed.

Lemma api_call_sound c r : cache_sound r → cache_sound (api_call c r).
Proof.
  intros Hs. destruct c; cbn [api_call].
  - by apply getShader_sound.
  - by apply getCurShaderId_sound.
  - by apply setUniform_sound.
  - by apply fill_sound.
  - by apply noFill_sound.
  - by apply stroke_sound.
  - by apply ambientLight_sound.
  - by apply directionalLight_sound.
  - by apply pointLight_sound.
  - exact Hs.
Qed.

Lemma api_calls_sound cs r : cache_sound r → cache_sound (api_calls cs r).
Proof.
  revert r. induction cs as [|c cs IH]; intros r Hs; [done|].
  apply (IH (api_call c r)). by apply api_call_sound.
Qed.

Lemma new_renderer_sound `{ML : p5_Matrix} (w0 h0 : float) :
  cache_sound (fst (RendererGL_new w0 h0 World_new)).
Proof.
  repeat split; cbn; try done.
Qed.

End CacheInvariant.

(** ** The matrix store over whole call sequences *)

Section StoreInvariant.

Context `{ML : p5_Matrix} `{HO : Host}.

Implicit Types (this r : RendererGL) (w : World) (a b : nat).

Lemma allocated_lt a w : allocated a w ↔ a < length (matrices w).
Proof. unfold allocated. apply lookup_lt_is_Some. Qed.

(** The soundness of the store reads only two fields of the renderer. *)
Lemma store_sound_fields r r' w :
  uMVMatrix r' = uMVMatrix r → uPMatrix r' = uPMatrix r →
  store_sound r w → store_sound r' w.
Proof.
  unfold store_sound, well_formed. intros -> ->. done.
Qed.

Lemma store_sound_mutate r w a f :
  store_sound r w → store_sound r (mutate a f w).
Proof.
  unfold store_sound, well_formed.
  intros ((Hmv & Hp & Hst) & ? & ? & ? & ?).
  rewrite stack_mutate. repeat split; try done.
  - apply allocated_lt. rewrite length_mutate. by apply allocated_lt.
  - apply allocated_lt. rewrite length_mutate. by apply allocated_lt.
  - eapply Forall_impl; [exact Hst|]. intros b Hb.
    apply allocated_lt. rewrite length_mutate. by apply allocated_lt.
Qed.

Lemma stack_below w a :
  Forall (fun b => allocated b w) (uMVMatrixStack w) →
  a ∈ uMVMatrixStack w → a < length (matrices w).
Proof.
  intros Hst Hin. rewrite Forall_forall in Hst. apply allocated_lt. by apply Hst.
Qed.

(** A new object for the model-view matrix, or for the projection matrix,
    keeps the store sound: the object it replaces is simply left behind. *)
Lemma store_sound_new_MV r r' w m :
  store_sound r w →
  uMVMatrix r' = length (matrices w) → uPMatrix r' = uPMatrix r →
  store_sound r' (snd (alloc m w)).
Proof.
  unfold store_sound, well_formed.
  intros ((Hmv & Hp & Hst) & Hmvs & Hps & Hne & Hnd) Hmv' Hp'.
  rewrite Hmv', Hp'. cbn.
  apply allocated_lt in Hmv, Hp.
  repeat split; try done.
  - apply allocated_lt. cbn. rewrite length_app. cbn. lia.
  - apply allocated_lt. cbn. rewrite length_app. cbn. lia.
  - eapply Forall_impl; [exact Hst|]. intros b Hb.
    apply allocated_lt in Hb. apply allocated_lt. cbn.
    rewrite length_app. cbn. lia.
  - intros Hin. pose proof (stack_below w _ Hst Hin). lia.
  - lia.
Qed.

Lemma store_sound_new_P r r' w m :
  store_sound r w →
  uMVMatrix r' = uMVMatrix r → uPMatrix r' = length (matrices w) →
  store_sound r' (snd (alloc m w)).
Proof.
  unfold store_sound, well_formed.
  intros ((Hmv & Hp & Hst) & Hmvs & Hps & Hne & Hnd) Hmv' Hp'.
  rewrite Hmv', Hp'. cbn.
  apply allocated_lt in Hmv, Hp.
  repeat split; try done.
  - apply allocated_lt. cbn. rewrite length_app. cbn. lia.
  - apply allocated_lt. cbn. rewrite length_app. cbn. lia.
  - eapply Forall_impl; [exact Hst|]. intros b Hb.
    apply allocated_lt in Hb. apply allocated_lt. cbn.
    rewrite length_app. cbn. lia.
  - intros Hin. pose proof (stack_below w _ Hst Hin). lia.
  - lia.
Qed.

Lemma push_store_sound r w : store_sound r w → store_sound r (push r w).
Proof.
  intros Hs. pose proof Hs as ((Hmv & Hp & Hst) & Hmvs & Hps & Hne & Hnd).
  split; [by apply push_well_formed|].
  rewrite push_world. cbn.
  apply allocated_lt in Hmv, Hp.
  assert (Hfresh : length (matrices w) ∉ uMVMatrixStack w).
  { intros Hin. pose proof (stack_below w _ Hst Hin). lia. }
  repeat split.
  - rewrite not_elem_of_cons. split; [lia|done].
  - rewrite not_elem_of_cons. split; [lia|done].
  - done.
  - by constructor.
Qed.

Lemma pop_store_sound r w r' w' :
  store_sound r w → pop r w = JS.Normal (r', w') → store_sound r' w'.
Proof.
  intros Hs Hpop. pose proof Hs as (Hwf & Hmvs & Hps & Hne & Hnd).
  split; [by eapply pop_well_formed|].
  unfold pop in Hpop.
  destruct (uMVMatrixStack w) as [|top rest] eqn:Hst; simplify_eq. cbn.
  apply NoDup_cons in Hnd as [Htop Hnd].
  apply not_elem_of_cons in Hps as [Hp1 Hp2].
  repeat split; done.
Qed.

Lemma transform_store_sound t r w :
  store_sound r w → store_sound r (transform t r w).
Proof.
  intros Hs. destruct (transform_mutates t r w) as [f ->].
  by apply store_sound_mutate.
Qed.

Lemma setDefaultCamera_store_sound r w :
  store_sound r w →
  store_sound (fst (_setDefaultCamera r w)) (snd (_setDefaultCamera r w)).
Proof.
  intros Hs. unfold _setDefaultCamera.
  destruct (_curCamera r); try done. cbn [fst snd].
  apply store_sound_mutate.
  eapply (store_sound_new_P r _ w mat_identity Hs); reflexivity.
Qed.

Lemma matrix_call_store_sound c (st : p5 * World) :
  store_sound (_renderer st.1) st.2 →
  store_sound (_renderer (matrix_call c st).1) (matrix_call c st).2.
Proof.
  destruct st as [this w]. cbn [fst snd]. intros Hs.
  destruct c; cbn [matrix_call].
  - by apply push_store_sound.
  - destruct (pop (_renderer this) w) as [[r' w']|e st'] eqn:Hpop; [|done].
    cbn. by eapply pop_store_sound.
  - by apply transform_store_sound.
  - cbn. apply store_sound_mutate.
    eapply (store_sound_new_MV (_renderer this) _ w mat_identity Hs); reflexivity.
  - cbn. apply store_sound_mutate.
    eapply (store_sound_new_MV (_renderer this) _ w mat_identity Hs); reflexivity.
  - unfold resize.
    set (r1 := issue _ (Renderer_resize w0 h (_renderer this))).
    assert (Hs1 : store_sound r1 w) by (by eapply store_sound_fields).
    destruct (_curCamera r1) eqn:Hc; try done.
    pose proof (setDefaultCamera_store_sound (set_curCamera camera_null r1) w
                  ltac:(by eapply store_sound_fields)) as Hd.
    destruct (_setDefaultCamera (set_curCamera camera_null r1) w). exact Hd.
  - pose proof (setDefaultCamera_store_sound (_renderer this) w Hs) as Hd.
    destruct (_setDefaultCamera (_renderer this) w). exact Hd.
  - cbn. apply store_sound_mutate.
    eapply (store_sound_new_P (_renderer this) _ w mat_identity Hs); reflexivity.
  - cbn. apply store_sound_mutate.
    eapply (store_sound_new_P (_renderer this) _ w mat_identity Hs); reflexivity.
Qed.

Lemma new_sketch_store_sound (width0 height0 : float) :
  store_sound (_renderer (new_sketch width0 height0).1)
              (new_sketch width0 height0).2.
Proof.
  split; [apply RendererGL_new_well_formed|].
  cbn. repeat split; try done.
  - apply not_elem_of_nil.
  - apply not_elem_of_nil.
  - constructor.
Qed.

Lemma matrix_calls_store_sound cs (st : p5 * World) :
  store_sound (_renderer st.1) st.2 →
  store_sound (_renderer (matrix_calls cs st).1) (matrix_calls cs st).2.
Proof.
  revert st. induction cs as [|c cs IH]; intros st Hs; [done|].
  apply (IH (matrix_call c st)). by apply matrix_call_store_sound.
Qed.

(** X1. Whatever sequence of [push], [pop], transforms, [_update],
    [resetMatrix], [resize], [_setDefaultCamera], [perspective] and [ortho]
    ran on a new sketch, the matrix objects are not shared: the model-view
    matrix, the projection matrix and every saved matrix are distinct
    existing objects. So a transform never changes a saved matrix or the
    projection matrix. *)
Theorem matrix_objects_never_shared cs (width0 height0 : float) :
  store_sound (_renderer (matrix_calls cs (new_sketch width0 height0)).1)
              (matrix_calls cs (new_sketch width0 height0)).2
  ∧ ∀ t a,
      a ∈ uMVMatrixStack (matrix_calls cs (new_sketch width0 height0)).2
      ∨ a = uPMatrix (_renderer (matrix_calls cs (new_sketch width0 height0)).1) →
      matrices (transform t (_renderer (matrix_calls cs (new_sketch width0 height0)).1)
                  (matrix_calls cs (new_sketch width0 height0)).2) !! a
        = matrices (matrix_calls cs (new_sketch width0 height0)).2 !! a.
Proof.
  pose proof (matrix_calls_store_sound cs _ (new_sketch_store_sound width0 height0))
    as Hs.
  split; [exact Hs|].
  destruct Hs as (_ & Hmvs & Hps & Hne & _).
  intros t a Ha.
  destruct (transform_mutates t
              (_renderer (matrix_calls cs (new_sketch width0 height0)).1)
              (matrix_calls cs (new_sketch width0 height0)).2) as [f ->].
  apply lookup_mutate_ne. destruct Ha as [Ha| ->]; congruence.
Qed.

(** Induction over scoped code, with the statements of each scope. *)
Lemma Scoped_nested_ind (P : Scoped → Prop) :
  (∀ t, P (s_transform t)) →
  (∀ body, Forall P body → P (s_scope body)) →
  ∀ s, P s.
Proof.
  intros Ht Hs. fix IH 1. intros [t|body]; [apply Ht|].
  apply Hs. induction body as [|s body IHb]; constructor; [apply IH|exact IHb].
Qed.

Lemma run_scoped_scope body this w :
  run_scoped (s_scope body) this w =
    match run_block body this (push this w) with
    | JS.Normal (this, w) => pop this w
    | JS.Throw e st => JS.Throw e st
    end.
Proof. reflexivity. Qed.

Lemma set_uMVMatrix_twice a b this :
  set_uMVMatrix a (set_uMVMatrix b this) = set_uMVMatrix a this.
Proof. reflexivity. Qed.

Lemma run_block_frame body :
  Forall (fun s => ∀ this w, store_sound this w →
                     scoped_frame this w (run_scoped s this w)) body →
  ∀ this w, store_sound this w → scoped_frame this w (run_block body this w).
Proof.
  induction 1 as [|s body Hs Hbody IH]; intros this w Hsound; cbn [run_block].
  - exists this, w.
    split_and!; [reflexivity|exact Hsound|reflexivity|by destruct this|lia
                |by left|done].
  - destruct (Hs this w Hsound)
      as (this1 & w1 & -> & Hs1 & Hst1 & Hthis1 & Hlen1 & Hmv1 & Hfr1).
    destruct (IH this1 w1 Hs1)
      as (this2 & w2 & -> & Hs2 & Hst2 & Hthis2 & Hlen2 & Hmv2 & Hfr2).
    exists this2, w2. split_and!.
    + reflexivity.
    + exact Hs2.
    + congruence.
    + rewrite Hthis2, Hthis1. reflexivity.
    + lia.
    + destruct Hmv2 as [->|?]; [exact Hmv1|right; lia].
    + intros a Ha Hlt. rewrite Hfr2; [by apply Hfr1| |lia].
      destruct Hmv1 as [->|?]; [done|lia].
Qed.

Lemma run_scoped_frame s :
  ∀ this w, store_sound this w → scoped_frame this w (run_scoped s this w).
Proof.
  induction s as [t|body IH] using Scoped_nested_ind; intros this w Hsound.
  - cbn [run_scoped]. exists this, (transform t this w).
    destruct (transform_mutates t this w) as [f Hf].
    split_and!.
    + reflexivity.
    + by apply transform_store_sound.
    + rewrite Hf. apply stack_mutate.
    + by destruct this.
    + rewrite Hf, length_mutate. lia.
    + by left.
    + intros a Ha _. rewrite Hf. by apply lookup_mutate_ne.
  - rewrite run_scoped_scope.
    pose proof (push_store_sound this w Hsound) as Hpush.
    destruct (run_block_frame body IH this (push this w) Hpush)
      as (this1 & w1 & -> & Hs1 & Hst1 & Hthis1 & Hlen1 & Hmv1 & Hfr1).
    rewrite push_world in Hst1, Hlen1, Hmv1, Hfr1. cbn in Hst1, Hlen1, Hmv1, Hfr1.
    rewrite length_app in Hlen1, Hmv1, Hfr1. cbn in Hlen1, Hmv1, Hfr1.
    assert (Hpop : pop this1 w1 =
                   JS.Normal (set_uMVMatrix (length (matrices w)) this1,
                              set_uMVMatrixStack (uMVMatrixStack w) w1))
      by (unfold pop; by rewrite Hst1).
    rewrite Hpop. eexists _, _. split_and!.
    + reflexivity.
    + by eapply pop_store_sound.
    + reflexivity.
    + cbn. rewrite Hthis1. reflexivity.
    + cbn. lia.
    + right. cbn. lia.
    + intros a Ha Hlt. cbn. rewrite Hfr1 by (done || lia).
      by apply lookup_app_l.
Qed.

(** X2. Scopes nest. On a sound store, [push(); ...; pop()] around any
    code made of transforms and further such scopes returns (no [pop]
    inside finds the stack empty), the model-view matrix after it equals
    the one before it, the stack is as before, and no field of the renderer
    but [uMVMatrix] has changed. *)
Theorem scope_restores_matrix body this w :
  store_sound this w →
  ∃ this' w',
    run_scoped (s_scope body) this w = JS.Normal (this', w')
    ∧ deref (uMVMatrix this') w' = deref (uMVMatrix this) w
    ∧ uMVMatrixStack w' = uMVMatrixStack w
    ∧ this' = set_uMVMatrix (uMVMatrix this') this
    ∧ store_sound this' w'.
Proof.
  intros Hsound. rewrite run_scoped_scope.
  pose proof Hsound as ((Hmv & _) & _). apply allocated_lt in Hmv.
  pose proof (push_store_sound this w Hsound) as Hpush.
  assert (Hbody : Forall (fun s => ∀ this w, store_sound this w →
                                     scoped_frame this w (run_scoped s this w))
                         body).
  { apply Forall_forall. intros s _. apply run_scoped_frame. }
  destruct (run_block_frame body Hbody this (push this w) Hpush)
    as (this1 & w1 & -> & Hs1 & Hst1 & Hthis1 & Hlen1 & Hmv1 & Hfr1).
  rewrite push_world in Hst1, Hfr1. cbn in Hst1, Hfr1.
  rewrite length_app in Hfr1. cbn in Hfr1.
  assert (Hpop : pop this1 w1 =
                 JS.Normal (set_uMVMatrix (length (matrices w)) this1,
                            set_uMVMatrixStack (uMVMatrixStack w) w1))
    by (unfold pop; by rewrite Hst1).
  rewrite Hpop. eexists _, _. split_and!.
  - reflexivity.
  - unfold deref at 1. cbn. rewrite Hfr1 by lia.
    by rewrite list_lookup_middle.
  - reflexivity.
  - cbn. rewrite Hthis1. reflexivity.
  - by eapply pop_store_sound.
Qed.

End StoreInvariant.

(** ** Projection, lights and draw modes *)

Section Composition.

Context `{ML : p5_Matrix} `{HO : Host} `{DR : Driver}.

Implicit Types (r : RendererGL) (w : World).

Local Open Scope float_scope.

(** The projection matrix each call leaves, and the sketch it leaves as
    it was. *)
Lemma ortho_value (this : p5) w (l r b t n f : option float) :
  deref (uPMatrix (_renderer (ortho l r b t n f this w).1))
        (ortho l r b t n f this w).2
    = mat_ortho mat_identity
        (JS.or_default l (- p5_width this / 2))
        (JS.or_default r (p5_width this / 2))
        (JS.or_default b (- p5_height this / 2))
        (JS.or_default t (p5_height this / 2))
        (JS.or_default n 0)
        (JS.or_default f (Math_max (p5_width this) (p5_height this)))
  ∧ p5_width (ortho l r b t n f this w).1 = p5_width this
  ∧ p5_height (ortho l r b t n f this w).1 = p5_height this
  ∧ _curCamera (_renderer (ortho l r b t n f this w).1) = camera_custom.
Proof.
  unfold ortho, deref, mutate, alloc. cbn.
  by rewrite list_lookup_alter_eq, list_lookup_middle.
Qed.

Lemma perspective_value (this : p5) w (fovy aspect near far : option float) :
  deref (uPMatrix (_renderer (perspective fovy aspect near far this w).1))
        (perspective fovy aspect near far this w).2
    = mat_perspective mat_identity
        (JS.or_default fovy (60 / 180 * Math_PI))
        (JS.or_default aspect (p5_width this / p5_height this))
        (JS.or_default near
           ((p5_height this / 2.0)
            / Math_tan (JS.or_default fovy (60 / 180 * Math_PI) / 2.0) * 0.1))
        (JS.or_default far
           ((p5_height this / 2.0)
            / Math_tan (JS.or_default fovy (60 / 180 * Math_PI) / 2.0) * 10))
  ∧ p5_width (perspective fovy aspect near far this w).1 = p5_width this
  ∧ p5_height (perspective fovy aspect near far this w).1 = p5_height this
  ∧ _curCamera (_renderer (perspective fovy aspect near far this w).1)
      = camera_custom.
Proof.
  unfold perspective, deref, mutate, alloc. cbn.
  by rewrite list_lookup_alter_eq, list_lookup_middle.
Qed.

(** X3. The last projection call wins. [ortho] after [perspective] leaves
    the projection matrix [ortho] alone would leave, and [perspective]
    after [ortho] the one [perspective] alone would leave: each starts from
    a new identity matrix, and neither changes the size of the sketch the
    defaults are computed from. The camera is ['custom'] in all cases. *)
Theorem last_projection_wins (this : p5) w
    (fovy aspect near far l r b t n f : option float) :
  deref (uPMatrix (_renderer (ortho l r b t n f
                                (perspective fovy aspect near far this w).1
                                (perspective fovy aspect near far this w).2).1))
        (ortho l r b t n f
           (perspective fovy aspect near far this w).1
           (perspective fovy aspect near far this w).2).2
    = deref (uPMatrix (_renderer (ortho l r b t n f this w).1))
            (ortho l r b t n f this w).2
  ∧ deref (uPMatrix (_renderer (perspective fovy aspect near far
                                  (ortho l r b t n f this w).1
                                  (ortho l r b t n f this w).2).1))
          (perspective fovy aspect near far
             (ortho l r b t n f this w).1
             (ortho l r b t n f this w).2).2
    = deref (uPMatrix (_renderer (perspective fovy aspect near far this w).1))
            (perspective fovy aspect near far this w).2.
Proof.
  split.
  - destruct (ortho_value (perspective fovy aspect near far this w).1
                (perspective fovy aspect near far this w).2 l r b t n f)
      as (-> & _).
    destruct (ortho_value this w l r b t n f) as (-> & _).
    by destruct (perspective_value this w fovy aspect near far)
      as (_ & -> & -> & _).
  - destruct (perspective_value (ortho l r b t n f this w).1
                (ortho l r b t n f this w).2 fovy aspect near far)
      as (-> & _).
    destruct (perspective_value this w fovy aspect near far) as (-> & _).
    by destruct (ortho_value this w l r b t n f) as (_ & -> & -> & _).
Qed.

(** A light call that throws has counted nothing. *)
Lemma light_call_thrown c (this : p5) e s :
  light_call c this = JS.Throw e s →
  light_counts (_renderer s) = light_counts (_renderer this).
Proof.
  destruct c as [args|args|args]; cbn [light_call]; intros Hc; [done| |].
  - pose proof (directionalLight_counts args this) as H1. by rewrite Hc in H1.
  - pose proof (pointLight_counts args this) as H1. by rewrite Hc in H1.
Qed.

Lemma light_calls_thrown cs (this : p5) e s :
  light_calls cs this = JS.Throw e s →
  ∃ before c after s1,
    cs = (before ++ c :: after)%list
    ∧ light_calls before this = JS.Normal s1
    ∧ light_call c s1 = JS.Throw e s.
Proof.
  revert this. induction cs as [|c cs IH]; intros this Hrun;
    cbn [light_calls] in Hrun; [done|].
  destruct (light_call c this) as [s1|e1 s1] eqn:Hc.
  - destruct (IH s1 Hrun) as (before & c' & after & s2 & -> & Hbefore & Hthrow).
    exists (c :: before), c', after, s2. split_and!; [done| |done].
    cbn [light_calls]. by rewrite Hc.
  - injection Hrun as -> ->. by exists [], c, cs, this.
Qed.

(** X4. In a render pass, that is after [_update], the three counters
    are at every point the numbers of ambient, directional and point light
    calls that returned so far. A sequence that returns leaves the tally of
    its calls. When the sequence throws, it splits at the call that threw:
    the calls before it all returned, that call (a directional or a point
    light) threw on the state they left, and the counters, both on that
    state and on the state the exception leaves, hold the tally of the calls
    before it. *)
Theorem light_counters_in_a_pass cs (this : p5) w :
  match light_calls cs (set_renderer (_update (_renderer this) w).1 this) with
  | JS.Normal s => light_counts (_renderer s) = tally cs
  | JS.Throw e s =>
      ∃ before c after s1,
        cs = (before ++ c :: after)%list
        ∧ light_calls before (set_renderer (_update (_renderer this) w).1 this)
          = JS.Normal s1
        ∧ light_call c s1 = JS.Throw e s
        ∧ (∀ args, c ≠ call_ambient args)
        ∧ light_counts (_renderer s1) = tally before
        ∧ light_counts (_renderer s) = tally before
  end.
Proof.
  assert (Hcounts : ∀ cs' s',
            light_calls cs' (set_renderer (_update (_renderer this) w).1 this)
              = JS.Normal s' →
            light_counts (_renderer s') = tally cs').
  { intros cs' s' Hrun. rewrite (light_calls_counts _ _ _ Hrun). cbn.
    by destruct (tally cs') as [[a d] p]. }
  destruct (light_calls cs (set_renderer (_update (_renderer this) w).1 this))
    as [s|e s] eqn:Hrun.
  - by apply Hcounts.
  - destruct (light_calls_thrown _ _ _ _ Hrun)
      as (before & c & after & s1 & Hcs & Hbefore & Hthrow).
    exists before, c, after, s1. split_and!; try done.
    + intros args ->. discriminate Hthrow.
    + by apply Hcounts.
    + rewrite (light_call_thrown c s1 e s Hthrow). by apply Hcounts.
Qed.

(** X5. Over any sequence of shader, colour, draw-mode and light calls
    on a new renderer, the vertex stage was compiled exactly once for each
    key of the material hash, no key holds [undefined], and no two keys
    hold the same program: each cached pair has a program of its own. *)
Theorem one_program_per_key cs (width0 height0 : float) :
  gl.compilations gl.VERTEX_SHADER
    (GL (api_calls cs (RendererGL_new width0 height0 World_new).1))
    = size (mHash (api_calls cs (RendererGL_new width0 height0 World_new).1))
  ∧ (∀ k, mHash (api_calls cs (RendererGL_new width0 height0 World_new).1) !! k
          ≠ Some undefined)
  ∧ (∀ k1 k2 p1 p2,
       mHash (api_calls cs (RendererGL_new width0 height0 World_new).1) !! k1
         = Some (program p1) →
       mHash (api_calls cs (RendererGL_new width0 height0 World_new).1) !! k2
         = Some (program p2) →
       Handle_same (program p1) (program p2) = true → k1 = k2).
Proof.
  pose proof (api_calls_sound cs _ (new_renderer_sound width0 height0))
    as ((Hdef & Hid & Hinj & Hsize & _) & _).
  split_and!.
  - exact Hsize.
  - intros k Hk. by apply (Hdef _ _ Hk).
  - intros k1 k2 p1 p2 H1 H2 Hsame. apply (Hinj _ _ _ _ H1 H2).
    cbn in Hsame. by apply Nat.eqb_eq.
Qed.

(** X6. After any such sequence on a new renderer, [_getCurShaderId]
    gives a shader id, never [undefined], and the id is a key of the
    material hash, so that the lookup [mHash[shaderKey]] of the drawing code
    finds an entry. *)
Theorem getCurShaderId_is_cached cs (width0 height0 : float) :
  ∃ id,
    (_getCurShaderId (api_calls cs (RendererGL_new width0 height0 World_new).1)).1
      = Some id
    ∧ materialInHash id
        (_getCurShaderId
           (api_calls cs (RendererGL_new width0 height0 World_new).1)).2 = true.
Proof.
  pose proof (api_calls_sound cs _ (new_renderer_sound width0 height0)) as Hs.
  pose proof (getCurShaderId_sound _ Hs) as [(_ & _ & _ & _ & Hcur) _].
  set (r := api_calls cs (RendererGL_new width0 height0 World_new).1) in *.
  assert (Hsome : is_Some (_getCurShaderId r).1).
  { destruct Hs as [Hcore Hmode]. unfold _getCurShaderId. cbn [fst].
    pose proof (λ v f i, proj2 (getShader_core v f i r Hcore)) as Hget.
    assert (Hkept : curShaderId r ≠ None → is_Some (curShaderId r))
      by (by destruct (curShaderId r)).
    destruct (drawMode r) eqn:Hm; cbn [is_fill negb andb].
    - case_bool_decide as Hnone; [rewrite Hget; eauto|].
      rewrite andb_false_r. by apply Hkept.
    - rewrite andb_true_r.
      destruct (isImmediateDrawing r); [rewrite Hget; eauto|].
      by apply Hmode.
    - case_bool_decide as Hnone; [rewrite Hget; eauto|].
      rewrite andb_false_r. by apply Hkept.
    - case_bool_decide as Hnone; [rewrite Hget; eauto|].
      rewrite andb_false_r. by apply Hkept. }
  destruct Hsome as [id Hid]. exists id. split; [exact Hid|].
  apply Hcur. rewrite <- Hid. reflexivity.
Qed.

Lemma Handle_same_refl h : Handle_same h h = true.
Proof. destruct h; cbn; [done|done|apply Nat.eqb_refl]. Qed.

Lemma useShader_bound h r : Handle_same h (curShader (_useShader h r)) = true.
Proof.
  unfold _useShader. destruct (Handle_same h (curShader r)) eqn:Hsame;
    [exact Hsame|apply Handle_same_refl].
Qed.

Lemma useShader_same h r :
  Handle_same h (curShader r) = true → _useShader h r = r.
Proof. intros Hsame. unfold _useShader. by rewrite Hsame. Qed.

Lemma useShader_switches h r :
  (program_switches (GL (_useShader h r)) ≤ S (program_switches (GL r)))%nat
  ∧ isImmediateDrawing (_useShader h r) = isImmediateDrawing r.
Proof. unfold _useShader. case_match; cbn; split; (lia || done). Qed.

Lemma bind_view_setUniform name data r :
  bind_view (_setUniform name data r) = bind_view r.
Proof. unfold _setUniform. repeat case_match; reflexivity. Qed.

Lemma bind_view_applyColorBlend args r :
  bind_view (_applyColorBlend args r).2 = bind_view r.
Proof. unfold _applyColorBlend. case_match; reflexivity. Qed.

Lemma bind_view_initShaders vertId fragId imm r :
  bind_view (_initShaders vertId fragId imm r).2 = bind_view r.
Proof. unfold _initShaders. repeat case_match; reflexivity. Qed.

Lemma bind_view_getShader vertId fragId imm r :
  bind_view (_getShader vertId fragId imm r).2 = bind_view r.
Proof.
  destruct (materialInHash (vertId ++ "|" ++ fragId) r) eqn:Hin.
  - by rewrite getShader_cached.
  - rewrite getShader_fresh by done. cbn [snd].
    rewrite <- (bind_view_initShaders vertId fragId imm r). reflexivity.
Qed.

(** [fill] reduced to its steps, for either mode. *)
Lemma fill_steps args r :
  fill args r =
    (if isImmediateDrawing r then (fun r' => r')
     else _setUniform "uMaterialColor" (numbers (_array (color args))))
      (_useShader
         (_getShader (fill_pair (isImmediateDrawing r)).1
            (fill_pair (isImmediateDrawing r)).2 JS.Undefined
            (set_drawMode mode_fill
               (set_curFillColor (_array (color args))
                  (_applyColorBlend args r).2))).1
         (_getShader (fill_pair (isImmediateDrawing r)).1
            (fill_pair (isImmediateDrawing r)).2 JS.Undefined
            (set_drawMode mode_fill
               (set_curFillColor (_array (color args))
                  (_applyColorBlend args r).2))).2).
Proof.
  unfold fill.
  assert (Hc : (_applyColorBlend args r).1 = _array (color args))
    by (unfold _applyColorBlend; by case_match).
  assert (Hi : isImmediateDrawing (_applyColorBlend args r).2
               = isImmediateDrawing r)
    by (unfold _applyColorBlend; by case_match).
  destruct (_applyColorBlend args r) as [colors r1]. cbn [fst snd] in *.
  subst colors. cbn [isImmediateDrawing set_drawMode set_curFillColor].
  rewrite Hi. destruct (isImmediateDrawing r); cbn [fill_pair fst snd].
  - by destruct (_getShader "immediateVert" "vertexColorFrag" _ _).
  - by destruct (_getShader "normalVert" "basicFrag" _ _).
Qed.

(** After [fill] the program of its mode is cached and current. *)
Lemma fill_binds args r :
  materialInHash ((fill_pair (isImmediateDrawing r)).1 ++ "|"
                  ++ (fill_pair (isImmediateDrawing r)).2) (fill args r) = true
  ∧ Handle_same
      (mHash_at ((fill_pair (isImmediateDrawing r)).1 ++ "|"
                 ++ (fill_pair (isImmediateDrawing r)).2) (fill args r))
      (curShader (fill args r)) = true
  ∧ isImmediateDrawing (fill args r) = isImmediateDrawing r.
Proof.
  rewrite fill_steps.
  set (v := (fill_pair (isImmediateDrawing r)).1).
  set (f := (fill_pair (isImmediateDrawing r)).2).
  set (r2 := set_drawMode mode_fill _).
  destruct (getShader_stores v f JS.Undefined r2) as [Hat Hin].
  pose proof (bind_view_getShader v f JS.Undefined r2) as Hbv.
  set (sp := (_getShader v f JS.Undefined r2).1) in *.
  set (r3 := (_getShader v f JS.Undefined r2).2) in *.
  clearbody v f.
  assert (Himm : isImmediateDrawing r3 = isImmediateDrawing r).
  { transitivity (isImmediateDrawing r2); [by injection Hbv|].
    unfold r2. cbn. pose proof (bind_view_applyColorBlend args r) as Hb.
    by injection Hb. }
  pose proof (useShader_bound sp r3) as Hb.
  destruct (useShader_switches sp r3) as [_ Hi].
  assert (Hm : mHash (_useShader sp r3) = mHash r3) by apply mHash_useShader.
  destruct (isImmediateDrawing r).
  - unfold materialInHash, mHash_at in *. rewrite Hm.
    split_and!; [exact Hin|by rewrite Hat|congruence].
  - pose proof (bind_view_setUniform "uMaterialColor"
                  (numbers (_array (color args))) (_useShader sp r3)) as Hs.
    unfold materialInHash, mHash_at in *.
    rewrite mHash_setUniform, Hm. injection Hs as Hs1 Hs2 Hs3.
    split_and!; [exact Hin|rewrite Hat; by rewrite Hs2|congruence].
Qed.

(** With the program of its mode cached and current, [fill] tells the
    context nothing about programs. *)
Lemma fill_already_bound args r :
  materialInHash ((fill_pair (isImmediateDrawing r)).1 ++ "|"
                  ++ (fill_pair (isImmediateDrawing r)).2) r = true →
  Handle_same
    (mHash_at ((fill_pair (isImmediateDrawing r)).1 ++ "|"
               ++ (fill_pair (isImmediateDrawing r)).2) r)
    (curShader r) = true →
  program_switches (GL (fill args r)) = program_switches (GL r).
Proof.
  intros Hin Hsame. rewrite fill_steps.
  set (v := (fill_pair (isImmediateDrawing r)).1) in *.
  set (f := (fill_pair (isImmediateDrawing r)).2) in *.
  pose proof (bind_view_applyColorBlend args r) as Hb.
  pose proof (mHash_applyColorBlend args r) as Hm.
  set (r2 := set_drawMode mode_fill _).
  assert (Hm2 : mHash r2 = mHash r) by (unfold r2; cbn; exact Hm).
  assert (Hb2 : bind_view r2 = bind_view r) by (unfold r2; exact Hb).
  rewrite getShader_cached
    by (unfold materialInHash, mHash_at in *; by rewrite Hm2).
  cbn [fst snd].
  rewrite useShader_same.
  - assert (Hend : program_switches (GL (set_curShaderId (Some (v ++ "|" ++ f)) r2))
                   = program_switches (GL r)) by (by injection Hb2).
    destruct (isImmediateDrawing r); [exact Hend|].
    pose proof (bind_view_setUniform "uMaterialColor"
                  (numbers (_array (color args)))
                  (set_curShaderId (Some (v ++ "|" ++ f)) r2)) as Hs.
    injection Hs as _ _ ->. exact Hend.
  - cbn. unfold mHash_at in *. rewrite Hm2.
    injection Hb2 as _ -> _. exact Hsame.
Qed.

(** X7. Programs are switched only when needed: the second of two [fill]
    calls in a row issues no [useProgram], whatever the colours and whatever
    the renderer was before; and a [fill] issues at most one. *)
Theorem fill_twice_switches_once args1 args2 r :
  program_switches (GL (fill args2 (fill args1 r)))
    = program_switches (GL (fill args1 r))
  ∧ (program_switches (GL (fill args1 r)) ≤ S (program_switches (GL r)))%nat.
Proof.
  split.
  - destruct (fill_binds args1 r) as (Hin & Hsame & Himm).
    apply fill_already_bound; by rewrite Himm.
  - rewrite fill_steps.
    set (v := (fill_pair (isImmediateDrawing r)).1).
    set (f := (fill_pair (isImmediateDrawing r)).2).
    set (r2 := set_drawMode mode_fill _).
    pose proof (bind_view_getShader v f JS.Undefined r2) as Hbv.
    destruct (useShader_switches (_getShader v f JS.Undefined r2).1
                (_getShader v f JS.Undefined r2).2) as [Hle _].
    assert (H2 : program_switches (GL r2) = program_switches (GL r)).
    { pose proof (bind_view_applyColorBlend args1 r) as Hb. by injection Hb. }
    apply (f_equal snd) in Hbv. unfold bind_view in Hbv. cbn [snd] in Hbv.
    clearbody v f r2.
    destruct (isImmediateDrawing r); [cbv beta; lia|].
    pose proof (bind_view_setUniform "uMaterialColor"
                  (numbers (_array (color args1)))
                  (_useShader (_getShader v f JS.Undefined r2).1
                     (_getShader v f JS.Undefined r2).2)) as Hs.
    apply (f_equal snd) in Hs. unfold bind_view in Hs. cbn [snd] in Hs.
    rewrite Hs. lia.
Qed.

(** X8. [noFill] leaves blending enabled and the depth mask as it found
    it: after a translucent [fill] the wireframe is drawn with depth writes
    still off. [stroke] sets no blending state at all, whatever the alpha of
    the stroke colour and whatever the draw mode. *)
Theorem noFill_stroke_blending args r :
  gl.isEnabled gl.BLEND (GL (noFill r)) = true
  ∧ gl.DEPTH_WRITEMASK (GL (noFill r)) = gl.DEPTH_WRITEMASK (GL r)
  ∧ blending (stroke args r) = blending r.
Proof.
  assert (Hstroke : ∀ r', blending (_setNoFillStroke r') = blending r').
  { intros r'. unfold _setNoFillStroke.
    by rewrite blending_setUniform, blending_useShader. }
  assert (Hno : blending (noFill r) = (true, gl.DEPTH_WRITEMASK (GL r))).
  { unfold noFill.
    pose proof (blending_getShader "normalVert" "basicFrag" JS.Undefined r) as Hg.
    destruct (_getShader "normalVert" "basicFrag" JS.Undefined r) as [sp r2].
    cbn [snd] in Hg. rewrite Hstroke.
    pose proof (blending_useShader sp r2) as Hu. rewrite Hg in Hu.
    unfold blending in *. cbn. by injection Hu as _ ->. }
  unfold blending in Hno. injection Hno as Hb Hd. split_and!; [done|done|].
  unfold stroke. case_match; [|reflexivity]. by rewrite Hstroke.
Qed.

End Composition.

(** ** The uniform table *)

Section UniformTable.

Context `{DR : Driver}.

Lemma introspect_uniforms_loop prog vsrc fsrc :
  introspect_uniforms prog vsrc fsrc
    = (fold_left (uniform_step prog) (ACTIVE_UNIFORMS vsrc fsrc) (∅, O)).1.
Proof.
  reflexivity.
Qed.

Lemma is_SAMPLER_2D_spec t : is_SAMPLER_2D t = true ↔ t = gl.SAMPLER_2D.
Proof. by destruct t. Qed.

Lemma uniform_step_sound prog table next uniformInfo :
  uniforms_sound prog table next →
  uniforms_sound prog (uniform_step prog (table, next) uniformInfo).1
                      (uniform_step prog (table, next) uniformInfo).2
  ∧ (uniform_step prog (table, next) uniformInfo).2
    = next + samplers [uniformInfo].
Proof.
  intros [Hentry Hdistinct]. unfold uniform_step, samplers.
  cbn [fst snd List.filter].
  set (k0 := trim_array_suffix _ _).
  pose proof (is_SAMPLER_2D_spec (gl.info_type uniformInfo)) as Hspec.
  destruct (is_SAMPLER_2D (gl.info_type uniformInfo)); cbn [length].
  - split; [split|lia].
    + intros k u. rewrite lookup_insert. case_decide as Hk.
      * intros [= <-]. cbn. split_and!; [done|by subst k0|done|lia|by apply Hspec].
      * intros Hu. destruct (Hentry k u Hu) as (? & ? & ? & Hi).
        split_and!; try done.
        destruct (u_samplerIndex u); [destruct Hi; split; [lia|done]|done].
    + intros k1 k2 u1 u2 i. rewrite !lookup_insert.
      case_decide as Hk1; case_decide as Hk2; intros H1 H2 Hi1 Hi2.
      * congruence.
      * injection H1 as <-. cbn in Hi1. injection Hi1 as <-.
        destruct (Hentry k2 u2 H2) as (_ & _ & _ & Hi). rewrite Hi2 in Hi. lia.
      * injection H2 as <-. cbn in Hi2. injection Hi2 as <-.
        destruct (Hentry k1 u1 H1) as (_ & _ & _ & Hi). rewrite Hi1 in Hi. lia.
      * by eapply Hdistinct.
  - split; [split|lia].
    + intros k u. rewrite lookup_insert. case_decide as Hk.
      * intros [= <-]. cbn. split_and!; [done|by subst k0|done|].
        intros Ht. apply Hspec in Ht. done.
      * intros Hu. destruct (Hentry k u Hu) as (? & ? & ? & Hi).
        split_and!; try done.
    + intros k1 k2 u1 u2 i. rewrite !lookup_insert.
      case_decide as Hk1; case_decide as Hk2; intros H1 H2 Hi1 Hi2.
      * congruence.
      * injection H1 as <-. cbn in Hi1. done.
      * injection H2 as <-. cbn in Hi2. done.
      * by eapply Hdistinct.
Qed.

Lemma uniform_loop_sound prog infos : ∀ table next,
  uniforms_sound prog table next →
  uniforms_sound prog (fold_left (uniform_step prog) infos (table, next)).1
                      (fold_left (uniform_step prog) infos (table, next)).2
  ∧ (fold_left (uniform_step prog) infos (table, next)).2
    = next + samplers infos.
Proof.
  induction infos as [|i infos IH]; intros table next Hs; cbn [fold_left].
  - split; [exact Hs|]. unfold samplers. cbn. lia.
  - destruct (uniform_step_sound prog table next i Hs) as [Hs1 Hn1].
    destruct (uniform_step prog (table, next) i) as [table1 next1].
    cbn [fst snd] in *. destruct (IH table1 next1 Hs1) as [Hs2 Hn2].
    split; [exact Hs2|]. rewrite Hn2, Hn1. unfold samplers. cbn [List.filter].
    destruct (is_SAMPLER_2D (gl.info_type i)); cbn [length]; lia.
Qed.

Lemma introspect_uniforms_sound prog vsrc fsrc :
  uniforms_sound prog (introspect_uniforms prog vsrc fsrc)
    (samplers (ACTIVE_UNIFORMS vsrc fsrc)).
Proof.
  rewrite introspect_uniforms_loop.
  assert (H0 : uniforms_sound prog ∅ O).
  { split; [intros k u|intros k1 k2 u1 u2 i]; by rewrite lookup_empty. }
  destruct (uniform_loop_sound prog (ACTIVE_UNIFORMS vsrc fsrc) ∅ O H0)
    as [Hs Hn].
  by rewrite Hn in Hs.
Qed.

(** X9. Texture units. In the uniform table [_initShaders] builds, for
    any list of active uniforms the implementation reports (names may repeat
    or collide after trimming): a uniform has a [samplerIndex] exactly when
    its type is [SAMPLER_2D]; the index is below the number of samplers
    reported; and no two entries of the table have the same index, so
    [_setUniform] never binds two samplers of a program to one texture
    unit. *)
Theorem sampler_units_distinct prog vsrc fsrc :
  (∀ k u, introspect_uniforms prog vsrc fsrc !! k = Some u →
     match u_samplerIndex u with
     | Some i => i < samplers (ACTIVE_UNIFORMS vsrc fsrc)
                 ∧ u_type u = gl.SAMPLER_2D
     | None => u_type u ≠ gl.SAMPLER_2D
     end)
  ∧ (∀ k1 k2 u1 u2 i,
       introspect_uniforms prog vsrc fsrc !! k1 = Some u1 →
       introspect_uniforms prog vsrc fsrc !! k2 = Some u2 →
       u_samplerIndex u1 = Some i → u_samplerIndex u2 = Some i → k1 = k2).
Proof.
  destruct (introspect_uniforms_sound prog vsrc fsrc) as [Hentry Hdistinct].
  split; [|exact Hdistinct].
  intros k u Hu. by destruct (Hentry k u Hu) as (_ & _ & _ & Hi).
Qed.

(** The text before the first ["[0]"] of a name has no ["[0]"] in it. *)
Lemma no_suffix_in_prefix (s : string) (k : nat) :
  String.index 0 "[0]" s = Some k →
  String.index 0 "[0]" (String.substring 0 k s) = None.
Proof.
  intros Hk.
  destruct (String.index 0 "[0]" (String.substring 0 k s)) as [j|] eqn:Hj;
    [exfalso|done].
  apply String.index_correct1 in Hj. cbn [String.length] in Hj.
  assert (Hget : ∀ p, p < 3 →
            String.get p "[0]" = String.get (p + j) (String.substring 0 k s)).
  { intros p Hp. rewrite <- Hj at 1. by apply String.substring_correct1. }
  assert (Hlt : j + 2 < k).
  { destruct (decide (j + 2 < k)) as [|Hge]; [done|].
    specialize (Hget 2 ltac:(lia)).
    rewrite String.substring_correct2 in Hget by lia. done. }
  apply (String.index_correct2 _ _ _ _ Hk j); [lia|lia|].
  cbn [String.length]. apply String.get_correct. intros p.
  destruct (decide (p < 3)) as [Hp|Hp].
  - rewrite String.substring_correct1 by done. rewrite (Hget p Hp).
    rewrite String.substring_correct1 by lia. f_equal. lia.
  - rewrite String.substring_correct2 by lia.
    destruct p as [|[|[|p]]]; (lia || reflexivity).
Qed.

Lemma trim_has_no_suffix size name :
  (1 < size)%Z → String.index 0 "[0]" (trim_array_suffix size name) = None.
Proof.
  intros Hsize. unfold trim_array_suffix.
  destruct (Z.ltb_spec 1 size); [|lia].
  destruct (String.index 0 "[0]" name) as [k|] eqn:Hk; [|reflexivity].
  by apply no_suffix_in_prefix.
Qed.

Lemma trim_of_single size name :
  (size ≤ 1)%Z → trim_array_suffix size name = name.
Proof.
  intros Hsize. unfold trim_array_suffix. by destruct (Z.ltb_spec 1 size); [lia|].
Qed.

Lemma array_writes_issue c r :
  is_array_write c = false → array_writes (GL (issue c r)) = array_writes (GL r).
Proof. intros Hc. unfold array_writes. cbn. by rewrite Hc. Qed.

(** X10. Arrays are filed under a trimmed name. In a program built by
    [_initShaders], a uniform reported with a size above one sits under a
    name without ["[0]"]. So a name with ["[0]"] in it, which is how the
    light functions address their five arrays, finds either nothing or a
    uniform of size at most one reported under exactly that name, and
    [_setUniform] with such a name never issues an array write
    ([uniform1fv] to [uniform4fv]). *)
Theorem suffixed_name_never_array prog attrs vsrc fsrc name data r :
  curShader r = program {| program_id := prog; attributes := attrs;
                           uniforms := introspect_uniforms prog vsrc fsrc |} →
  is_Some (String.index 0 "[0]" name) →
  array_writes (GL (_setUniform name data r)) = array_writes (GL r)
  ∧ ∀ u, introspect_uniforms prog vsrc fsrc !! name = Some u →
      (u_size u ≤ 1)%Z ∧ gl.loc_name (u_location u) = name
      ∧ gl.loc_program (u_location u) = prog.
Proof.
  intros Hcur Hname.
  assert (Hfound : ∀ u, introspect_uniforms prog vsrc fsrc !! name = Some u →
            (u_size u ≤ 1)%Z ∧ gl.loc_name (u_location u) = name
            ∧ gl.loc_program (u_location u) = prog).
  { intros u Hu.
    destruct (introspect_uniforms_sound prog vsrc fsrc) as [Hentry _].
    destruct (Hentry name u Hu) as (_ & Htrim & Hprog & _).
    destruct (decide (1 < u_size u)%Z) as [Hlt|Hle].
    - pose proof (trim_has_no_suffix (u_size u)
                    (gl.loc_name (u_location u)) Hlt) as Hnone.
      rewrite <- Htrim in Hnone. rewrite Hnone in Hname.
      by destruct Hname.
    - rewrite trim_of_single in Htrim by lia. split_and!; [lia|done|done]. }
  split; [|exact Hfound].
  unfold _setUniform. rewrite Hcur. cbn [uniforms].
  destruct (introspect_uniforms prog vsrc fsrc !! name) as [u|] eqn:Hu;
    [|reflexivity].
  destruct (Hfound u eq_refl) as (Hsize & _).
  destruct (Z.ltb_spec 1 (u_size u)); [lia|].
  destruct (u_type u); try reflexivity.
  by destruct (JS.is_true data); rewrite array_writes_issue.
Qed.

End UniformTable.

(** ** Context attributes *)

Lemma or_truthy a b : Attributes.truthy b = true →
  Attributes.truthy (Attributes.or a b) = true.
Proof. intros Hb. unfold Attributes.or. by destruct (Attributes.truthy a) eqn:Ha. Qed.

Lemma RendererGL_new_flags attr :
  Attributes.truthy (Attributes.alpha (Attributes.RendererGL_new attr)) = true
  ∧ Attributes.truthy (Attributes.depth (Attributes.RendererGL_new attr)) = true
  ∧ Attributes.truthy (Attributes.stencil (Attributes.RendererGL_new attr)) = true.
Proof. split_and!; by apply or_truthy. Qed.

Lemma setAttributes_outcome arguments a :
  Attributes.setAttributes arguments a = a
  ∨ ∃ attr, Attributes.setAttributes arguments a = Attributes.RendererGL_new attr.
Proof.
  unfold Attributes.setAttributes.
  destruct arguments as [|x [|y [|z rest]]];
    [by left|right|right|by left]; by eexists.
Qed.

(** X11. Alpha, depth and stencil cannot be switched off. Whatever
    [attr] the sketch's renderer was constructed with and whatever
    [setAttributes] calls followed, with any arguments (among them
    [setAttributes('depth', false)] and [setAttributes({alpha: false})]), the
    renderer in place holds truthy [alpha], [depth] and [stencil]
    attributes: a falsy request is replaced by [true] when [_resetContext]
    constructs the new renderer. *)
Theorem attributes_never_switched_off attr calls :
  Attributes.truthy (Attributes.alpha (Attributes.configured attr calls)) = true
  ∧ Attributes.truthy (Attributes.depth (Attributes.configured attr calls)) = true
  ∧ Attributes.truthy (Attributes.stencil (Attributes.configured attr calls)) = true.
Proof.
  unfold Attributes.configured.
  pose proof (RendererGL_new_flags attr) as H0.
  revert H0. generalize (Attributes.RendererGL_new attr).
  induction calls as [|arguments calls IH]; intros a Ha; [exact Ha|].
  cbn [fold_left]. apply IH.
  destruct (setAttributes_outcome arguments a) as [->|[attr' ->]];
    [exact Ha|apply RendererGL_new_flags].
Qed.

(** X12. The key-value form forgets every other setting. After
    [setAttributes(key, value)] each of the six attributes holds [value] if
    [key] names it and [value] is truthy, and else the default the
    constructor gives with no [attr] ([true] for alpha, depth and stencil,
    [false] for the other three), whatever the attributes were before: an
    earlier [setAttributes('antialias', true)] is undone by a later
    [setAttributes('preserveDrawingBuffer', true)]. *)
Theorem setAttributes_pair_resets_the_rest key value a k :
  k ∈ Attributes.names →
  Attributes.read (Attributes.setAttributes [key; value] a) k
    = Attributes.or
        (Attributes.named key k value
           (Attributes.read (Attributes.RendererGL_new JS.Undefined) k))
        (Attributes.read (Attributes.RendererGL_new JS.Undefined) k).
Proof.
  intros Hk. unfold Attributes.names in Hk.
  repeat (apply elem_of_cons in Hk as [->|Hk]);
    [reflexivity..|by apply elem_of_nil in Hk].
Qed.

Lemma read_assign key v a k :
  k ∈ Attributes.names →
  Attributes.read (Attributes.assign key v a) k
    = if String.eqb key k then v else Attributes.read a k.
Proof.
  intros Hk. unfold Attributes.names in Hk.
  repeat (apply elem_of_cons in Hk as [->|Hk]);
    [..|by apply elem_of_nil in Hk];
    unfold Attributes.assign;
    destruct (String.eqb_spec key "alpha") as [->|?]; try done;
    destruct (String.eqb_spec key "depth") as [->|?]; try done;
    destruct (String.eqb_spec key "stencil") as [->|?]; try done;
    destruct (String.eqb_spec key "antialias") as [->|?]; try done;
    destruct (String.eqb_spec key "premultipliedAlpha") as [->|?]; try done;
    by destruct (String.eqb_spec key "preserveDrawingBuffer") as [->|?].
Qed.

Lemma read_assigned obj k ks : ∀ a,
  k ∈ Attributes.names →
  Attributes.read
    (fold_left (fun a key => Attributes.assign key (Attributes.field obj key) a)
       ks a) k
    = if bool_decide (k ∈ ks) then Attributes.field obj k
      else Attributes.read a k.
Proof.
  induction ks as [|key ks IH]; intros a Hk; cbn [fold_left].
  - by rewrite bool_decide_eq_false_2 by apply not_elem_of_nil.
  - rewrite IH by done. rewrite read_assign by done.
    destruct (decide (k ∈ ks)) as [Hin|Hnin].
    + rewrite !bool_decide_eq_true_2; [done| |done]. by right.
    + rewrite (bool_decide_eq_false_2 (k ∈ ks)) by done.
      destruct (String.eqb_spec key k) as [->|Hne].
      * rewrite bool_decide_eq_true_2; [done|by left].
      * rewrite bool_decide_eq_false_2; [done|].
        intros [->|?]%elem_of_cons; done.
Qed.

Lemma or_or x d : Attributes.or (Attributes.or x d) d = Attributes.or x d.
Proof.
  unfold Attributes.or. destruct (Attributes.truthy x) eqn:Hx; [by rewrite Hx|].
  by destruct (Attributes.truthy d).
Qed.

Lemma read_resetContext a k :
  k ∈ Attributes.names →
  Attributes.read (Attributes._resetContext a) k
    = Attributes.or (Attributes.read a k)
        (Attributes.read (Attributes.RendererGL_new JS.Undefined) k).
Proof.
  intros Hk. unfold Attributes.names in Hk.
  repeat (apply elem_of_cons in Hk as [->|Hk]);
    [reflexivity..|by apply elem_of_nil in Hk].
Qed.

Lemma read_RendererGL_new attr k :
  k ∈ Attributes.names →
  ∃ x, Attributes.read (Attributes.RendererGL_new attr) k
       = Attributes.or x (Attributes.read (Attributes.RendererGL_new JS.Undefined) k).
Proof.
  intros Hk. unfold Attributes.names in Hk.
  repeat (apply elem_of_cons in Hk as [->|Hk]);
    [by eexists..|by apply elem_of_nil in Hk].
Qed.

(** X19. The object form merges. After [setAttributes(obj)] on a
    renderer as the constructor made it, an attribute that is a property of
    [obj] holds the value [obj] gives it if that is truthy and its default if
    not, and every other attribute keeps the value it had: unlike the
    key-value form, the object form leaves earlier settings in place. *)
Theorem setAttributes_object_merges attr props k :
  k ∈ Attributes.names →
  Attributes.read
    (Attributes.setAttributes [JS.Object props] (Attributes.RendererGL_new attr)) k
    = if bool_decide (k ∈ props.*1)
      then Attributes.or (JS.assoc k props)
             (Attributes.read (Attributes.RendererGL_new JS.Undefined) k)
      else Attributes.read (Attributes.RendererGL_new attr) k.
Proof.
  intros Hk. unfold Attributes.setAttributes.
  rewrite read_resetContext, read_assigned by done.
  cbn [Attributes.keys Attributes.field].
  case_bool_decide; [reflexivity|].
  destruct (read_RendererGL_new attr k Hk) as [x ->]. apply or_or.
Qed.

(** ** The pixel array *)

Section PixelArrayFacts.

Local Open Scope Z_scope.

Lemma length_store i v px : length (PixelArray.store i v px) = length px.
Proof. unfold PixelArray.store. case_match; [apply length_insert|done]. Qed.

Lemma length_write idx rgba px : length (PixelArray.write idx rgba px) = length px.
Proof.
  destruct rgba as [[[r g] b] a]. unfold PixelArray.write. by rewrite !length_store.
Qed.

Lemma lookup_store i v px (p : nat) :
  PixelArray.store i v px !! p
    = if bool_decide (0 ≤ i < Z.of_nat (length px) ∧ p = Z.to_nat i)
      then Some (PixelArray.clamp v) else px !! p.
Proof.
  unfold PixelArray.store.
  destruct (Z.leb_spec 0 i), (Z.ltb_spec i (Z.of_nat (length px))); cbn [andb];
    case_bool_decide as Hd; try lia; try done.
  - destruct Hd as [_ ->]. apply list_lookup_insert_eq. lia.
  - apply list_lookup_insert_ne. intros <-. apply Hd. split; [lia|done].
Qed.

Lemma lookup_write idx rgba px (p : nat) :
  0 ≤ idx → idx + 3 < Z.of_nat (length px) →
  PixelArray.write idx rgba px !! p
    = if bool_decide (idx ≤ Z.of_nat p < idx + 4)
      then PixelArray.bytes rgba !! Z.to_nat (Z.of_nat p - idx) else px !! p.
Proof.
  intros H0 Hlen. destruct rgba as [[[r g] b] a]. unfold PixelArray.write, PixelArray.bytes.
  rewrite !lookup_store, !length_store.
  repeat case_bool_decide; try lia; try done.
  - replace (Z.to_nat (Z.of_nat p - idx)) with 3%nat by lia. done.
  - replace (Z.to_nat (Z.of_nat p - idx)) with 2%nat by lia. done.
  - replace (Z.to_nat (Z.of_nat p - idx)) with 1%nat by lia. done.
  - replace (Z.to_nat (Z.of_nat p - idx)) with 0%nat by lia. done.
Qed.


Lemma lookup_writes cs rgba : ∀ px C k,
  0 ≤ C → 0 ≤ k < 4 →
  Forall (fun c => 0 ≤ c ∧ 4 * c + 3 < Z.of_nat (length px)) cs →
  fold_left (fun px c => PixelArray.write (4 * c) rgba px) cs px !! Z.to_nat (4 * C + k)
    = if bool_decide (C ∈ cs) then PixelArray.bytes rgba !! Z.to_nat k
      else px !! Z.to_nat (4 * C + k).
Proof.
  induction cs as [|c cs IH]; intros px C k HC Hk Hall; cbn [fold_left].
  - by rewrite bool_decide_eq_false_2 by apply not_elem_of_nil.
  - apply Forall_cons in Hall as [[Hc Hlen] Hall].
    rewrite IH; [|done|done|by rewrite length_write].
    rewrite lookup_write by lia.
    destruct (decide (C ∈ cs)) as [Hin|Hnin].
    + rewrite !bool_decide_eq_true_2; [done| |done]. by right.
    + rewrite (bool_decide_eq_false_2 (C ∈ cs)) by done.
      destruct (decide (C = c)) as [->|Hne].
      * rewrite !bool_decide_eq_true_2; [|by left|lia]. f_equal. lia.
      * rewrite !bool_decide_eq_false_2; [done| |lia].
        intros [->|Hin]%elem_of_cons; done.
Qed.

Lemma length_writes cs rgba : ∀ px,
  length (fold_left (fun px c => PixelArray.write (4 * c) rgba px) cs px) = length px.
Proof.
  induction cs as [|c cs IH]; intros px; cbn [fold_left]; [done|].
  by rewrite IH, length_write.
Qed.

Lemma fold_left_fmap {A B C : Type} (f : A → C → A) (g : B → C)
    (ys : list B) : ∀ a,
  fold_left f (g <$> ys) a = fold_left (fun a j => f a (g j)) ys a.
Proof. induction ys as [|j ys IH]; intros a; cbn; [done|apply IH]. Qed.

Lemma fold_left_nested {A B C : Type} (f : A → C → A) (g : B → B → C)
    (xs ys : list B) : ∀ a,
  fold_left (fun a i => fold_left (fun a j => f a (g i j)) ys a) xs a
    = fold_left f (i ← xs; (g i <$> ys)) a.
Proof.
  induction xs as [|i xs IH]; intros a; cbn [fold_left]; [done|].
  rewrite IH, bind_cons, fold_left_app. by rewrite fold_left_fmap.
Qed.

Lemma elem_of_upto i n : i ∈ PixelArray.upto n ↔ 0 ≤ i < n.
Proof.
  unfold PixelArray.upto. rewrite list_elem_of_fmap. split.
  - intros (k & -> & Hk). apply elem_of_seq in Hk. lia.
  - intros Hi. exists (Z.to_nat i). split; [lia|]. apply elem_of_seq. lia.
Qed.


Lemma base_unique (W a b a' b' : Z) :
  0 ≤ b < W → 0 ≤ b' < W → a * W + b = a' * W + b' → a = a' ∧ b = b'.
Proof. intros Hb Hb' Heq. assert (a = a') by nia. subst. lia. Qed.

Lemma elem_of_cells d w x y C :
  C ∈ (i ← PixelArray.upto d; ((fun i j => (y * d + j) * w * d + (x * d + i)) i <$> PixelArray.upto d))
  ↔ ∃ i j, 0 ≤ i < d ∧ 0 ≤ j < d ∧ C = (y * d + j) * w * d + (x * d + i).
Proof.
  rewrite list_elem_of_bind. split.
  - intros (i & Hj & Hi). apply list_elem_of_fmap in Hj as (j & -> & Hj).
    apply elem_of_upto in Hi, Hj. by exists i, j.
  - intros (i & j & Hi & Hj & ->). exists i. split; [|by apply elem_of_upto].
    apply list_elem_of_fmap. exists j. split; [done|by apply elem_of_upto].
Qed.

(** X13. [set] writes one block. On a pixel array that fits the canvas
    (four bytes for each of its [width * pixelDensity] by
    [height * pixelDensity] device pixels), [set(x, y, c)] at integer
    coordinates inside the sketch, for a colour [c] the chain of tests
    accepts, returns; the array keeps its length; every byte of the
    [pixelDensity] by [pixelDensity] block of device pixels of [(x, y)] holds
    the matching component of [c] as the array clamps it; and every other
    byte is what it was. The canvas ([base]) is not touched: the change is
    in the array only until [updatePixels]. *)
Theorem set_writes_block x y imgOrCol this rgba :
  1 ≤ Pixels.pixelDensity (PixelArray.base this) →
  0 ≤ x < Pixels.width (PixelArray.base this) →
  0 ≤ y < Pixels.height (PixelArray.base this) →
  Z.of_nat (length (PixelArray.pixels this))
    = 4 * (Pixels.width (PixelArray.base this) * Pixels.pixelDensity (PixelArray.base this))
        * (Pixels.height (PixelArray.base this) * Pixels.pixelDensity (PixelArray.base this)) →
  PixelArray.components imgOrCol true = inr rgba →
  ∃ data,
    PixelArray.set x y imgOrCol this
      = JS.Normal {| PixelArray.base := PixelArray.base this; PixelArray.imageData := Some data |}
    ∧ length data = length (PixelArray.pixels this)
    ∧ ∀ X Y k,
        0 ≤ X < Pixels.width (PixelArray.base this) * Pixels.pixelDensity (PixelArray.base this) →
        0 ≤ Y < Pixels.height (PixelArray.base this) * Pixels.pixelDensity (PixelArray.base this) →
        0 ≤ k < 4 →
        data !! Z.to_nat
                  (4 * (Y * (Pixels.width (PixelArray.base this)
                             * Pixels.pixelDensity (PixelArray.base this)) + X) + k)
          = if PixelArray.in_block (Pixels.pixelDensity (PixelArray.base this)) x y X Y
            then PixelArray.bytes rgba !! Z.to_nat k
            else PixelArray.pixels this
                   !! Z.to_nat
                        (4 * (Y * (Pixels.width (PixelArray.base this)
                                   * Pixels.pixelDensity (PixelArray.base this)) + X) + k).
Proof.
  set (d := Pixels.pixelDensity (PixelArray.base this)).
  set (w := Pixels.width (PixelArray.base this)).
  set (h := Pixels.height (PixelArray.base this)).
  intros Hd Hx Hy Hlen Hrgba. unfold PixelArray.set. fold d w.
  set (this' := match PixelArray.imageData this with
                | None => PixelArray.loadPixels this
                | Some _ => this
                end).
  assert (Hpx : default [] (PixelArray.imageData this') = PixelArray.pixels this)
    by (unfold PixelArray.pixels, this'; destruct (PixelArray.imageData this) eqn:E; by rewrite ?E).
  assert (Hbase : PixelArray.base this' = PixelArray.base this)
    by (unfold this'; by destruct (PixelArray.imageData this)).
  rewrite Hpx, Hbase.
  assert (Hin : (4 * (y * d * (w * d) + x * d) <? Z.of_nat (length (PixelArray.pixels this)))
                = true).
  { apply Z.ltb_lt. rewrite Hlen.
    assert (0 ≤ x * d ∧ x * d + d ≤ w * d) as [? ?] by nia.
    assert (0 ≤ y * d ∧ y * d + d ≤ h * d) as [? ?] by nia.
    generalize dependent (w * d). generalize dependent (h * d).
    generalize dependent (y * d). generalize dependent (x * d). intros. nia. }
  rewrite Hin, Hrgba.
  pose proof (fold_left_nested (fun px c => PixelArray.write (4 * c) rgba px)
                (fun i j => (y * d + j) * w * d + (x * d + i))
                (PixelArray.upto d) (PixelArray.upto d) (PixelArray.pixels this)) as Hfold.
  cbn beta in Hfold. eexists. split; [reflexivity|]. rewrite Hfold.
  split; [apply length_writes|]. intros X Y k HX HY Hk.
  rewrite lookup_writes; [|nia|done|].
  - destruct (PixelArray.in_block d x y X Y) eqn:Hblock; unfold PixelArray.in_block in Hblock.
    + rewrite bool_decide_eq_true_2; [done|]. apply elem_of_cells.
      exists (X - x * d), (Y - y * d). lia.
    + rewrite bool_decide_eq_false_2; [done|].
      intros (i & j & Hi & Hj & Heq)%elem_of_cells.
      replace ((y * d + j) * w * d + (x * d + i))
        with ((y * d + j) * (w * d) + (x * d + i)) in Heq by ring.
      apply base_unique in Heq as [-> ->]; [lia|lia|nia].
  - apply Forall_forall. intros c (i & j & Hi & Hj & ->)%elem_of_cells.
    assert (0 ≤ x * d + i < w * d) by nia.
    assert (0 ≤ y * d + j < h * d) by nia.
    split; [nia|]. rewrite Hlen.
    replace ((y * d + j) * w * d + (x * d + i))
      with ((y * d + j) * (w * d) + (x * d + i)) by ring.
    nia.
Qed.


(** X14. No bounds check on [x]. At pixel density 1, [set] uses its
    coordinates only through [y * width + x]: two calls whose coordinates
    give the same sum do the same, whatever the colour and the state. So
    [set(width + k, y, c)] writes the pixel [(k, y + 1)], and
    [set(-1, y, c)] the last pixel of the row above. *)
Theorem set_uses_linear_index x y x' y' imgOrCol this :
  Pixels.pixelDensity (PixelArray.base this) = 1 →
  y * Pixels.width (PixelArray.base this) + x = y' * Pixels.width (PixelArray.base this) + x' →
  PixelArray.set x y imgOrCol this = PixelArray.set x' y' imgOrCol this.
Proof.
  intros Hd Hidx. unfold PixelArray.set. rewrite Hd.
  change (PixelArray.upto 1) with [0]. cbn [fold_left].
  rewrite !Z.mul_1_r, !Z.add_0_r. by rewrite Hidx.
Qed.

Lemma store_outside i v px :
  Z.of_nat (length px) ≤ i → PixelArray.store i v px = px.
Proof.
  intros Hi. unfold PixelArray.store.
  destruct (Z.ltb_spec i (Z.of_nat (length px))); [lia|].
  by rewrite andb_false_r.
Qed.

Lemma write_outside idx rgba px :
  Z.of_nat (length px) ≤ idx → PixelArray.write idx rgba px = px.
Proof.
  intros Hi. destruct rgba as [[[r g] b] a]. unfold PixelArray.write.
  rewrite (store_outside idx) by lia. rewrite (store_outside (idx + 1)) by lia.
  rewrite (store_outside (idx + 2)) by lia. by rewrite store_outside by lia.
Qed.

Lemma writes_outside cs rgba px :
  Forall (fun c => Z.of_nat (length px) ≤ 4 * c) cs →
  fold_left (fun px c => PixelArray.write (4 * c) rgba px) cs px = px.
Proof.
  induction 1 as [|c cs Hc Hcs IH]; cbn [fold_left]; [done|].
  by rewrite write_outside.
Qed.

(** X15. Below the canvas nothing is written. With [y] at or past the
    height and [x] not negative, on a pixel array that fits the canvas,
    [set] changes no byte, whatever the colour: all it does is load the
    pixels if they were not loaded; this is also the state it leaves when it
    throws for an array colour with fewer than four elements. *)
Theorem set_below_canvas x y imgOrCol this :
  1 ≤ Pixels.pixelDensity (PixelArray.base this) →
  0 ≤ Pixels.width (PixelArray.base this) →
  0 ≤ x → Pixels.height (PixelArray.base this) ≤ y →
  Z.of_nat (length (PixelArray.pixels this))
    = 4 * (Pixels.width (PixelArray.base this) * Pixels.pixelDensity (PixelArray.base this))
        * (Pixels.height (PixelArray.base this) * Pixels.pixelDensity (PixelArray.base this)) →
  receiver (PixelArray.set x y imgOrCol this)
    = {| PixelArray.base := PixelArray.base this; PixelArray.imageData := Some (PixelArray.pixels this) |}.
Proof.
  set (d := Pixels.pixelDensity (PixelArray.base this)).
  set (w := Pixels.width (PixelArray.base this)).
  set (h := Pixels.height (PixelArray.base this)).
  intros Hd Hw Hx Hy Hlen. unfold PixelArray.set. fold d w.
  set (this' := match PixelArray.imageData this with
                | None => PixelArray.loadPixels this
                | Some _ => this
                end).
  assert (Hthis : this' = {| PixelArray.base := PixelArray.base this; PixelArray.imageData := Some (PixelArray.pixels this) |}).
  { unfold PixelArray.pixels, this'. destruct this as [b [data|]]; reflexivity. }
  rewrite Hthis. cbn [PixelArray.imageData default PixelArray.base].
  destruct (PixelArray.components imgOrCol _) as [error|rgba]; [reflexivity|].
  pose proof (fold_left_nested (fun px c => PixelArray.write (4 * c) rgba px)
                (fun i j => (y * d + j) * w * d + (x * d + i))
                (PixelArray.upto d) (PixelArray.upto d) (PixelArray.pixels this)) as Hfold.
  cbn beta in Hfold. cbn [receiver id]. rewrite Hfold, writes_outside; [done|].
  apply Forall_forall. intros c (i & j & Hi & Hj & ->)%elem_of_cells.
  rewrite Hlen.
  assert (h * d ≤ y * d + j) by nia.
  assert (0 ≤ x * d + i) by nia.
  assert (0 ≤ w * d) by nia.
  replace ((y * d + j) * w * d + (x * d + i))
    with ((y * d + j) * (w * d) + (x * d + i)) by ring.
  generalize dependent (w * d). generalize dependent (h * d).
  generalize dependent (y * d + j). generalize dependent (x * d + i).
  intros. nia.
Qed.

End PixelArrayFacts.

(** ** The rasteriser state *)

Section Raster.

Context `{ML : p5_Matrix} `{HO : Host} `{DR : Driver}.

Lemma raster_initShaders vertId fragId imm r :
  raster (_initShaders vertId fragId imm r).2 = raster r.
Proof. unfold _initShaders, raster. repeat case_match; reflexivity. Qed.

Lemma raster_getShader vertId fragId imm r :
  raster (_getShader vertId fragId imm r).2 = raster r.
Proof.
  destruct (materialInHash (vertId ++ "|" ++ fragId) r) eqn:Hin.
  - by rewrite getShader_cached.
  - rewrite getShader_fresh by done. cbn [snd].
    rewrite <- (raster_initShaders vertId fragId imm r). reflexivity.
Qed.

Lemma raster_useShader h r : raster (_useShader h r) = raster r.
Proof. unfold _useShader. case_match; reflexivity. Qed.

Lemma raster_setUniform name data r : raster (_setUniform name data r) = raster r.
Proof. unfold _setUniform. repeat case_match; reflexivity. Qed.

Lemma raster_applyColorBlend args r :
  raster (_applyColorBlend args r).2
    = (gl.isEnabled gl.DEPTH_TEST (GL r),
       alpha_below_one (_array (color args)),
       negb (alpha_below_one (_array (color args)))).
Proof. unfold _applyColorBlend, raster. case_match; reflexivity. Qed.

Lemma raster_setNoFillStroke r : raster (_setNoFillStroke r) = raster r.
Proof. unfold _setNoFillStroke. by rewrite raster_setUniform, raster_useShader. Qed.

Lemma raster_fill args r :
  raster (fill args r) = raster (_applyColorBlend args r).2.
Proof.
  rewrite fill_steps. set (r2 := set_drawMode mode_fill _).
  assert (H2 : raster r2 = raster (_applyColorBlend args r).2) by reflexivity.
  rewrite <- H2.
  rewrite <- (raster_getShader (fill_pair (isImmediateDrawing r)).1
                (fill_pair (isImmediateDrawing r)).2 JS.Undefined r2).
  destruct (isImmediateDrawing r); cbv beta;
    by rewrite ?raster_setUniform, raster_useShader.
Qed.

Lemma raster_noFill r :
  raster (noFill r)
    = (gl.isEnabled gl.DEPTH_TEST (GL r), true, gl.DEPTH_WRITEMASK (GL r)).
Proof.
  unfold noFill.
  pose proof (raster_getShader "normalVert" "basicFrag" JS.Undefined r) as Hg.
  destruct (_getShader "normalVert" "basicFrag" JS.Undefined r) as [sp r2].
  cbn [snd] in Hg. rewrite raster_setNoFillStroke.
  pose proof (raster_useShader sp r2) as Hu. rewrite Hg in Hu.
  unfold raster in *. cbn. by injection Hu as -> _ ->.
Qed.

Lemma raster_stroke args r : raster (stroke args r) = raster r.
Proof.
  unfold stroke. case_match; [|reflexivity]. by rewrite raster_setNoFillStroke.
Qed.

Lemma raster_getCurShaderId r : raster (_getCurShaderId r).2 = raster r.
Proof.
  unfold _getCurShaderId. cbn [snd].
  repeat case_match; try reflexivity; apply raster_getShader.
Qed.


Lemma raster_set_ambientLightCount n r :
  raster (set_ambientLightCount n r) = raster r.
Proof. reflexivity. Qed.

Lemma raster_set_directionalLightCount n r :
  raster (set_directionalLightCount n r) = raster r.
Proof. reflexivity. Qed.

Lemma raster_set_pointLightCount n r :
  raster (set_pointLightCount n r) = raster r.
Proof. reflexivity. Qed.

Ltac raster_steps :=
  repeat first
    [ rewrite raster_setUniform | rewrite raster_useShader
    | rewrite raster_set_ambientLightCount
    | rewrite raster_set_directionalLightCount
    | rewrite raster_set_pointLightCount ].

Lemma raster_ambientLight args r :
  raster (_renderer (ambientLight args (as_sketch r))) = raster r.
Proof.
  unfold ambientLight. cbn [_renderer as_sketch].
  pose proof (raster_getShader "lightVert" "lightTextureFrag" JS.Undefined r) as Hg.
  destruct (_getShader "lightVert" "lightTextureFrag" JS.Undefined r) as [sp r2].
  cbn [snd _renderer set_renderer] in *. by raster_steps.
Qed.

Lemma raster_directionalLight args r :
  raster (_renderer (receiver (directionalLight args (as_sketch r)))) = raster r.
Proof.
  unfold directionalLight. cbn [_renderer as_sketch].
  pose proof (raster_getShader "lightVert" "lightTextureFrag" JS.Undefined r) as Hg.
  destruct (_getShader "lightVert" "lightTextureFrag" JS.Undefined r) as [sp r2].
  destruct (trailing_xyz args) as [e|[[x y] z]];
    cbn [snd receiver _renderer set_renderer] in *; by raster_steps.
Qed.

Lemma raster_pointLight args r :
  raster (_renderer (receiver (pointLight args (as_sketch r)))) = raster r.
Proof.
  unfold pointLight. cbn [_renderer as_sketch].
  pose proof (raster_getShader "lightVert" "lightTextureFrag" JS.Undefined r) as Hg.
  destruct (_getShader "lightVert" "lightTextureFrag" JS.Undefined r) as [sp r2].
  destruct (trailing_xyz args) as [e|[[x y] z]];
    cbn [snd receiver _renderer set_renderer] in *; by raster_steps.
Qed.

Lemma raster_api_call c r :
  (raster r).1.1 = true ∧ ((raster r).2 = false → (raster r).1.2 = true) →
  (raster (api_call c r)).1.1 = true
  ∧ ((raster (api_call c r)).2 = false → (raster (api_call c r)).1.2 = true).
Proof.
  intros Hr. destruct c; cbn [api_call].
  - by rewrite raster_getShader.
  - by rewrite raster_getCurShaderId.
  - by rewrite raster_setUniform.
  - rewrite raster_fill, raster_applyColorBlend. cbn [fst snd].
    split; [apply Hr|]. by destruct (alpha_below_one _).
  - rewrite raster_noFill. cbn [fst snd]. split; [apply Hr|done].
  - by rewrite raster_stroke.
  - by rewrite raster_ambientLight.
  - by rewrite raster_directionalLight.
  - by rewrite raster_pointLight.
  - exact Hr.
Qed.

(** X16. Depth testing stays on, and depth writes are off only while
    blending is on. After any sequence of shader, colour, draw-mode and
    light calls on a new renderer, [DEPTH_TEST] is enabled as
    [_initContext] left it, and whenever the depth write mask is off
    [BLEND] is enabled. *)
Theorem depth_test_stays_on cs (width0 height0 : float) :
  gl.isEnabled gl.DEPTH_TEST
    (GL (api_calls cs (RendererGL_new width0 height0 World_new).1)) = true
  ∧ (gl.DEPTH_WRITEMASK
       (GL (api_calls cs (RendererGL_new width0 height0 World_new).1)) = false →
     gl.isEnabled gl.BLEND
       (GL (api_calls cs (RendererGL_new width0 height0 World_new).1)) = true).
Proof.
  assert (H0 : (raster (RendererGL_new width0 height0 World_new).1).1.1 = true
               ∧ ((raster (RendererGL_new width0 height0 World_new).1).2 = false →
                  (raster (RendererGL_new width0 height0 World_new).1).1.2 = true))
    by (split; [reflexivity|discriminate]).
  revert H0. generalize (RendererGL_new width0 height0 World_new).1.
  unfold api_calls. induction cs as [|c cs IH]; intros r Hr; [exact Hr|].
  cbn [fold_left]. apply IH. by apply raster_api_call.
Qed.

End Raster.

(** ** Reading a pixel inside the canvas *)

Section PixelsGetInside.

Local Open Scope Z_scope.

(** X17. A single-pixel read ignores the pixel density. Where the guard
    lets the call through ([0 <= x <= width], [0 <= y <= height]),
    [get(x, y)] and [get(x, y, 1, 1)] return the four bytes of the device
    pixel [(x, y)] of the canvas, whatever [pixelDensity] is: the
    coordinates are not scaled as they are for a region, so at density 2 the
    pixel read is not the one [set(x, y, c)] writes. *)
Theorem get_reads_device_pixel (s : Pixels.Sketch) (x y : Z) :
  0 ≤ x ≤ Pixels.width s → 0 ≤ y ≤ Pixels.height s →
  Pixels.get (Some x) (Some y) None None s
    = Pixels.pixels (Pixels.imageData_pixel (Pixels.canvas s) x y)
  ∧ Pixels.get (Some x) (Some y) (Some 1) (Some 1) s
    = Pixels.pixels (Pixels.imageData_pixel (Pixels.canvas s) x y).
Proof.
  intros [Hx0 Hx1] [Hy0 Hy1].
  assert (Hdata : Pixels.copy_rgba
                    (Pixels.getImageData (Pixels.canvas s) x y 1 1)
                  = Pixels.imageData_pixel (Pixels.canvas s) x y).
  { unfold Pixels.getImageData. change (Z.to_nat 1) with 1%nat.
    cbn [seq flat_map Z.of_nat]. rewrite !app_nil_r, !Z.add_0_r.
    unfold Pixels.imageData_pixel. case_match; [|reflexivity].
    by destruct (Pixels.pixel (Pixels.canvas s) x y) as [[[r g] b] a]. }
  unfold Pixels.get; cbn.
  replace (Pixels.width s <? x) with false by (symmetry; apply Z.ltb_ge; lia).
  replace (Pixels.height s <? y) with false by (symmetry; apply Z.ltb_ge; lia).
  replace (x <? 0) with false by (symmetry; apply Z.ltb_ge; lia).
  replace (y <? 0) with false by (symmetry; apply Z.ltb_ge; lia).
  cbn. by rewrite Hdata.
Qed.

End PixelsGetInside.


(** ** Copying and blending *)

Section CompositingFacts.

Context (ToNumber : string → float) (supported : string → bool).

Lemma copy_arity arguments this :
  length arguments ≠ 8%nat → length arguments ≠ 9%nat →
  Compositing.copy ToNumber arguments this
    = JS.Throw (JS.GenericError "Signature not supported") this.
Proof.
  intros H8 H9.
  destruct arguments as [|a1 [|a2 [|a3 [|a4 [|a5 [|a6 [|a7 [|a8 [|a9 [|a10 rest]
    ]]]]]]]]]; done.
Qed.

Lemma copy_outcome arguments this :
  (∃ d, Compositing.copy ToNumber arguments this
          = JS.Normal
              {| Compositing.width := Compositing.width this;
                 Compositing.canvas_width := Compositing.canvas_width this;
                 Compositing.globalCompositeOperation :=
                   Compositing.globalCompositeOperation this;
                 Compositing.drawn := d :: Compositing.drawn this |}
        ∧ Compositing.operation d = Compositing.globalCompositeOperation this)
  ∨ (∃ error, Compositing.copy ToNumber arguments this = JS.Throw error this).
Proof.
  destruct (decide (length arguments = 8%nat ∨ length arguments = 9%nat))
    as [Hlen|Hlen].
  - destruct arguments as [|a1 [|a2 [|a3 [|a4 [|a5 [|a6 [|a7 [|a8 [|a9 [|a10 rest]
      ]]]]]]]]]; try (exfalso; cbn in Hlen; lia).
    + left. eexists. split; reflexivity.
    + destruct a1; [right|left|right|right]; eexists; try reflexivity.
      split; reflexivity.
  - right. eexists. apply copy_arity; lia.
Qed.

Lemma set_globalCompositeOperation_drawn v this :
  Compositing.drawn (Compositing.set_globalCompositeOperation supported v this)
    = Compositing.drawn this.
Proof.
  unfold Compositing.set_globalCompositeOperation.
  destruct v; try reflexivity. by destruct (supported s).
Qed.

Lemma length_all_but_last arguments :
  length (Compositing.all_but_last arguments) = (length arguments - 1)%nat.
Proof. unfold Compositing.all_but_last. rewrite length_take. lia. Qed.

(** X18. [blend] restores the composite operation only when [copy]
    returns. With the context at an operation its canvas knows: if [blend]
    returns, the operation is the one before the call and exactly one image
    was drawn, under the requested mode where the canvas knows it; if it
    throws, nothing was drawn and the context is left at the requested mode,
    not restored. It throws ['Signature not supported'] whenever it is not
    given 9 or 10 arguments. *)
Theorem blend_restores_only_on_return arguments this :
  supported (Compositing.globalCompositeOperation this) = true →
  match Compositing.blend ToNumber supported arguments this with
  | JS.Normal s =>
      Compositing.globalCompositeOperation s
        = Compositing.globalCompositeOperation this
      ∧ ∃ d, Compositing.drawn s = d :: Compositing.drawn this
          ∧ Compositing.operation d
            = Compositing.globalCompositeOperation
                (Compositing.set_globalCompositeOperation supported
                   (Compositing.last_argument arguments) this)
  | JS.Throw _ s =>
      s = Compositing.set_globalCompositeOperation supported
            (Compositing.last_argument arguments) this
  end
  ∧ (length arguments ≠ 9%nat → length arguments ≠ 10%nat →
     Compositing.blend ToNumber supported arguments this
       = JS.Throw (JS.GenericError "Signature not supported")
           (Compositing.set_globalCompositeOperation supported
              (Compositing.last_argument arguments) this)).
Proof.
  intros Hop. unfold Compositing.blend. split.
  - set (this1 := Compositing.set_globalCompositeOperation supported _ this).
    destruct (copy_outcome (Compositing.all_but_last arguments) this1)
      as [(d & -> & Hd)|[error ->]]; [|reflexivity].
    unfold Compositing.set_globalCompositeOperation at 1 2. rewrite Hop.
    cbn [Compositing.globalCompositeOperation Compositing.drawn].
    split; [reflexivity|]. exists d. split; [|exact Hd].
    unfold this1. by rewrite set_globalCompositeOperation_drawn.
  - intros H9 H10. rewrite copy_arity; [reflexivity| |];
      rewrite length_all_but_last; lia.
Qed.

End CompositingFacts.

(** ** Evaluated on the sample platform *)

(** A scope around a transform, a nested scope with one more inside it,
    and another transform, on a new renderer. *)
Lemma scope_restores_matrix_nested :
  store_sound Sample.renderer Sample.world
  ∧ ∃ this' w',
      run_scoped
        (s_scope [s_transform (call_translate 10 0 0);
                  s_scope [s_transform (call_rotateX 1); s_scope []];
                  s_transform (call_scale 2 2 2)])
        Sample.renderer Sample.world = JS.Normal (this', w')
      ∧ deref (uMVMatrix this') w' = Sample.m_identity
      ∧ uMVMatrixStack w' = [].
Proof.
  assert (Hs : store_sound Sample.renderer Sample.world)
    by apply (new_sketch_store_sound 100 100).
  split; [exact Hs|].
  destruct (scope_restores_matrix
              [s_transform (call_translate 10 0 0);
               s_scope [s_transform (call_rotateX 1); s_scope []];
               s_transform (call_scale 2 2 2)]
              Sample.renderer Sample.world Hs)
    as (this' & w' & Hrun & Hm & Hst & _).
  exists this', w'. split_and!; [exact Hrun|by rewrite Hm|by rewrite Hst].
Defined.

(** The colour array of the ambient lights, addressed as the light
    functions do, on an implementation that reports it with eight
    elements. *)
Lemma suffixed_name_never_array_ambient :
  array_writes
    (GL (_setUniform "uAmbientColor[0]"
           (JS.Float32Array [0.5; 0.5; 0.5]%float)
           (set_curShader
              (_initShaders (DR := Sample.working 8) "lightVert"
                 "lightTextureFrag" JS.Undefined Sample.renderer).1
              Sample.renderer)))
    = array_writes (GL Sample.renderer)
  ∧ introspect_uniforms (DR := Sample.working 8) 0
      (shader "lightVert") (shader "lightTextureFrag") !! "uAmbientColor[0]"
    = None
  ∧ is_Some (introspect_uniforms (DR := Sample.working 8) 0
               (shader "lightVert") (shader "lightTextureFrag")
             !! "uAmbientColor").
Proof.
  split_and!.
  - refine (proj1 (suffixed_name_never_array (DR := Sample.working 8) 0
                     (introspect_attributes (DR := Sample.working 8)
                        (shader "lightVert") (shader "lightTextureFrag"))
                     (shader "lightVert") (shader "lightTextureFrag")
                     "uAmbientColor[0]" (JS.Float32Array [0.5; 0.5; 0.5]%float)
                     (set_curShader
                        (_initShaders (DR := Sample.working 8) "lightVert"
                           "lightTextureFrag" JS.Undefined Sample.renderer).1
                        Sample.renderer) _ _)).
    + vm_compute. reflexivity.
    + vm_compute. eexists. reflexivity.
  - vm_compute. reflexivity.
  - vm_compute. eexists. reflexivity.
Defined.

(** [setAttributes('depth', false)] on a sketch created with antialiasing:
    depth stays [true], and antialiasing is off again. *)
Lemma setAttributes_pair_depth_false :
  Attributes.read
    (Attributes.setAttributes [JS.Str "depth"; JS.Boolean false]
       (Attributes.RendererGL_new (JS.Object [("antialias", JS.Boolean true)])))
    "depth" = JS.Boolean true
  ∧ Attributes.antialias
      (Attributes.RendererGL_new (JS.Object [("antialias", JS.Boolean true)]))
    = JS.Boolean true
  ∧ Attributes.antialias
      (Attributes.setAttributes [JS.Str "depth"; JS.Boolean false]
         (Attributes.RendererGL_new (JS.Object [("antialias", JS.Boolean true)])))
    = JS.Boolean false.
Proof.
  split_and!; [|reflexivity|reflexivity].
  rewrite (setAttributes_pair_resets_the_rest (JS.Str "depth") (JS.Boolean false)
             (Attributes.RendererGL_new (JS.Object [("antialias", JS.Boolean true)]))
             "depth").
  - reflexivity.
  - unfold Attributes.names. do 1 constructor. constructor.
Defined.

(** [set(1, 1, [10, 20, 30, 300])] at density 2: the device pixel
    [(3, 3)] is in the block and its alpha is clamped to 255; the pixel
    [(4, 3)] beside the block keeps its red component. *)
Lemma set_writes_block_retina :
  ∃ data,
    PixelArray.set 1 1 (PixelArray.array [10; 20; 30; 300]%Z) SamplePixels.retina
      = JS.Normal {| PixelArray.base := PixelArray.base SamplePixels.retina;
                     PixelArray.imageData := Some data |}
    ∧ data !! 108%nat = Some 10%Z
    ∧ data !! 111%nat = Some 255%Z
    ∧ data !! 112%nat = Some 4%Z.
Proof.
  destruct (set_writes_block 1 1 (PixelArray.array [10; 20; 30; 300]%Z)
              SamplePixels.retina (10, 20, 30, 300)%Z)
    as (data & Hset & _ & Hbytes);
    [vm_compute; congruence|vm_compute; split; congruence
    |vm_compute; split; congruence|vm_compute; reflexivity|reflexivity|].
  exists data. split; [exact Hset|].
  pose proof (Hbytes 3 3 0)%Z as H0. pose proof (Hbytes 3 3 3)%Z as H3.
  pose proof (Hbytes 4 3 0)%Z as H4.
  split_and!; [apply H0|apply H3|apply H4]; vm_compute; split; congruence.
Defined.

(** On the white canvas of 100 by 100 at density 1, [set(105, 2, c)] is
    [set(5, 3, c)]. *)
Lemma set_uses_linear_index_wraps :
  PixelArray.set 105 2 (PixelArray.number 0) SamplePixels.white
    = PixelArray.set 5 3 (PixelArray.number 0) SamplePixels.white.
Proof.
  apply set_uses_linear_index; reflexivity.
Defined.

(** [set(0, 3, 9)] on the sketch of height 3. *)
Lemma set_below_canvas_retina :
  receiver (PixelArray.set 0 3 (PixelArray.number 9) SamplePixels.retina)
    = {| PixelArray.base := PixelArray.base SamplePixels.retina;
         PixelArray.imageData := Some (PixelArray.pixels SamplePixels.retina) |}.
Proof.
  apply set_below_canvas; vm_compute; (reflexivity || congruence).
Defined.

(** [get(1, 1)] at density 2 reads the device pixel [(1, 1)]; the block
    of the sketch pixel [(1, 1)] starts at [(2, 2)]. *)
Lemma get_reads_device_pixel_retina :
  Pixels.get (Some 1%Z) (Some 1%Z) None None
    (PixelArray.base SamplePixels.retina)
    = Pixels.pixels [1; 1; 0; 255]%Z
  ∧ PixelArray.in_block 2 1 1 1 1 = false.
Proof.
  split; [|reflexivity].
  destruct (get_reads_device_pixel (PixelArray.base SamplePixels.retina) 1 1)
    as [-> _]; [cbn; lia|cbn; lia|reflexivity].
Defined.

(** [blend(0, 0, 10, 10, 'multiply')]: five arguments. The context is
    left at ['multiply']. *)
Lemma blend_restores_only_on_return_five_arguments :
  Compositing.blend (fun _ => PrimFloat.nan) (fun _ => true)
    [Compositing.number 0; Compositing.number 0; Compositing.number 10;
     Compositing.number 10; Compositing.str "multiply"]
    {| Compositing.width := 100; Compositing.canvas_width := 200;
       Compositing.globalCompositeOperation := "source-over";
       Compositing.drawn := [] |}
  = JS.Throw (JS.GenericError "Signature not supported")
      {| Compositing.width := 100; Compositing.canvas_width := 200;
         Compositing.globalCompositeOperation := "multiply";
         Compositing.drawn := [] |}.
Proof.
  refine (proj2 (blend_restores_only_on_return (fun _ => PrimFloat.nan)
                   (fun _ => true) _ _ _) _ _);
    [reflexivity|cbn; lia|cbn; lia].
Defined.

(** Antialiasing set by key and value, then the drawing buffer preserved
    through an object: antialiasing is still on. *)
Lemma setAttributes_object_keeps_antialias :
  Attributes.read
    (Attributes.setAttributes
       [JS.Object [("preserveDrawingBuffer", JS.Boolean true)]]
       (Attributes.RendererGL_new (JS.Object [("antialias", JS.Boolean true)])))
    "antialias" = JS.Boolean true.
Proof.
  rewrite (setAttributes_object_merges
             (JS.Object [("antialias", JS.Boolean true)])
             [("preserveDrawingBuffer", JS.Boolean true)] "antialias").
  - reflexivity.
  - unfold Attributes.names. do 4 constructor.
Defined.

(** [ambientMaterial(255, 0, 0, 128)] and [specularMaterial(255, 0, 0, 128)]
    first thing on a new renderer: the alpha is below 1, the calls throw,
    and blending is off as the new context has it, where
    [fill(255, 0, 0, 128)] turns it on. After an [ambientLight], which makes
    a shader current, the same material call returns with blending on and
    depth writes off. *)
Lemma color_call_blending_new_renderer :
  alpha_below_one
    (_array (color [JS.Number 255; JS.Number 0; JS.Number 0; JS.Number 128]))
    = true
  ∧ curShader (_renderer Sample.sketch) = null
  ∧ ambientMaterial [JS.Number 255; JS.Number 0; JS.Number 0; JS.Number 128]
      Sample.sketch
    = JS.Throw (JS.TypeError "Cannot read property 'isLightShader' of null")
        Sample.sketch
  ∧ specularMaterial [JS.Number 255; JS.Number 0; JS.Number 0; JS.Number 128]
      Sample.sketch
    = JS.Throw (JS.TypeError "Cannot read property 'isLightShader' of null")
        Sample.sketch
  ∧ blending (_renderer Sample.sketch) = (false, true)
  ∧ blending (fill (DR := Sample.working 8)
                [JS.Number 255; JS.Number 0; JS.Number 0; JS.Number 128]
                (_renderer Sample.sketch)) = (true, false)
  ∧ ∃ s, ambientMaterial [JS.Number 255; JS.Number 0; JS.Number 0; JS.Number 128]
           SampleShader.lit = JS.Normal s
      ∧ blending (_renderer s) = (true, false).
Proof.
  assert (Hframe : ∀ shader name data r,
            blending (Shader_setUniform shader name data r) = blending r)
    by (intros shader name data r; apply blending_setUniform).
  assert (Halpha : alpha_below_one
                     (_array (color [JS.Number 255; JS.Number 0; JS.Number 0;
                                     JS.Number 128])) = true)
    by (vm_compute; reflexivity).
  destruct (color_call_blending (DR := Sample.working 8)
              [JS.Number 255; JS.Number 0; JS.Number 0; JS.Number 128]
              Sample.sketch Hframe) as (Hfill & _ & _ & _).
  pose proof (color_call_blending (DR := Sample.working 8)
                [JS.Number 255; JS.Number 0; JS.Number 0; JS.Number 128]
                SampleShader.lit Hframe) as (_ & _ & Hlit & _).
  rewrite Halpha in Hfill, Hlit.
  split_and!; [exact Halpha|reflexivity|reflexivity|reflexivity|reflexivity
              |exact Hfill|].
  destruct (curShader (_renderer SampleShader.lit)) eqn:Hcur;
    [vm_compute in Hcur; discriminate Hcur..|].
  cbn [isLightShader SampleShader.light_shader] in Hlit.
  exact (proj1 Hlit).
Defined.
